(** * LiveKit session controller of RPG-VCMC: join / leave / remote-track binder

    Shallow embedding of the three revisions of
    [app/src/features/livekit/join.ts] found in the repository:

    - [Module AV]        the audio+video controller (the revision that
                         [room_panel.tsx] imports [startCamera] from);
    - [Module AudioOnly] the audio-only controller;
    - [Module Probe]     the early [fetchLiveKitToken] connect probe.

    Module-level variables become fields of a [World] record that is threaded
    through a state-and-exception monad.  Every call to a collaborator
    (config loader, identity provider, [fetch], the LiveKit [Room]) is
    recorded as an [Effect] in the order it is issued, and its outcome is read
    from an environment record, so a run is a function of the module state
    and of what the collaborators answer.  [await] is sequential: a call runs
    to completion before the next one starts, and the listeners registered on
    a room are separate entry points ([onTrackSubscribed], ..., [onDisconnected])
    that the transport invokes between calls.

    Of a DOM element only its parent is kept ([autoplay], [playsInline], the
    style and the dataset do not influence any decision of the module).
    [loadConfig] is a collaborator like the others: its cache lives in
    [config.ts]. *)

From stdpp Require Import gmap strings list fin_maps pretty.
From Stdlib Require Import Ascii String.

Local Open Scope string_scope.
Local Open Scope list_scope.

(** ** Identities of the objects the module handles *)

Definition RoomId := nat.      (* a [Room] object, named by allocation order *)
Definition ElemId := nat.      (* an element returned by [track.attach()]    *)
Definition Container := nat.   (* an [HTMLElement] handed in by the caller   *)
Definition VideoEl := nat.     (* the caller's local-preview [<video>]       *)
Definition TrackId := nat.     (* a local capture track                      *)

(** ** Exceptions and results *)

Inductive Exn :=
| Error (msg : string)        (* [throw new Error(msg)] of this module *)
| Rejected (who : string).    (* an exception raised by a collaborator *)

Inductive Res (A : Type) :=
| Ok (a : A)
| Throw (e : Exn).
Arguments Ok {A} a.
Arguments Throw {A} e.

(** What a collaborator answers to a call: a value, or an exception of its
    own, which is never one of this module's [Error]s. *)
Inductive Outcome (A : Type) :=
| Returns (a : A)
| Raises (who : string).
Arguments Returns {A} a.
Arguments Raises {A} who.

(** ** Calls to collaborators *)

Inductive TrackKind := Audio | Video | Unknown.
Inductive FacingMode := user | environment.
Inductive RoomEvent :=
| TrackSubscribed | TrackUnsubscribed | ParticipantDisconnected | Disconnected
| Connected | ConnectionStateChanged.

Inductive Effect :=
| ELoadConfig
| ESignInAnonymously
| EGetIdToken (uid : string)
| EFetch (tokenEndpoint roomId uid idToken : string)
| ERespText
| ERespJson
| ENewRoom (r : RoomId)
| EOn (r : RoomId) (ev : RoomEvent)
| EOnce (r : RoomId) (ev : RoomEvent)
| EConnect (r : RoomId) (host token : string)
| EStartAudio (r : RoomId)
| ECreateLocalTracks
| EPublishTrack (r : RoomId) (t : TrackId)
| ECreateLocalVideoTrack (facing : FacingMode)
| EAttachPreview (t : TrackId) (el : VideoEl)
| ETrackPublications (r : RoomId)
| EUnpublishTrack (r : RoomId) (t : option TrackId)
| EStop (t : TrackId)
| EDisconnect (r : RoomId).

(** ** The state-exception-trace monad

    A computation maps the module state to a result, the new module state
    and the collaborator calls it issued.  A thrown exception keeps the
    state reached so far, as in JavaScript. *)

Definition M (W A : Type) : Type := W → Res A * W * list Effect.

Definition result {W A} (x : Res A * W * list Effect) : Res A := x.1.1.
Definition world {W A} (x : Res A * W * list Effect) : W := x.1.2.
Definition effects {W A} (x : Res A * W * list Effect) : list Effect := x.2.

Definition ret {W A} (a : A) : M W A := λ w, (Ok a, w, []).

Definition bind {W A B} (m : M W A) (k : A → M W B) : M W B :=
  λ w, match m w with
       | (Ok a, w1, t1) =>
           match k a w1 with (r, w2, t2) => (r, w2, t1 ++ t2) end
       | (Throw e, w1, t1) => (Throw e, w1, t1)
       end.

Definition throw {W A} (e : Exn) : M W A := λ w, (Throw e, w, []).

(** [call e o]: issue the collaborator call [e]; [o] is what it answers. *)
Definition call {W A} (e : Effect) (o : Outcome A) : M W A :=
  λ w, (match o with
        | Returns a => Ok a
        | Raises who => Throw (Rejected who)
        end, w, [e]).

Definition emit {W} (e : Effect) : M W unit := λ w, (Ok tt, w, [e]).

Definition gets {W A} (f : W → A) : M W A := λ w, (Ok (f w), w, []).

Definition modify {W} (f : W → W) : M W unit := λ w, (Ok tt, f w, []).

(** [try { m } catch {}] *)
Definition try_catch {W} (m : M W unit) : M W unit :=
  λ w, match m w with
       | (Ok _, w1, t1) => (Ok tt, w1, t1)
       | (Throw _, w1, t1) => (Ok tt, w1, t1)
       end.

(** [for (const x of l) body(x)] *)
Fixpoint for_of {W A} (l : list A) (body : A → M W unit) : M W unit :=
  match l with
  | [] => ret tt
  | x :: l' => bind (body x) (λ _, for_of l' body)
  end.

Declare Scope js_scope.
Delimit Scope js_scope with js.
Notation "x <- m ;; k" := (bind m (λ x, k))
  (at level 100, m at next level, right associativity) : js_scope.
Notation "m ;; k" := (bind m (λ _, k))
  (at level 100, right associativity) : js_scope.
Local Open Scope js_scope.

(** ** Strings *)

(** [/^wss?:\/\//i.test(host)]: the [i] flag folds the ASCII letters only. *)
Definition lower_ascii (c : ascii) : ascii :=
  let n := nat_of_ascii c in
  if (Nat.leb 65 n && Nat.leb n 90)%bool then ascii_of_nat (n + 32) else c.

Fixpoint lowercase (s : string) : string :=
  match s with
  | EmptyString => EmptyString
  | String c s' => String (lower_ascii c) (lowercase s')
  end.

Definition ws_scheme (host : string) : bool :=
  String.prefix "ws://" (lowercase host) || String.prefix "wss://" (lowercase host).

(** [`${participantIdentity}:${sid}`] *)
Definition binding_key (participantIdentity sid : string) : string :=
  participantIdentity +:+ ":" +:+ sid.

(** [k.startsWith(`${participantIdentity}:`)] *)
Definition key_of_participant (participantIdentity k : string) : bool :=
  String.prefix (participantIdentity +:+ ":") k.

(** ** The DOM fragment the module touches

    [parentNode] maps every attached media element to the container it hangs
    under; an element without entry has no parent. *)

(** [if (el?.parentNode) el.parentNode.removeChild(el)], for the element
    found under key [k] of the bookkeeping map [els]. *)
Definition remove_from_parent (els : gmap string ElemId) (k : string)
    (parentNode : gmap ElemId Container) : gmap ElemId Container :=
  match els !! k with
  | Some el => delete el parentNode
  | None => parentNode
  end.

(** The body shared by [detachAllRemoteAudioFor] and [detachAllRemoteVideoFor]:
    [.forEach(k => { ...removeChild(el); els.delete(k) })] over a key list. *)
Definition detach_keys (ks : list string)
    (st : gmap string ElemId * gmap ElemId Container)
    : gmap string ElemId * gmap ElemId Container :=
  foldl (λ st k, (delete k st.1, remove_from_parent st.1 k st.2)) st ks.

(** [[...els.keys()].filter(k => k.startsWith(`${identity}:`))] *)
Definition keys_of_participant (identity : string) (els : gmap string ElemId)
    : list string :=
  List.filter (key_of_participant identity) (map_to_list els).*1.

(** [for (const [, el] of els) if (el?.parentNode) el.parentNode.removeChild(el)] *)
Definition detach_elements (els : gmap string ElemId)
    (parentNode : gmap ElemId Container) : gmap ElemId Container :=
  foldl (λ pn kv, delete kv.2 pn) parentNode (map_to_list els).

(** ** What the collaborators hand back *)

Record AppConfig := {
  livekit_host : string;
  livekit_tokenEndpoint : string;
}.

Record User := { uid : string }.

(** The body of a token response: an object whose [token] field is a string
    or is missing; [stringify] is what [JSON.stringify] prints for it. *)
Record TokenBody := { token : option string; stringify : string }.

Record Response := {
  resp_ok : bool;
  resp_status : nat;
  resp_statusText : string;
  resp_text : Outcome string;       (* [await resp.text()] *)
  resp_json : Outcome TokenBody;    (* [await resp.json()] *)
}.

Record LocalTrackPublication := { pub_track : option TrackId }.

(** A remote track and the participant it belongs to, as the event
    handlers read them. *)
Record RemoteTrack := { kind : TrackKind; track_sid : string }.
Record Participant := { identity : string; sid : string }.

(** Answers of the collaborators during one [leaveLiveKit]. *)
Record LeaveEnv := {
  le_publications : Outcome (list LocalTrackPublication);
  le_unpublishTrack : option TrackId → Outcome unit;
  le_stop : TrackId → Outcome unit;
  le_disconnect : Outcome unit;
}.

(** Answers of the collaborators during one [startCamera]. *)
Record CameraEnv := {
  ce_createLocalVideoTrack : Outcome TrackId;
  ce_publishTrack : TrackId → Outcome unit;
}.

(** Answers of the collaborators during one [joinLiveKit]. *)
Record JoinEnv := {
  je_leave : LeaveEnv;
  je_loadConfig : Outcome AppConfig;
  je_currentUser : option User;     (* [auth.currentUser] on entry *)
  je_signInAnonymously : Outcome User;  (* the user signed in, when it succeeds *)
  je_getIdToken : Outcome string;
  je_fetch : Outcome Response;
  je_connect : Outcome unit;
  je_startAudio : Outcome unit;
  je_createLocalTracks : Outcome (list TrackId);
  je_publishTrack : TrackId → Outcome unit;
  je_camera : CameraEnv;
}.

(** * The audio+video controller *)

Module AV.

(** The module-level variables, the DOM fragment and the allocators. *)
Record World := mkWorld {
  currentRoom : option RoomId;
  audioContainerEl : option Container;
  remoteVideoContainerEl : option Container;
  localVideoEl : option VideoEl;
  audioEls : gmap string ElemId;
  videoEls : gmap string ElemId;
  parentNode : gmap ElemId Container;
  nextRoom : RoomId;
  nextElem : ElemId;
}.

(** The state of a freshly loaded module. *)
Definition initial : World :=
  mkWorld None None None None ∅ ∅ ∅ 0 0.

Definition set_currentRoom (v : option RoomId) (w : World) : World :=
  mkWorld v (audioContainerEl w) (remoteVideoContainerEl w) (localVideoEl w)
    (audioEls w) (videoEls w) (parentNode w) (nextRoom w) (nextElem w).
Definition set_audioContainerEl (v : option Container) (w : World) : World :=
  mkWorld (currentRoom w) v (remoteVideoContainerEl w) (localVideoEl w)
    (audioEls w) (videoEls w) (parentNode w) (nextRoom w) (nextElem w).
Definition set_remoteVideoContainerEl (v : option Container) (w : World) : World :=
  mkWorld (currentRoom w) (audioContainerEl w) v (localVideoEl w)
    (audioEls w) (videoEls w) (parentNode w) (nextRoom w) (nextElem w).
Definition set_localVideoEl (v : option VideoEl) (w : World) : World :=
  mkWorld (currentRoom w) (audioContainerEl w) (remoteVideoContainerEl w) v
    (audioEls w) (videoEls w) (parentNode w) (nextRoom w) (nextElem w).
Definition set_audio (els : gmap string ElemId) (pn : gmap ElemId Container)
    (w : World) : World :=
  mkWorld (currentRoom w) (audioContainerEl w) (remoteVideoContainerEl w)
    (localVideoEl w) els (videoEls w) pn (nextRoom w) (nextElem w).
Definition set_video (els : gmap string ElemId) (pn : gmap ElemId Container)
    (w : World) : World :=
  mkWorld (currentRoom w) (audioContainerEl w) (remoteVideoContainerEl w)
    (localVideoEl w) (audioEls w) els pn (nextRoom w) (nextElem w).

(** [new Room()] *)
Definition new_Room : M World RoomId :=
  λ w, (Ok (nextRoom w),
        mkWorld (currentRoom w) (audioContainerEl w) (remoteVideoContainerEl w)
          (localVideoEl w) (audioEls w) (videoEls w) (parentNode w)
          (S (nextRoom w)) (nextElem w),
        [ENewRoom (nextRoom w)]).

(** [track.attach()]: a new media element, not yet in the document. *)
Definition track_attach : M World ElemId :=
  λ w, (Ok (nextElem w),
        mkWorld (currentRoom w) (audioContainerEl w) (remoteVideoContainerEl w)
          (localVideoEl w) (audioEls w) (videoEls w) (parentNode w)
          (nextRoom w) (S (nextElem w)),
        []).

(** ** Remote track binder *)

Definition attachRemoteAudio (track : RemoteTrack) (participantIdentity : string)
    : M World unit :=
  c <- gets audioContainerEl ;;
  match c with
  | None => ret tt
  | Some container =>
      el <- track_attach ;;
      modify (λ w, set_audio
                     (<[binding_key participantIdentity (track_sid track) := el]>
                        (audioEls w))
                     (<[el := container]> (parentNode w)) w)
  end.

Definition detachRemoteAudio (participantIdentity sid : string) : M World unit :=
  let key := binding_key participantIdentity sid in
  modify (λ w, set_audio (delete key (audioEls w))
                 (remove_from_parent (audioEls w) key (parentNode w)) w).

Definition detachAllRemoteAudioFor (participantIdentity : string) : M World unit :=
  modify (λ w,
    let st := detach_keys (keys_of_participant participantIdentity (audioEls w))
                (audioEls w, parentNode w) in
    set_audio st.1 st.2 w).

Definition detachAllRemoteAudio : M World unit :=
  modify (λ w, set_audio ∅ (detach_elements (audioEls w) (parentNode w)) w).

Definition attachRemoteVideo (track : RemoteTrack) (participantIdentity : string)
    : M World unit :=
  c <- gets remoteVideoContainerEl ;;
  match c with
  | None => ret tt
  | Some container =>
      el <- track_attach ;;
      modify (λ w, set_video
                     (<[binding_key participantIdentity (track_sid track) := el]>
                        (videoEls w))
                     (<[el := container]> (parentNode w)) w)
  end.

Definition detachRemoteVideo (participantIdentity sid : string) : M World unit :=
  let key := binding_key participantIdentity sid in
  modify (λ w, set_video (delete key (videoEls w))
                 (remove_from_parent (videoEls w) key (parentNode w)) w).

Definition detachAllRemoteVideoFor (participantIdentity : string) : M World unit :=
  modify (λ w,
    let st := detach_keys (keys_of_participant participantIdentity (videoEls w))
                (videoEls w, parentNode w) in
    set_video st.1 st.2 w).

Definition detachAllRemoteVideo : M World unit :=
  modify (λ w, set_video ∅ (detach_elements (videoEls w) (parentNode w)) w).

(** The three listeners [joinLiveKit] registers on the room. *)
Definition onTrackSubscribed (track : RemoteTrack) (participant : Participant)
    : M World unit :=
  match kind track with
  | Audio => attachRemoteAudio track (identity participant)
  | Video => attachRemoteVideo track (identity participant)
  | Unknown => ret tt
  end.

Definition onTrackUnsubscribed (track : RemoteTrack) (participant : Participant)
    : M World unit :=
  match kind track with
  | Audio => detachRemoteAudio (identity participant) (sid participant)
  | Video => detachRemoteVideo (identity participant) (sid participant)
  | Unknown => ret tt
  end.

Definition onParticipantDisconnected (p : Participant) : M World unit :=
  detachAllRemoteAudioFor (identity p) ;;
  detachAllRemoteVideoFor (identity p).

(** The [RoomEvent.Disconnected] listener installed at the end of a join. *)
Definition onDisconnected : M World unit :=
  detachAllRemoteAudio ;;
  detachAllRemoteVideo ;;
  modify (set_audioContainerEl None) ;;
  modify (set_remoteVideoContainerEl None) ;;
  modify (set_localVideoEl None) ;;
  modify (set_currentRoom None).

(** ** Session controller *)

Definition leaveLiveKit (env : LeaveEnv) : M World unit :=
  cur <- gets currentRoom ;;
  match cur with
  | None => ret tt
  | Some room =>
      try_catch (
        pubs <- call (ETrackPublications room) (le_publications env) ;;
        for_of pubs (λ pub,
          let track := pub_track pub in
          call (EUnpublishTrack room track) (le_unpublishTrack env track) ;;
          match track with
          | Some t => call (EStop t) (le_stop env t)
          | None => ret tt
          end)) ;;
      detachAllRemoteAudio ;;
      detachAllRemoteVideo ;;
      try_catch (call (EDisconnect room) (le_disconnect env)) ;;
      modify (set_audioContainerEl None) ;;
      modify (set_remoteVideoContainerEl None) ;;
      modify (set_localVideoEl None) ;;
      modify (set_currentRoom None)
  end.

Definition startCamera (facingMode : option FacingMode) (env : CameraEnv)
    : M World unit :=
  cur <- gets currentRoom ;;
  match cur with
  | None => throw (Error "Not connected")
  | Some room =>
      vtrack <- call (ECreateLocalVideoTrack (default user facingMode))
                  (ce_createLocalVideoTrack env) ;;
      call (EPublishTrack room vtrack) (ce_publishTrack env vtrack) ;;
      lv <- gets localVideoEl ;;
      match lv with
      | Some el => emit (EAttachPreview vtrack el)
      | None => ret tt
      end
  end.

Record Mounts := {
  audioContainer : option Container;
  remoteVideoContainer : option Container;
  localVideo : option VideoEl;
}.

Record Opts := {
  publishVideo : option bool;
  cameraFacingMode : option FacingMode;
}.

Definition joinLiveKit (roomId : string) (mounts : option Mounts)
    (opts : option Opts) (env : JoinEnv) : M World RoomId :=
  if decide (roomId = "") then throw (Error "roomId is required") else
  cur <- gets currentRoom ;;
  match cur with Some _ => leaveLiveKit (je_leave env) | None => ret tt end ;;
  cfg <- call ELoadConfig (je_loadConfig env) ;;
  usr <- match je_currentUser env with
         | Some u => ret u
         | None => call ESignInAnonymously (je_signInAnonymously env)
         end ;;
  idToken <- call (EGetIdToken (uid usr)) (je_getIdToken env) ;;
  resp <- call (EFetch (livekit_tokenEndpoint cfg) roomId (uid usr) idToken)
            (je_fetch env) ;;
  (if resp_ok resp then ret tt else
     text <- call ERespText (resp_text resp) ;;
     throw (Error ("Token endpoint " +:+ pretty (resp_status resp) +:+ ": " +:+ text))) ;;
  body <- call ERespJson (resp_json resp) ;;
  match token body with
  | None | Some "" => throw (Error "Token endpoint did not return { token }")
  | Some tok =>
      let host := livekit_host cfg in
      if negb (ws_scheme host)
      then throw (Error ("livekit.host must start with wss:// or ws://, got " +:+ host))
      else
        modify (set_audioContainerEl (mounts ≫= audioContainer)) ;;
        modify (set_remoteVideoContainerEl (mounts ≫= remoteVideoContainer)) ;;
        modify (set_localVideoEl (mounts ≫= localVideo)) ;;
        room <- new_Room ;;
        emit (EOn room TrackSubscribed) ;;
        emit (EOn room TrackUnsubscribed) ;;
        emit (EOn room ParticipantDisconnected) ;;
        call (EConnect room host tok) (je_connect env) ;;
        try_catch (call (EStartAudio room) (je_startAudio env)) ;;
        baseTracks <- call ECreateLocalTracks (je_createLocalTracks env) ;;
        for_of baseTracks (λ t, call (EPublishTrack room t) (je_publishTrack env t)) ;;
        (if bool_decide ((opts ≫= publishVideo) = Some true)
         then startCamera (Some (default user (opts ≫= cameraFacingMode)))
                (je_camera env)
         else ret tt) ;;
        modify (set_currentRoom (Some room)) ;;
        emit (EOnce room Disconnected) ;;
        ret room
  end.

Definition getActiveRoom : M World (option RoomId) := gets currentRoom.

End AV.

(** * The audio-only controller *)

Module AudioOnly.

Record World := mkWorld {
  currentRoom : option RoomId;
  audioEls : gmap string ElemId;
  audioContainerEl : option Container;
  parentNode : gmap ElemId Container;
  nextRoom : RoomId;
  nextElem : ElemId;
}.

Definition initial : World := mkWorld None ∅ None ∅ 0 0.

Definition set_currentRoom (v : option RoomId) (w : World) : World :=
  mkWorld v (audioEls w) (audioContainerEl w) (parentNode w) (nextRoom w) (nextElem w).
Definition set_audioContainerEl (v : option Container) (w : World) : World :=
  mkWorld (currentRoom w) (audioEls w) v (parentNode w) (nextRoom w) (nextElem w).
Definition set_audio (els : gmap string ElemId) (pn : gmap ElemId Container)
    (w : World) : World :=
  mkWorld (currentRoom w) els (audioContainerEl w) pn (nextRoom w) (nextElem w).

Definition new_Room : M World RoomId :=
  λ w, (Ok (nextRoom w),
        mkWorld (currentRoom w) (audioEls w) (audioContainerEl w) (parentNode w)
          (S (nextRoom w)) (nextElem w),
        [ENewRoom (nextRoom w)]).

Definition track_attach : M World ElemId :=
  λ w, (Ok (nextElem w),
        mkWorld (currentRoom w) (audioEls w) (audioContainerEl w) (parentNode w)
          (nextRoom w) (S (nextElem w)),
        []).

Definition attachRemoteAudio (track : RemoteTrack) (participantIdentity : string)
    : M World unit :=
  c <- gets audioContainerEl ;;
  match c with
  | None => ret tt
  | Some container =>
      el <- track_attach ;;
      modify (λ w, set_audio
                     (<[binding_key participantIdentity (track_sid track) := el]>
                        (audioEls w))
                     (<[el := container]> (parentNode w)) w)
  end.

Definition detachRemoteAudio (participantIdentity sid : string) : M World unit :=
  let key := binding_key participantIdentity sid in
  modify (λ w, set_audio (delete key (audioEls w))
                 (remove_from_parent (audioEls w) key (parentNode w)) w).

Definition detachAllRemoteAudioFor (participantIdentity : string) : M World unit :=
  modify (λ w,
    let st := detach_keys (keys_of_participant participantIdentity (audioEls w))
                (audioEls w, parentNode w) in
    set_audio st.1 st.2 w).

Definition detachAllRemoteAudio : M World unit :=
  modify (λ w, set_audio ∅ (detach_elements (audioEls w) (parentNode w)) w).

Definition onTrackSubscribed (track : RemoteTrack) (participant : Participant)
    : M World unit :=
  match kind track with
  | Audio => attachRemoteAudio track (identity participant)
  | _ => ret tt
  end.

Definition onTrackUnsubscribed (_track : RemoteTrack) (participant : Participant)
    : M World unit :=
  detachRemoteAudio (identity participant) (sid participant).

Definition onParticipantDisconnected (p : Participant) : M World unit :=
  detachAllRemoteAudioFor (identity p).

Definition onDisconnected : M World unit :=
  detachAllRemoteAudio ;;
  modify (set_audioContainerEl None) ;;
  modify (set_currentRoom None).

Definition leaveLiveKit (env : LeaveEnv) : M World unit :=
  cur <- gets currentRoom ;;
  match cur with
  | None => ret tt
  | Some room =>
      try_catch (
        pubs <- call (ETrackPublications room) (le_publications env) ;;
        for_of pubs (λ pub,
          try_catch (
            let track := pub_track pub in
            call (EUnpublishTrack room track) (le_unpublishTrack env track) ;;
            match track with
            | Some t => call (EStop t) (le_stop env t)
            | None => ret tt
            end))) ;;
      detachAllRemoteAudio ;;
      try_catch (call (EDisconnect room) (le_disconnect env)) ;;
      modify (set_audioContainerEl None) ;;
      modify (set_currentRoom None)
  end.

Definition joinLiveKit (roomId : string) (audioContainer : option Container)
    (env : JoinEnv) : M World RoomId :=
  if decide (roomId = "") then throw (Error "roomId is required") else
  cur <- gets currentRoom ;;
  match cur with Some _ => leaveLiveKit (je_leave env) | None => ret tt end ;;
  cfg <- call ELoadConfig (je_loadConfig env) ;;
  usr <- match je_currentUser env with
         | Some u => ret u
         | None => call ESignInAnonymously (je_signInAnonymously env)
         end ;;
  idToken <- call (EGetIdToken (uid usr)) (je_getIdToken env) ;;
  resp <- call (EFetch (livekit_tokenEndpoint cfg) roomId (uid usr) idToken)
            (je_fetch env) ;;
  (if resp_ok resp then ret tt else
     text <- call ERespText (resp_text resp) ;;
     throw (Error ("Token endpoint " +:+ pretty (resp_status resp) +:+ ": " +:+ text))) ;;
  body <- call ERespJson (resp_json resp) ;;
  match token body with
  | None | Some "" => throw (Error "Token endpoint did not return { token }")
  | Some tok =>
      let host := livekit_host cfg in
      if negb (ws_scheme host)
      then throw (Error ("livekit.host must start with wss:// or ws://, got " +:+ host))
      else
        room <- new_Room ;;
        modify (set_audioContainerEl audioContainer) ;;
        emit (EOn room TrackSubscribed) ;;
        emit (EOn room TrackUnsubscribed) ;;
        emit (EOn room ParticipantDisconnected) ;;
        call (EConnect room host tok) (je_connect env) ;;
        try_catch (call (EStartAudio room) (je_startAudio env)) ;;
        tracks <- call ECreateLocalTracks (je_createLocalTracks env) ;;
        for_of tracks (λ t, call (EPublishTrack room t) (je_publishTrack env t)) ;;
        modify (set_currentRoom (Some room)) ;;
        emit (EOnce room Disconnected) ;;
        ret room
  end.

Definition getActiveRoom : M World (option RoomId) := gets currentRoom.

End AudioOnly.

(** * The connect probe [fetchLiveKitToken] *)

Module Probe.

(** The probe keeps no module state; only [Room] objects are allocated. *)
Definition new_Room : M RoomId RoomId :=
  λ n, (Ok n, S n, [ENewRoom n]).

(** [p.catch(() => d)] *)
Definition catch_default {A} (o : Outcome A) (d : A) : Outcome A :=
  match o with Returns a => Returns a | Raises _ => Returns d end.

Definition fetchLiveKitToken (roomId : string) (env : JoinEnv) : M RoomId RoomId :=
  if decide (roomId = "") then throw (Error "roomId is required") else
  cfg <- call ELoadConfig (je_loadConfig env) ;;
  if bool_decide (livekit_host cfg = "") || bool_decide (livekit_tokenEndpoint cfg = "")
  then throw (Error "Missing livekit.host or livekit.tokenEndpoint in config.")
  else
  usr <- match je_currentUser env with
         | Some u => ret u
         | None => call ESignInAnonymously (je_signInAnonymously env)
         end ;;
  idToken <- call (EGetIdToken (uid usr)) (je_getIdToken env) ;;
  resp <- call (EFetch (livekit_tokenEndpoint cfg) roomId (uid usr) idToken)
            (je_fetch env) ;;
  (if resp_ok resp then ret tt else
     text <- call ERespText (catch_default (resp_text resp) "") ;;
     throw (Error ("Token endpoint " +:+ pretty (resp_status resp) +:+ ": " +:+
                   (if decide (text = "") then resp_statusText resp else text)))) ;;
  data <- call ERespJson
            (catch_default (resp_json resp) {| token := None; stringify := "{}" |}) ;;
  match token data with
  | None | Some "" =>
      throw (Error ("Token endpoint did not return { token }. Got: " +:+ stringify data))
  | Some tok =>
      let host := livekit_host cfg in
      if negb (ws_scheme host)
      then throw (Error ("livekit.host must start with wss:// (or ws:// for localhost). Got: "
                         +:+ host))
      else
        room <- new_Room ;;
        emit (EOn room Connected) ;;
        emit (EOn room ConnectionStateChanged) ;;
        emit (EOn room TrackSubscribed) ;;
        call (EConnect room host tok) (je_connect env) ;;
        tracks <- call ECreateLocalTracks (je_createLocalTracks env) ;;
        for_of tracks (λ t, call (EPublishTrack room t) (je_publishTrack env t)) ;;
        ret room
  end.

End Probe.

(** * Observations on runs *)

(** Calls that open a transport: constructing a [Room] or connecting it. *)
Definition opens_transport (e : Effect) : bool :=
  match e with
  | ENewRoom _ | EConnect _ _ _ => true
  | _ => false
  end.

(** Requests to the token endpoint. *)
Definition is_fetch (e : Effect) : bool :=
  match e with
  | EFetch _ _ _ _ => true
  | _ => false
  end.

(** [room.connect] calls. *)
Definition is_connect (e : Effect) : bool :=
  match e with
  | EConnect _ _ _ => true
  | _ => false
  end.

(** How many requests a run sent to the token endpoint. *)
Definition fetch_count (t : list Effect) : nat :=
  List.length (List.filter is_fetch t).

(** The identity provider yields [usr]: it is the current user, or there is
    none and the anonymous sign-in returns it. *)
Definition signed_in (env : JoinEnv) (usr : User) : Prop :=
  je_currentUser env = Some usr
  ∨ (je_currentUser env = None ∧ je_signInAnonymously env = Returns usr).

(** Teardown calls: they open no transport and request no token. *)
Definition quiet (e : Effect) : Prop :=
  opens_transport e = false ∧ is_fetch e = false ∧ is_connect e = false.

(** Calls that release a local publication. *)
Definition releases_publication (e : Effect) : bool :=
  match e with
  | EUnpublishTrack _ _ | EStop _ => true
  | _ => false
  end.

(** The identity holds no [:], the delimiter of the binding keys. *)
Fixpoint delim_free (s : string) : bool :=
  match s with
  | EmptyString => true
  | String c s' => negb (Ascii.eqb c ":"%char) && delim_free s'
  end.

(** [pre t x]: the run [x] preceded by the calls [t]. *)
Definition pre {W A} (t : list Effect) (x : Res A * W * list Effect)
    : Res A * W * list Effect :=
  (result x, world x, t ++ effects x).

(** A caller that issues [joinLiveKit] calls one after the other, each on the
    state the previous one left, whether it resolved or rejected.  Every entry
    pairs the state a call started from with its run. *)
Record AVCall := {
  avc_roomId : string;
  avc_mounts : option AV.Mounts;
  avc_opts : option AV.Opts;
  avc_env : JoinEnv;
}.

Fixpoint av_join_seq (calls : list AVCall) (w : AV.World)
    : list (AVCall * AV.World * (Res RoomId * AV.World * list Effect)) :=
  match calls with
  | [] => []
  | c :: cs =>
      let x := AV.joinLiveKit (avc_roomId c) (avc_mounts c) (avc_opts c) (avc_env c) w in
      (c, w, x) :: av_join_seq cs (world x)
  end.

Record AOCall := {
  aoc_roomId : string;
  aoc_audioContainer : option Container;
  aoc_env : JoinEnv;
}.

Fixpoint ao_join_seq (calls : list AOCall) (w : AudioOnly.World)
    : list (AOCall * AudioOnly.World * (Res RoomId * AudioOnly.World * list Effect)) :=
  match calls with
  | [] => []
  | c :: cs =>
      let x := AudioOnly.joinLiveKit (aoc_roomId c) (aoc_audioContainer c) (aoc_env c) w in
      (c, w, x) :: ao_join_seq cs (world x)
  end.

(** Rooms are named by allocation order, so the room a state holds was
    allocated before the next one. *)
Definition av_allocated (w : AV.World) : Prop :=
  ∀ r, AV.currentRoom w = Some r → r < AV.nextRoom w.
Definition ao_allocated (w : AudioOnly.World) : Prop :=
  ∀ r, AudioOnly.currentRoom w = Some r → r < AudioOnly.nextRoom w.

(** The module state with every binding detached and every reference
    cleared: what a completed teardown leaves. *)
Definition av_idle (w : AV.World) : AV.World :=
  AV.mkWorld None None None None ∅ ∅
    (detach_elements (AV.videoEls w)
       (detach_elements (AV.audioEls w) (AV.parentNode w)))
    (AV.nextRoom w) (AV.nextElem w).

Definition ao_idle (w : AudioOnly.World) : AudioOnly.World :=
  AudioOnly.mkWorld None ∅ None
    (detach_elements (AudioOnly.audioEls w) (AudioOnly.parentNode w))
    (AudioOnly.nextRoom w) (AudioOnly.nextElem w).

(** ** Open transports

    A room is open from a [connect] on it that succeeded to the next
    [disconnect] on it that succeeded.  [ok] tells whether the [connect] of
    the run succeeds, [cl] whether its [disconnect] does. *)
Definition connect_ok (env : JoinEnv) : bool :=
  match je_connect env with
  | Returns _ => true
  | Raises _ => false
  end.

Definition disconnect_ok (env : LeaveEnv) : bool :=
  match le_disconnect env with
  | Returns _ => true
  | Raises _ => false
  end.

Definition transport_step (ok cl : bool) (live : list RoomId) (e : Effect)
    : list RoomId :=
  match e with
  | EConnect r _ _ => if ok then r :: live else live
  | EDisconnect r =>
      if cl then List.filter (λ r', negb (Nat.eqb r' r)) live else live
  | _ => live
  end.

(** The rooms open after a run that started with the rooms [live] open. *)
Definition open_rooms (ok cl : bool) (live : list RoomId) (t : list Effect)
    : list RoomId :=
  foldl (transport_step ok cl) live t.

(** The largest number of rooms open at any point of the run. *)
Fixpoint peak_open (ok cl : bool) (live : list RoomId) (t : list Effect) : nat :=
  match t with
  | [] => List.length live
  | e :: t' =>
      Nat.max (List.length live) (peak_open ok cl (transport_step ok cl live e) t')
  end.

(** Calls that neither open nor close a transport. *)
Definition transport_neutral (e : Effect) : bool :=
  match e with
  | EConnect _ _ _ | EDisconnect _ => false
  | _ => true
  end.

(** The same over runs issued one after the other. *)
Fixpoint seq_open (live : list RoomId) (runs : list (bool * bool * list Effect))
    : list RoomId :=
  match runs with
  | [] => live
  | (ok, cl, t) :: runs' => seq_open (open_rooms ok cl live t) runs'
  end.

Fixpoint seq_peak (live : list RoomId) (runs : list (bool * bool * list Effect))
    : nat :=
  match runs with
  | [] => List.length live
  | (ok, cl, t) :: runs' =>
      Nat.max (peak_open ok cl live t) (seq_peak (open_rooms ok cl live t) runs')
  end.

Definition av_runs
    (l : list (AVCall * AV.World * (Res RoomId * AV.World * list Effect)))
    : list (bool * bool * list Effect) :=
  (λ e, (connect_ok (avc_env e.1.1), disconnect_ok (je_leave (avc_env e.1.1)),
         effects e.2)) <$> l.

Definition ao_runs
    (l : list (AOCall * AudioOnly.World * (Res RoomId * AudioOnly.World * list Effect)))
    : list (bool * bool * list Effect) :=
  (λ e, (connect_ok (aoc_env e.1.1), disconnect_ok (je_leave (aoc_env e.1.1)),
         effects e.2)) <$> l.

(** A join that rejects after its [connect] succeeded. *)
Definition rejects_connected {W} (env : JoinEnv)
    (x : Res RoomId * W * list Effect) : Prop :=
  (∃ e, result x = Throw e) ∧ connect_ok env = true
  ∧ existsb is_connect (effects x) = true.

(** [P] holds of every element but the last. *)
Fixpoint all_but_last {A} (P : A → Prop) (l : list A) : Prop :=
  match l with
  | [] => True
  | a :: l' => match l' with [] => True | _ => P a ∧ all_but_last P l' end
  end.

(** ** Sample collaborators *)

Module Sample.

Definition mic : LocalTrackPublication := {| pub_track := Some 1 |}.
Definition cam : LocalTrackPublication := {| pub_track := Some 2 |}.

(** A session with a microphone and a camera publication, all calls succeed. *)
Definition leave_ok : LeaveEnv := {|
  le_publications := Returns [mic; cam];
  le_unpublishTrack := λ _, Returns tt;
  le_stop := λ _, Returns tt;
  le_disconnect := Returns tt;
|}.

(** The same session when unpublishing the microphone track throws. *)
Definition leave_mic_stuck : LeaveEnv := {|
  le_publications := Returns [mic; cam];
  le_unpublishTrack := λ t, if decide (t = Some 1) then Raises "unpublishTrack"
                            else Returns tt;
  le_stop := λ _, Returns tt;
  le_disconnect := Returns tt;
|}.

Definition camera_ok : CameraEnv := {|
  ce_createLocalVideoTrack := Returns 2;
  ce_publishTrack := λ _, Returns tt;
|}.

Definition token_response : Response := {|
  resp_ok := true;
  resp_status := 200;
  resp_statusText := "OK";
  resp_text := Returns "{ token }";
  resp_json := Returns {| token := Some "jwt"; stringify := "{ token }" |};
|}.

Definition forbidden_response : Response := {|
  resp_ok := false;
  resp_status := 403;
  resp_statusText := "Forbidden";
  resp_text := Returns "not a member";
  resp_json := Raises "json";
|}.

Definition config (host : string) : AppConfig :=
  {| livekit_host := host; livekit_tokenEndpoint := "https://fn/livekitToken" |}.

(** Every collaborator succeeds; the endpoint and the token response vary. *)
Definition join_env (host : string) (resp : Response) : JoinEnv := {|
  je_leave := leave_ok;
  je_loadConfig := Returns (config host);
  je_currentUser := Some {| uid := "u1" |};
  je_signInAnonymously := Returns {| uid := "anon" |};
  je_getIdToken := Returns "idt";
  je_fetch := Returns resp;
  je_connect := Returns tt;
  je_startAudio := Returns tt;
  je_createLocalTracks := Returns [1];
  je_publishTrack := λ _, Returns tt;
  je_camera := camera_ok;
|}.

Definition join_ok : JoinEnv := join_env "wss://lk.example" token_response.

(** The transport refuses the connection. *)
Definition join_connect_fails : JoinEnv := {|
  je_leave := leave_ok;
  je_loadConfig := Returns (config "wss://lk.example");
  je_currentUser := Some {| uid := "u1" |};
  je_signInAnonymously := Returns {| uid := "anon" |};
  je_getIdToken := Returns "idt";
  je_fetch := Returns token_response;
  je_connect := Raises "connect";
  je_startAudio := Returns tt;
  je_createLocalTracks := Returns [1];
  je_publishTrack := λ _, Returns tt;
  je_camera := camera_ok;
|}.

(** The transport connects, then the microphone is refused. *)
Definition join_mic_denied : JoinEnv := {|
  je_leave := leave_ok;
  je_loadConfig := Returns (config "wss://lk.example");
  je_currentUser := Some {| uid := "u1" |};
  je_signInAnonymously := Returns {| uid := "anon" |};
  je_getIdToken := Returns "idt";
  je_fetch := Returns token_response;
  je_connect := Returns tt;
  je_startAudio := Returns tt;
  je_createLocalTracks := Raises "getUserMedia";
  je_publishTrack := λ _, Returns tt;
  je_camera := camera_ok;
|}.

Definition mounts : AV.Mounts :=
  {| AV.audioContainer := Some 100; AV.remoteVideoContainer := Some 101;
     AV.localVideo := Some 102 |}.

Definition alice : Participant := {| identity := "alice"; sid := "PA_alice" |}.
Definition alice_mic : RemoteTrack := {| kind := Audio; track_sid := "TR_mic" |}.

(** Two participants whose identities overlap up to the delimiter. *)
Definition a : Participant := {| identity := "a"; sid := "PA_1" |}.
Definition a_b : Participant := {| identity := "a:b"; sid := "PA_2" |}.
Definition t1 : RemoteTrack := {| kind := Audio; track_sid := "t1" |}.
Definition t2 : RemoteTrack := {| kind := Audio; track_sid := "t2" |}.

(** The audio+video module after a successful join of room R1. *)
Definition av_joined : AV.World :=
  world (AV.joinLiveKit "R1" (Some mounts) None join_ok AV.initial).

(** The audio-only module after a successful join of room R1. *)
Definition ao_joined : AudioOnly.World :=
  world (AudioOnly.joinLiveKit "R1" (Some 100) join_ok AudioOnly.initial).

(** A join that connected and then lost the microphone, followed by a
    track-subscribed event of the room it left connected. *)
Definition av_orphan : AV.World :=
  world (AV.onTrackSubscribed alice_mic alice
           (world (AV.joinLiveKit "R1" (Some mounts) None join_mic_denied AV.initial))).

Definition ao_orphan : AudioOnly.World :=
  world (AudioOnly.onTrackSubscribed alice_mic alice
           (world (AudioOnly.joinLiveKit "R1" (Some 100) join_mic_denied
                     AudioOnly.initial))).

(** A joined session with one audio binding. *)
Definition av_bound : AV.World :=
  world (AV.onTrackSubscribed alice_mic alice av_joined).

Definition ao_bound : AudioOnly.World :=
  world (AudioOnly.onTrackSubscribed alice_mic alice ao_joined).

(** A joined session with one audio binding for "a" and one for "a:b". *)
Definition av_two : AV.World :=
  world (AV.onTrackSubscribed t2 a_b (world (AV.onTrackSubscribed t1 a av_joined))).

Definition ao_two : AudioOnly.World :=
  world (AudioOnly.onTrackSubscribed t2 a_b
           (world (AudioOnly.onTrackSubscribed t1 a ao_joined))).

(** A joined session with one audio binding for "a" and one for "ab", two
    identities of which one is the start of the other. *)
Definition ab : Participant := {| identity := "ab"; sid := "PA_3" |}.

Definition av_overlap : AV.World :=
  world (AV.onTrackSubscribed t2 ab (world (AV.onTrackSubscribed t1 a av_joined))).

Definition ao_overlap : AudioOnly.World :=
  world (AudioOnly.onTrackSubscribed t2 ab
           (world (AudioOnly.onTrackSubscribed t1 a ao_joined))).

Definition join_bad_host : JoinEnv := join_env "http://host" token_response.
Definition join_forbidden : JoinEnv := join_env "wss://lk.example" forbidden_response.

(** Two joins in a row, of rooms R1 and R2. *)
Definition av_calls : list AVCall :=
  [ {| avc_roomId := "R1"; avc_mounts := Some mounts; avc_opts := None;
       avc_env := join_ok |};
    {| avc_roomId := "R2"; avc_mounts := Some mounts; avc_opts := None;
       avc_env := join_ok |} ].

Definition ao_calls : list AOCall :=
  [ {| aoc_roomId := "R1"; aoc_audioContainer := Some 100; aoc_env := join_ok |};
    {| aoc_roomId := "R2"; aoc_audioContainer := Some 100; aoc_env := join_ok |} ].

(** A join that connects and then loses the microphone, followed by a join
    that succeeds. *)
Definition av_leak_calls : list AVCall :=
  [ {| avc_roomId := "R1"; avc_mounts := Some mounts; avc_opts := None;
       avc_env := join_mic_denied |};
    {| avc_roomId := "R2"; avc_mounts := Some mounts; avc_opts := None;
       avc_env := join_ok |} ].

Definition ao_leak_calls : list AOCall :=
  [ {| aoc_roomId := "R1"; aoc_audioContainer := Some 100;
       aoc_env := join_mic_denied |};
    {| aoc_roomId := "R2"; aoc_audioContainer := Some 100; aoc_env := join_ok |} ].

End Sample.

(** * Code beside the session controller

    The functions below call collaborators the controller does not (the
    camera preview, the media devices, Firestore, the HTTP response), so their
    runs carry their own call types; the monad is the same, generic in the
    calls. *)

Definition MG (E W A : Type) : Type := W → Res A * W * list E.

Definition res_of {E W A} (x : Res A * W * list E) : Res A := x.1.1.
Definition state_of {E W A} (x : Res A * W * list E) : W := x.1.2.
Definition calls_of {E W A} (x : Res A * W * list E) : list E := x.2.

Definition gret {E W A} (a : A) : MG E W A := λ w, (Ok a, w, []).

Definition gbind {E W A B} (m : MG E W A) (k : A → MG E W B) : MG E W B :=
  λ w, match m w with
       | (Ok a, w1, t1) =>
           match k a w1 with (r, w2, t2) => (r, w2, t1 ++ t2) end
       | (Throw e, w1, t1) => (Throw e, w1, t1)
       end.

Definition gthrow {E W A} (e : Exn) : MG E W A := λ w, (Throw e, w, []).

Definition gcall {E W A} (c : E) (o : Outcome A) : MG E W A :=
  λ w, (match o with
        | Returns a => Ok a
        | Raises who => Throw (Rejected who)
        end, w, [c]).

Definition gemit {E W} (c : E) : MG E W unit := λ w, (Ok tt, w, [c]).

Definition ggets {E W A} (f : W → A) : MG E W A := λ w, (Ok (f w), w, []).

Definition gmodify {E W} (f : W → W) : MG E W unit := λ w, (Ok tt, f w, []).

(** [try { m } catch {}] *)
Definition gtry_catch {E W} (m : MG E W unit) : MG E W unit :=
  λ w, match m w with
       | (Ok _, w1, t1) => (Ok tt, w1, t1)
       | (Throw _, w1, t1) => (Ok tt, w1, t1)
       end.

(** [try { m } catch (e) { h(e) }] *)
Definition gtry_with {E W A} (m : MG E W A) (h : Exn → MG E W A) : MG E W A :=
  λ w, match m w with
       | (Ok a, w1, t1) => (Ok a, w1, t1)
       | (Throw e, w1, t1) =>
           match h e w1 with (r, w2, t2) => (r, w2, t1 ++ t2) end
       end.

(** [for (const x of l) body(x)] *)
Fixpoint gfor_of {E W A} (l : list A) (body : A → MG E W unit) : MG E W unit :=
  match l with
  | [] => gret tt
  | x :: l' => gbind (body x) (λ _, gfor_of l' body)
  end.

Declare Scope gjs_scope.
Delimit Scope gjs_scope with gjs.
Notation "x <- m ;; k" := (gbind m (λ x, k))
  (at level 100, m at next level, right associativity) : gjs_scope.
Notation "m ;; k" := (gbind m (λ _, k))
  (at level 100, right associativity) : gjs_scope.

(** [gpre t x]: the run [x] preceded by the calls [t]. *)
Definition gpre {E W A} (t : list E) (x : Res A * W * list E)
    : Res A * W * list E :=
  (res_of x, state_of x, t ++ calls_of x).

(** ** The camera controls of the audio+video controller *)

Inductive CameraCall :=
| CVideoTrackPublications (r : RoomId)
| CUnpublishTrack (r : RoomId) (t : option TrackId)
| CStop (t : TrackId)
| CSetSrcObjectNull (el : VideoEl)
| CRemoveSrcAttribute (el : VideoEl)
| CLoad (el : VideoEl)
| CGetUserMedia.

(** Answers of the collaborators during one [stopCamera]. *)
Record StopCameraEnv := {
  sc_videoTrackPublications : Outcome (list LocalTrackPublication);
  sc_unpublishTrack : option TrackId → Outcome unit;
  sc_stop : TrackId → Outcome unit;
  sc_setSrcObject : Outcome unit;
  sc_removeAttribute : Outcome unit;
  sc_load : Outcome unit;
}.

(** Answers of the browser during one [preflightCameraPermission]. *)
Record PreflightEnv := {
  pf_getUserMedia_present : bool;   (* [navigator.mediaDevices?.getUserMedia] *)
  pf_getUserMedia : Outcome (list TrackId);   (* the tracks of the stream *)
  pf_stop : TrackId → Outcome unit;
}.

Module Camera.

Definition preflightCameraPermission (env : PreflightEnv)
    : MG CameraCall AV.World unit :=
  (if negb (pf_getUserMedia_present env)
   then gthrow (Error "Camera not supported in this browser")
   else
     stream <- gcall CGetUserMedia (pf_getUserMedia env) ;;
     gfor_of stream (λ t, gcall (CStop t) (pf_stop env t)))%gjs.

Definition stopCamera (env : StopCameraEnv) : MG CameraCall AV.World unit :=
  (cur <- ggets AV.currentRoom ;;
   match cur with
   | None => gret tt
   | Some room =>
       pubs <- gcall (CVideoTrackPublications room) (sc_videoTrackPublications env) ;;
       gfor_of pubs (λ pub,
         let track := pub_track pub in
         gcall (CUnpublishTrack room track) (sc_unpublishTrack env track) ;;
         match track with
         | Some t => gcall (CStop t) (sc_stop env t)
         | None => gret tt
         end) ;;
       lv <- ggets AV.localVideoEl ;;
       match lv with
       | Some el =>
           gtry_catch (
             gcall (CSetSrcObjectNull el) (sc_setSrcObject env) ;;
             gcall (CRemoveSrcAttribute el) (sc_removeAttribute env) ;;
             gcall (CLoad el) (sc_load env))
       | None => gret tt
       end
   end)%gjs.

End Camera.

(** Calls that clear the local preview. *)
Definition touches_preview (c : CameraCall) : bool :=
  match c with
  | CSetSrcObjectNull _ | CRemoveSrcAttribute _ | CLoad _ => true
  | _ => false
  end.

Module CameraSample.

(** One camera publication, every call succeeds. *)
Definition stop_ok : StopCameraEnv := {|
  sc_videoTrackPublications := Returns [Sample.cam];
  sc_unpublishTrack := λ _, Returns tt;
  sc_stop := λ _, Returns tt;
  sc_setSrcObject := Returns tt;
  sc_removeAttribute := Returns tt;
  sc_load := Returns tt;
|}.

(** Two video publications, unpublishing throws. *)
Definition stop_stuck : StopCameraEnv := {|
  sc_videoTrackPublications := Returns [Sample.cam; Sample.mic];
  sc_unpublishTrack := λ _, Raises "unpublishTrack";
  sc_stop := λ _, Returns tt;
  sc_setSrcObject := Returns tt;
  sc_removeAttribute := Returns tt;
  sc_load := Returns tt;
|}.

(** One camera publication; the preview element refuses to drop its source. *)
Definition preview_stuck : StopCameraEnv := {|
  sc_videoTrackPublications := Returns [Sample.cam];
  sc_unpublishTrack := λ _, Returns tt;
  sc_stop := λ _, Returns tt;
  sc_setSrcObject := Returns tt;
  sc_removeAttribute := Raises "removeAttribute";
  sc_load := Returns tt;
|}.

Definition no_media_devices : PreflightEnv := {|
  pf_getUserMedia_present := false;
  pf_getUserMedia := Returns [7];
  pf_stop := λ _, Returns tt;
|}.

Definition granted : PreflightEnv := {|
  pf_getUserMedia_present := true;
  pf_getUserMedia := Returns [7; 8];
  pf_stop := λ _, Returns tt;
|}.

End CameraSample.

(** [createLocalVideoTrack] calls. *)
Definition starts_camera (e : Effect) : bool :=
  match e with
  | ECreateLocalVideoTrack _ => true
  | _ => false
  end.

(** ** Well-formed bindings

    [a] and [v] are the two bookkeeping maps, [pn] the parent map and [n] the
    next element to allocate: every recorded element is in the document and
    was allocated, and no element is recorded twice. *)
Definition bindings_wf (a v : gmap string ElemId) (pn : gmap ElemId Container)
    (n : ElemId) : Prop :=
  (∀ k el, a !! k = Some el ∨ v !! k = Some el →
     is_Some (pn !! el) ∧ (el < n)%nat)
  ∧ (∀ k1 k2 el, a !! k1 = Some el → a !! k2 = Some el → k1 = k2)
  ∧ (∀ k1 k2 el, v !! k1 = Some el → v !! k2 = Some el → k1 = k2)
  ∧ (∀ k1 k2 el, a !! k1 = Some el → v !! k2 = Some el → False).

Definition av_bindings_wf (w : AV.World) : Prop :=
  bindings_wf (AV.audioEls w) (AV.videoEls w) (AV.parentNode w) (AV.nextElem w).

Definition ao_bindings_wf (w : AudioOnly.World) : Prop :=
  bindings_wf (AudioOnly.audioEls w) ∅ (AudioOnly.parentNode w)
    (AudioOnly.nextElem w).

(** The entry points of the audio+video controller: the exported functions
    and the listeners the transport invokes. *)
Inductive AVOp :=
| OpJoin (c : AVCall)
| OpLeave (env : LeaveEnv)
| OpStartCamera (facingMode : option FacingMode) (env : CameraEnv)
| OpStopCamera (env : StopCameraEnv)
| OpTrackSubscribed (track : RemoteTrack) (participant : Participant)
| OpTrackUnsubscribed (track : RemoteTrack) (participant : Participant)
| OpParticipantDisconnected (p : Participant)
| OpDisconnected.

(** The module state after one entry point has run to completion. *)
Definition av_apply (w : AV.World) (op : AVOp) : AV.World :=
  match op with
  | OpJoin c =>
      world (AV.joinLiveKit (avc_roomId c) (avc_mounts c) (avc_opts c) (avc_env c) w)
  | OpLeave env => world (AV.leaveLiveKit env w)
  | OpStartCamera f env => world (AV.startCamera f env w)
  | OpStopCamera env => state_of (Camera.stopCamera env w)
  | OpTrackSubscribed t p => world (AV.onTrackSubscribed t p w)
  | OpTrackUnsubscribed t p => world (AV.onTrackUnsubscribed t p w)
  | OpParticipantDisconnected p => world (AV.onParticipantDisconnected p w)
  | OpDisconnected => world (AV.onDisconnected w)
  end.

Definition av_run (ops : list AVOp) (w : AV.World) : AV.World :=
  foldl av_apply w ops.

Inductive AOOp :=
| AoJoin (c : AOCall)
| AoLeave (env : LeaveEnv)
| AoTrackSubscribed (track : RemoteTrack) (participant : Participant)
| AoTrackUnsubscribed (track : RemoteTrack) (participant : Participant)
| AoParticipantDisconnected (p : Participant)
| AoDisconnected.

Definition ao_apply (w : AudioOnly.World) (op : AOOp) : AudioOnly.World :=
  match op with
  | AoJoin c =>
      world (AudioOnly.joinLiveKit (aoc_roomId c) (aoc_audioContainer c) (aoc_env c) w)
  | AoLeave env => world (AudioOnly.leaveLiveKit env w)
  | AoTrackSubscribed t p => world (AudioOnly.onTrackSubscribed t p w)
  | AoTrackUnsubscribed t p => world (AudioOnly.onTrackUnsubscribed t p w)
  | AoParticipantDisconnected p => world (AudioOnly.onParticipantDisconnected p w)
  | AoDisconnected => world (AudioOnly.onDisconnected w)
  end.

Definition ao_run (ops : list AOOp) (w : AudioOnly.World) : AudioOnly.World :=
  foldl ao_apply w ops.

(** ** Elements the module has lost track of

    [el] hangs under container [c], was allocated by the module, and is
    recorded under no key of either map. *)
Definition orphaned (a v : gmap string ElemId) (pn : gmap ElemId Container)
    (n : ElemId) (el : ElemId) (c : Container) : Prop :=
  pn !! el = Some c
  ∧ (el < n)%nat
  ∧ (∀ k, a !! k ≠ Some el)
  ∧ (∀ k, v !! k ≠ Some el).

Definition av_orphaned (el : ElemId) (c : Container) (w : AV.World) : Prop :=
  orphaned (AV.audioEls w) (AV.videoEls w) (AV.parentNode w) (AV.nextElem w) el c.

Definition ao_orphaned (el : ElemId) (c : Container) (w : AudioOnly.World) : Prop :=
  orphaned (AudioOnly.audioEls w) ∅ (AudioOnly.parentNode w) (AudioOnly.nextElem w)
    el c.

(** The surface [onTrackSubscribed] hangs a track of a given kind under. *)
Definition av_surface (k : TrackKind) (w : AV.World) : option Container :=
  match k with
  | Audio => AV.audioContainerEl w
  | Video => AV.remoteVideoContainerEl w
  | Unknown => None
  end.

(** The element recorded for a key, in the map [onTrackSubscribed] writes for
    a track of a given kind. *)
Definition av_binding (k : TrackKind) (key : string) (w : AV.World)
    : option ElemId :=
  match k with
  | Audio => AV.audioEls w !! key
  | Video => AV.videoEls w !! key
  | Unknown => None
  end.

(** * Rooms in Firestore: [features/rooms/api.ts]

    The Firestore documents the two functions read and write are the module
    state here: a map from document paths (lists of segments) to field maps.
    A write that the service rejects leaves the documents as they were. *)

Inductive FieldValue :=
| FString (s : string)
| FServerTimestamp.           (* the [serverTimestamp()] sentinel *)

Inductive FsCall :=
| FsGetFirestore
| FsGetAuth
| FsSetDoc (path : list string) (data : gmap string FieldValue) (merge : bool)
| FsGetDoc (path : list string).

(** Answers of Firebase during one call of [createRoom] or [joinRoom]. *)
Record ApiEnv := {
  api_getFirestore : Outcome unit;
  api_getAuth : Outcome (option User);   (* [getAuth().currentUser] *)
  api_setDoc : list string → Outcome unit;
  api_getDoc : list string → Outcome unit;
}.

Module Rooms.

Abbreviation Store := (gmap (list string) (gmap string FieldValue)).

(** ** Document references

    [doc(fs, ...components)] of the Firestore SDK names a document by the
    segments of its path: every component is split on [/] and its empty
    segments are dropped.  A component that holds [//] and a path with an odd
    number of segments are refused with an invalid-argument error. *)
Fixpoint split_slash_from (cur s : string) : list string :=
  match s with
  | EmptyString => [cur]
  | String c s' =>
      if Ascii.eqb c "/" then cur :: split_slash_from "" s'
      else split_slash_from (cur +:+ String c "") s'
  end.

Definition split_slash (s : string) : list string := split_slash_from "" s.

Fixpoint has_double_slash (s : string) : bool :=
  match s with
  | EmptyString => false
  | String c s' =>
      match s' with
      | EmptyString => false
      | String c' _ => Ascii.eqb c "/" && Ascii.eqb c' "/"
      end
      || has_double_slash s'
  end.

Definition segments (components : list string) : list string :=
  List.filter (λ s, negb (String.eqb s "")) (components ≫= split_slash).

Definition doc (components : list string) : Outcome (list string) :=
  if existsb has_double_slash components then Raises "invalid-argument"
  else if Nat.even (List.length (segments components))
       then Returns (segments components)
       else Raises "invalid-argument".

(** [doc(fs, 'rooms', roomId)] and [doc(fs, 'rooms', roomId, 'members', uid)] *)
Definition room_path (roomId : string) : Outcome (list string) :=
  doc ["rooms"; roomId].
Definition member_path (roomId uid : string) : Outcome (list string) :=
  doc ["rooms"; roomId; "members"; uid].

(** A call of the SDK that reaches no service: its value, or its exception. *)
Definition local_call {A} (o : Outcome A) : MG FsCall Store A :=
  λ s, (match o with
        | Returns a => Ok a
        | Raises who => Throw (Rejected who)
        end, s, []).

(** [await setDoc(ref, data, { merge: true })]: the fields of [data] replace
    those of the same name, the other fields of the document stay. *)
Definition setDoc_merge (env : ApiEnv) (path : list string)
    (data : gmap string FieldValue) : MG FsCall Store unit :=
  (gcall (FsSetDoc path data true) (api_setDoc env path) ;;
   gmodify (λ s : Store, <[path := data ∪ default ∅ (s !! path)]> s))%gjs.

(** [(await getDoc(ref)).exists()] *)
Definition getDoc_exists (env : ApiEnv) (path : list string)
    : MG FsCall Store bool :=
  (gcall (FsGetDoc path) (api_getDoc env path) ;;
   ggets (λ s : Store, bool_decide (is_Some (s !! path))))%gjs.

(** [getAuth().currentUser!.uid]: reading [uid] of [null] raises a
    [TypeError] of the language runtime. *)
Definition currentUser_uid (env : ApiEnv) : MG FsCall Store string :=
  (cur <- gcall FsGetAuth (api_getAuth env) ;;
   match cur with
   | Some usr => gret (uid usr)
   | None => gthrow (Rejected "TypeError")
   end)%gjs.

Definition createRoom (roomId : string) (env : ApiEnv) : MG FsCall Store unit :=
  (gcall FsGetFirestore (api_getFirestore env) ;;
   uid <- currentUser_uid env ;;
   room <- local_call (room_path roomId) ;;
   setDoc_merge env room
     (<["code" := FString roomId]>
        (<["createdBy" := FString uid]> {["createdAt" := FServerTimestamp]})) ;;
   member <- local_call (member_path roomId uid) ;;
   setDoc_merge env member
     (<["role" := FString "gm"]> {["displayName" := FString "GM"]}))%gjs.

Definition joinRoom (roomId displayName : string) (env : ApiEnv)
    : MG FsCall Store unit :=
  (gcall FsGetFirestore (api_getFirestore env) ;;
   uid <- currentUser_uid env ;;
   room <- local_call (room_path roomId) ;;
   room_exists <- getDoc_exists env room ;;
   if negb room_exists then gthrow (Error "Room not found")
   else
     member <- local_call (member_path roomId uid) ;;
     setDoc_merge env member
       (<["role" := FString "player"]> {["displayName" := FString displayName]}))%gjs.

End Rooms.

(** Reads and writes of documents. *)
Definition fs_writes (c : FsCall) : bool :=
  match c with
  | FsSetDoc _ _ _ => true
  | _ => false
  end.

Definition fs_reads (c : FsCall) : bool :=
  match c with
  | FsGetDoc _ => true
  | _ => false
  end.

(** A field of a document of the store. *)
Definition field (s : Rooms.Store) (path : list string) (name : string)
    : option FieldValue :=
  s !! path ≫= (λ d, d !! name).

Module RoomsSample.

Definition gm : User := {| uid := "u1" |}.

Definition firebase_ok (usr : option User) : ApiEnv := {|
  api_getFirestore := Returns tt;
  api_getAuth := Returns usr;
  api_setDoc := λ _, Returns tt;
  api_getDoc := λ _, Returns tt;
|}.

(** The member document cannot be written. *)
Definition members_locked (usr : option User) : ApiEnv := {|
  api_getFirestore := Returns tt;
  api_getAuth := Returns usr;
  api_setDoc := λ path, match path with
                        | [_; _] => Returns tt
                        | _ => Raises "permission-denied"
                        end;
  api_getDoc := λ _, Returns tt;
|}.

(** Room R1 created by another user. *)
Definition taken : Rooms.Store :=
  {[ ["rooms"; "R1"] := {[ "createdBy" := FString "u0" ]} ]}.

End RoomsSample.

(** * The token endpoint: Cloud Function [livekitToken]

    The Express response is the state: the headers set so far and the
    responses sent.  [res.set], [res.status] and [res.json] do not fail. *)

(** [req.query.room] as Express parses it: absent, one value, a repeated
    parameter, or a nested object. *)
Inductive QueryValue :=
| QUndefined
| QString (s : string)
| QArray (l : list string)
| QObject.

Record Request := {
  req_method : string;
  req_origin : option string;          (* [req.headers.origin] *)
  req_authorization : option string;   (* [req.headers.authorization] *)
  req_room : QueryValue;               (* [req.query.room] *)
}.

Inductive Body :=
| BSend (s : string)
| BJson (fields : list (string * string)).

Record HttpResponse := {
  res_headers : gmap string string;
  res_sent : list (nat * Body);        (* status and body of each response sent *)
}.

(** The member document as the handler reads it. *)
Record MemberDoc := {
  md_exists : bool;
  md_role : option string;             (* [memberDoc.data()?.role] *)
}.

Inductive TokenCall :=
| TVerifyIdToken (idToken : string)
| TGetMember (path : string)
| TToJwt (apiKey apiSecret identity room : string)
| TLogError.

(** Answers of the collaborators during one request. *)
Record TokenEnv := {
  te_verifyIdToken : string → Outcome string;   (* the [uid] of the decoded token *)
  te_member : string → Outcome MemberDoc;
  te_apiKey : option string;           (* [process.env.LIVEKIT_API_KEY] *)
  te_apiSecret : option string;
  te_toJwt : Outcome string;           (* building the token and signing it *)
}.

Module TokenEndpoint.

Definition allowed : list string := ["http://localhost:5173"].

(** [x || ""] for a header that may be absent. *)
Definition or_empty (x : option string) : string := default "" x.

(** A line terminator among the characters of a header value. *)
Definition line_terminator (c : ascii) : bool :=
  Ascii.eqb c "010" || Ascii.eqb c "013".

Fixpoint on_one_line (s : string) : bool :=
  match s with
  | EmptyString => true
  | String c s' => negb (line_terminator c) && on_one_line s'
  end.

(** [authz.match(/^Bearer (.+)$/)], giving the captured group. *)
Definition bearer_token (authz : string) : option string :=
  if String.prefix "Bearer " authz then
    let rest := String.substring 7 (String.length authz - 7) authz in
    if negb (String.eqb rest "") && on_one_line rest then Some rest else None
  else None.

(** [String(req.query.room || "")] *)
Definition room_of_query (q : QueryValue) : string :=
  match q with
  | QUndefined => ""
  | QString s => s
  | QArray l => String.concat "," l
  | QObject => "[object Object]"
  end.

(** [x || "player"] on the role field, and [!x] on a secret. *)
Definition role_or_player (r : option string) : string :=
  match r with
  | Some s => if String.eqb s "" then "player" else s
  | None => "player"
  end.

Definition secret (x : option string) : option string :=
  match x with
  | Some s => if String.eqb s "" then None else Some s
  | None => None
  end.

Definition res_set (name value : string) : MG TokenCall HttpResponse unit :=
  gmodify (λ r, {| res_headers := <[name := value]> (res_headers r);
                   res_sent := res_sent r |}).

(** [res.status(code).json(...)] and [res.status(code).send(...)] *)
Definition respond (code : nat) (b : Body) : MG TokenCall HttpResponse unit :=
  gmodify (λ r, {| res_headers := res_headers r;
                   res_sent := res_sent r ++ [(code, b)] |}).

Definition member_doc_path (room uid : string) : string :=
  "rooms/" +:+ room +:+ "/members/" +:+ uid.

Definition livekitToken (req : Request) (env : TokenEnv)
    : MG TokenCall HttpResponse unit :=
  (let origin := or_empty (req_origin req) in
   (if bool_decide (origin ∈ allowed)
    then res_set "Access-Control-Allow-Origin" origin
    else res_set "Access-Control-Allow-Origin" "*") ;;
   res_set "Access-Control-Allow-Methods" "GET, OPTIONS" ;;
   res_set "Access-Control-Allow-Headers" "Content-Type, Authorization" ;;
   if String.eqb (req_method req) "OPTIONS" then respond 204 (BSend "")
   else
     gtry_with
       (let authz := or_empty (req_authorization req) in
        match bearer_token authz with
        | None => respond 401 (BJson [("error", "missing_bearer_token")])
        | Some idToken =>
            uid <- gcall (TVerifyIdToken idToken) (te_verifyIdToken env idToken) ;;
            let room := room_of_query (req_room req) in
            if String.eqb room "" then respond 400 (BJson [("error", "missing_room")])
            else
              memberDoc <- gcall (TGetMember (member_doc_path room uid))
                             (te_member env (member_doc_path room uid)) ;;
              if negb (md_exists memberDoc)
              then respond 403 (BJson [("error", "not_a_room_member")])
              else
                let role := role_or_player (md_role memberDoc) in
                match secret (te_apiKey env), secret (te_apiSecret env) with
                | Some apiKey, Some apiSecret =>
                    token <- gcall (TToJwt apiKey apiSecret uid room) (te_toJwt env) ;;
                    respond 200 (BJson [("token", token); ("role", role)])
                | _, _ =>
                    respond 500 (BJson [("error", "server_secrets_not_configured")])
                end
        end)
       (λ _, gemit TLogError ;;
             respond 401 (BJson [("error", "unauthorized")])))%gjs.

End TokenEndpoint.

(** A token was asked for. *)
Definition TToJwt_issued (t : list TokenCall) : bool :=
  existsb (λ c, match c with TToJwt _ _ _ _ => true | _ => false end) t.

Module TokenSample.

Definition member (role : option string) : TokenEnv := {|
  te_verifyIdToken := λ _, Returns "u1";
  te_member := λ _, Returns {| md_exists := true; md_role := role |};
  te_apiKey := Some "key";
  te_apiSecret := Some "secret";
  te_toJwt := Returns "jwt";
|}.

Definition firestore_down : TokenEnv := {|
  te_verifyIdToken := λ _, Returns "u1";
  te_member := λ _, Raises "unavailable";
  te_apiKey := Some "key";
  te_apiSecret := Some "secret";
  te_toJwt := Returns "jwt";
|}.

Definition get_token : Request := {|
  req_method := "GET";
  req_origin := Some "http://localhost:5173";
  req_authorization := Some "Bearer abc";
  req_room := QString "R1";
|}.

Definition preflight : Request := {|
  req_method := "OPTIONS";
  req_origin := Some "https://elsewhere.example";
  req_authorization := None;
  req_room := QUndefined;
|}.

Definition fresh : HttpResponse := {| res_headers := ∅; res_sent := [] |}.

End TokenSample.

(** * Configuration and Firebase start-up: [config.ts], [firebase.ts]

    [V] is what [res.json()] can hand back; [truthy] tells which of these
    values pass [if (cfg)].  The cache [cfg] is the module state of
    [config.ts]: [None] is the initial [null]. *)

Inductive ConfigCall :=
| CLog (msg : string)                 (* [console.log], its first argument *)
| CFetch (url : string)               (* [fetch(url, { cache: 'no-store' })] *)
| CJson.                              (* [res.json()] *)

Record ConfigResponse (V : Type) := {
  cr_ok : bool;
  cr_status : nat;
  cr_json : Outcome V;
}.
Arguments cr_ok {V} _.
Arguments cr_status {V} _.
Arguments cr_json {V} _.

(** The resolved URL of config.json and what [fetch] answers. *)
Record ConfigEnv (V : Type) := {
  cfg_url : string;
  cfg_fetch : Outcome (ConfigResponse V);
}.
Arguments cfg_url {V} _.
Arguments cfg_fetch {V} _.

Module Config.

(** The part of [loadConfig] after the cache test. *)
Definition fetchConfig {V} (env : ConfigEnv V) : MG ConfigCall (option V) V :=
  (let url := cfg_url env in
   gemit (CLog "[config] fetching") ;;
   res <- gcall (CFetch url) (cfg_fetch env) ;;
   gemit (CLog "[config] status") ;;
   if negb (cr_ok res)
   then gthrow (Error ("Missing config.json at " +:+ url +:+ " (status "
                       +:+ pretty (cr_status res) +:+ ")"))
   else v <- gcall CJson (cr_json res) ;;
        gmodify (λ _, Some v) ;;
        gret v)%gjs.

Definition loadConfig {V} (truthy : V → bool) (env : ConfigEnv V)
    : MG ConfigCall (option V) V :=
  (cfg <- ggets (λ w : option V, w) ;;
   match cfg with
   | Some v =>
       if truthy v then gemit (CLog "[config] using cached cfg") ;; gret v
       else fetchConfig env
   | None => fetchConfig env
   end)%gjs.

End Config.

(** A value passes [if (cfg)]. *)
Definition cached {V} (truthy : V → bool) (w : option V) : bool :=
  match w with
  | Some v => truthy v
  | None => false
  end.

Definition is_config_fetch (c : ConfigCall) : bool :=
  match c with
  | CFetch _ => true
  | _ => false
  end.

(** ** [ensureFirebase]

    The handles are named by numbers; [F] is the type of [cfg.firebase], and
    [firebase_of v] is [None] when reading [cfg.firebase.projectId] of the
    loaded value raises a [TypeError]. *)

Inductive FirebaseCall (F : Type) :=
| FbConfig (c : ConfigCall)           (* a call issued by [loadConfig] *)
| FbLog (msg : string)                (* [console.log], its first argument *)
| FbInitializeApp (options : F)
| FbGetAuth (app : nat)
| FbSignInAnonymously (auth : nat)
| FbGetDatabase (app : nat)
| FbGetFirestore (app : nat).
Arguments FbConfig {F} c.
Arguments FbLog {F} msg.
Arguments FbInitializeApp {F} options.
Arguments FbGetAuth {F} app.
Arguments FbSignInAnonymously {F} auth.
Arguments FbGetDatabase {F} app.
Arguments FbGetFirestore {F} app.

Record FirebaseEnv (V : Type) := {
  fe_config : ConfigEnv V;
  fe_initializeApp : Outcome nat;
  fe_getAuth : Outcome nat;
  fe_signInAnonymously : Outcome unit;
  fe_getDatabase : Outcome nat;
  fe_getFirestore : Outcome nat;
}.
Arguments fe_config {V} _.
Arguments fe_initializeApp {V} _.
Arguments fe_getAuth {V} _.
Arguments fe_signInAnonymously {V} _.
Arguments fe_getDatabase {V} _.
Arguments fe_getFirestore {V} _.

Record Handles := { h_app : nat; h_auth : nat; h_db : nat; h_fs : nat }.

Module Firebase.

(** The module variables of [firebase.ts], with the cache of [config.ts]. *)
Record World (V : Type) := mkWorld {
  cfg : option V;
  app : option nat;
  auth : option nat;
  db : option nat;
  fs : option nat;
}.
Arguments mkWorld {V} _ _ _ _ _.
Arguments cfg {V} _.
Arguments app {V} _.
Arguments auth {V} _.
Arguments db {V} _.
Arguments fs {V} _.

Definition initial {V} : World V := mkWorld None None None None None.

(** [await loadConfig()] from another module: the run of [loadConfig] on
    the cache, its calls tagged. *)
Definition call_loadConfig {V F} (truthy : V → bool) (env : ConfigEnv V)
    : MG (FirebaseCall F) (World V) V :=
  λ w, match Config.loadConfig truthy env (cfg w) with
       | (r, c, t) => (r, mkWorld c (app w) (auth w) (db w) (fs w), FbConfig <$> t)
       end.

Definition ensureFirebase {V F} (truthy : V → bool) (firebase_of : V → option F)
    (env : FirebaseEnv V) : MG (FirebaseCall F) (World V) Handles :=
  (w <- ggets (λ w : World V, w) ;;
   match app w, auth w, db w, fs w with
   | Some a, Some au, Some d, Some f =>
       gret {| h_app := a; h_auth := au; h_db := d; h_fs := f |}
   | _, _, _, _ =>
       gemit (FbLog "[firebase] calling loadConfig()") ;;
       v <- call_loadConfig truthy (fe_config env) ;;
       match firebase_of v with
       | None => gthrow (Rejected "TypeError")
       | Some options =>
           gemit (FbLog "[firebase] got config (projectId=") ;;
           a <- gcall (FbInitializeApp options) (fe_initializeApp env) ;;
           gmodify (λ w, mkWorld (cfg w) (Some a) (auth w) (db w) (fs w)) ;;
           au <- gcall (FbGetAuth a) (fe_getAuth env) ;;
           gmodify (λ w, mkWorld (cfg w) (app w) (Some au) (db w) (fs w)) ;;
           gcall (FbSignInAnonymously au) (fe_signInAnonymously env) ;;
           d <- gcall (FbGetDatabase a) (fe_getDatabase env) ;;
           gmodify (λ w, mkWorld (cfg w) (app w) (auth w) (Some d) (fs w)) ;;
           f <- gcall (FbGetFirestore a) (fe_getFirestore env) ;;
           gmodify (λ w, mkWorld (cfg w) (app w) (auth w) (db w) (Some f)) ;;
           gret {| h_app := a; h_auth := au; h_db := d; h_fs := f |}
       end
   end)%gjs.

End Firebase.

(** All four handles are assigned. *)
Definition initialised {V} (w : Firebase.World V) : bool :=
  match Firebase.app w, Firebase.auth w, Firebase.db w, Firebase.fs w with
  | Some _, Some _, Some _, Some _ => true
  | _, _, _, _ => false
  end.

Module ConfigSample.

(** The parsed body: an object, or [null]. *)
Inductive Json := JNull | JObject (projectId : string).

Definition truthy (j : Json) : bool :=
  match j with
  | JNull => false
  | JObject _ => true
  end.

Definition firebase_of (j : Json) : option string :=
  match j with
  | JNull => None
  | JObject p => Some p
  end.

Definition served (j : Json) : ConfigEnv Json := {|
  cfg_url := "https://app.example/config.json";
  cfg_fetch := Returns {| cr_ok := true; cr_status := 200; cr_json := Returns j |};
|}.

Definition missing : ConfigEnv Json := {|
  cfg_url := "https://app.example/config.json";
  cfg_fetch := Returns {| cr_ok := false; cr_status := 404;
                          cr_json := Raises "json" |};
|}.

Definition firebase_up : FirebaseEnv Json := {|
  fe_config := served (JObject "rpg");
  fe_initializeApp := Returns 1;
  fe_getAuth := Returns 2;
  fe_signInAnonymously := Returns tt;
  fe_getDatabase := Returns 3;
  fe_getFirestore := Returns 4;
|}.

Definition sign_in_refused : FirebaseEnv Json := {|
  fe_config := served (JObject "rpg");
  fe_initializeApp := Returns 1;
  fe_getAuth := Returns 2;
  fe_signInAnonymously := Raises "auth/operation-not-allowed";
  fe_getDatabase := Returns 3;
  fe_getFirestore := Returns 4;
|}.

End ConfigSample.

(** * Room codes: [randomRoomCode] of [room_panel.tsx]

    A value of [Math.random()] is a double in [0, 1), that is [m * 2^-1074]
    for a natural number [m < 2^1074]; it is given by [m].  Multiplying by the
    32 of [alphabet.length] is exact, so [Math.floor(r * 32)] is
    [m / 2^1069]. *)

Module RoomCode.

Definition alphabet : string := "ABCDEFGHJKLMNPQRSTUVWXYZ23456789".

(** [alphabet[Math.floor(Math.random() * alphabet.length)]], as [join('')]
    renders it: [undefined] gives the empty string. *)
Definition pick (m : N) : string :=
  match String.get (N.to_nat (N.shiftr m 1069)) alphabet with
  | Some c => String c EmptyString
  | None => ""
  end.

(** [random i] is the value of the [i]-th call of [Math.random()]. *)
Definition randomRoomCode (len : nat) (random : nat → N) : string :=
  String.concat "" ((λ i, pick (random i)) <$> seq 0 len).

End RoomCode.

(** The characters the alphabet leaves out: 0, O, 1 and I. *)
Definition ambiguous : list ascii := ["0"; "O"; "1"; "I"]%char.

(** The collaborators of a join, with another answer to [room.startAudio()]. *)
Definition with_startAudio (o : Outcome unit) (env : JoinEnv) : JoinEnv := {|
  je_leave := je_leave env;
  je_loadConfig := je_loadConfig env;
  je_currentUser := je_currentUser env;
  je_signInAnonymously := je_signInAnonymously env;
  je_getIdToken := je_getIdToken env;
  je_fetch := je_fetch env;
  je_connect := je_connect env;
  je_startAudio := o;
  je_createLocalTracks := je_createLocalTracks env;
  je_publishTrack := je_publishTrack env;
  je_camera := je_camera env;
|}.

(** * Running the monad, one statement at a time *)

Section Steps.
Context {W A B : Type}.
Implicit Types (k : A → M W B) (w : W).

Lemma bind_ok (m : M W A) k w a w1 t1 :
  m w = (Ok a, w1, t1) → bind m k w = pre t1 (k a w1).
Proof. unfold bind, pre. intros ->. by destruct (k a w1) as [[??]?]. Qed.

Lemma bind_ret a k w : bind (ret a) k w = k a w.
Proof. unfold bind, ret. by destruct (k a w) as [[??]?]. Qed.

Lemma bind_throw e k w : bind (throw e) k w = (Throw e, w, []).
Proof. done. Qed.

Lemma bind_gets (f : W → A) k w : bind (gets f) k w = k (f w) w.
Proof. unfold bind, gets. by destruct (k (f w) w) as [[??]?]. Qed.

Lemma bind_throw_run (m : M W A) k w e w1 t1 :
  m w = (Throw e, w1, t1) → bind m k w = (Throw e, w1, t1).
Proof. unfold bind. by intros ->. Qed.

Lemma bind_call_Returns ef a k w :
  bind (call ef (Returns a)) k w = pre [ef] (k a w).
Proof. by apply bind_ok. Qed.

Lemma bind_call_Raises ef who k w :
  bind (call ef (Raises who)) k w = (Throw (Rejected who), w, [ef]).
Proof. done. Qed.

Lemma bind_assoc {C} (m : M W C) (f : C → M W A) k w :
  bind (bind m f) k w = bind m (λ c, bind (f c) k) w.
Proof.
  unfold bind. destruct (m w) as [[[c|e] w1] t1]; [|done].
  destruct (f c w1) as [[[a|e] w2] t2]; [|done].
  destruct (k a w2) as [[r w3] t3]. by rewrite app_assoc.
Qed.
End Steps.

Section UnitSteps.
Context {W B : Type}.
Implicit Types (k : unit → M W B) (w : W).

Lemma bind_modify (f : W → W) k w : bind (modify f) k w = k tt (f w).
Proof. unfold bind, modify. by destruct (k tt (f w)) as [[??]?]. Qed.

Lemma bind_emit ef k w : bind (emit ef) k w = pre [ef] (k tt w).
Proof. by apply bind_ok. Qed.

Lemma try_catch_run (m : M W unit) w r w1 t1 :
  m w = (r, w1, t1) → try_catch m w = (Ok tt, w1, t1).
Proof. unfold try_catch. intros ->. by destruct r. Qed.

Lemma bind_try_call ef (o : Outcome unit) k w :
  bind (try_catch (call ef o)) k w = pre [ef] (k tt w).
Proof. apply bind_ok. unfold try_catch, call. by destruct o. Qed.
End UnitSteps.

Lemma result_pre {W A} t (x : Res A * W * list Effect) :
  result (pre t x) = result x.
Proof. done. Qed.
Lemma world_pre {W A} t (x : Res A * W * list Effect) :
  world (pre t x) = world x.
Proof. done. Qed.
Lemma effects_pre {W A} t (x : Res A * W * list Effect) :
  effects (pre t x) = t ++ effects x.
Proof. done. Qed.
Lemma run_throw {W A} e (w : W) : @throw W A e w = (Throw e, w, []).
Proof. done. Qed.
Lemma run_ret {W A} (a : A) (w : W) : ret a w = (Ok a, w, []).
Proof. done. Qed.
Lemma pre_triple {W A} t (r : Res A) (w : W) t' :
  pre t (r, w, t') = (r, w, t ++ t').
Proof. done. Qed.

(** A loop whose body is one collaborator call leaves the module state alone
    and issues calls of that shape only. *)
Lemma for_of_call_run {W A} (e : A → Effect) (o : A → Outcome unit) (l : list A) (w : W) :
  ∃ r t, for_of l (λ a, call (e a) (o a)) w = (r, w, t)
         ∧ Forall (λ x, ∃ a, x = e a) t.
Proof.
  induction l as [|a l IH]; simpl.
  - by exists (Ok tt), [].
  - destruct (o a) as [[]|ex].
    + rewrite bind_call_Returns. destruct IH as (r & t & -> & Ht).
      exists r, ([e a] ++ t). split; [done|]. constructor; eauto.
    + rewrite bind_call_Raises. exists (Throw (Rejected ex)), [e a].
      split; [done|]. constructor; eauto.
Qed.

Ltac split_call :=
  match goal with
  | |- context [bind (call _ ?o) _ _] =>
      let E := fresh "Ecall" in destruct o eqn:E
  end.

Ltac step :=
  first
    [ rewrite bind_gets | rewrite bind_modify | rewrite bind_ret
    | rewrite bind_throw | rewrite bind_emit | rewrite bind_try_call
    | rewrite bind_call_Returns | rewrite bind_call_Raises
    | rewrite result_pre | rewrite world_pre | rewrite effects_pre
    | rewrite pre_triple ].

(** * Binding keys *)

Lemma prefix_empty (s : string) : String.prefix "" s = true.
Proof. by destruct s. Qed.

Lemma prefix_app_same (a b c : string) :
  String.prefix (a +:+ b) (a +:+ c) = String.prefix b c.
Proof.
  induction a as [|x a IH]; simpl; [done|].
  destruct (ascii_dec x x); [done|congruence].
Qed.

Lemma key_of_participant_own p t :
  key_of_participant p (binding_key p t) = true.
Proof.
  unfold key_of_participant, binding_key.
  rewrite prefix_app_same. simpl. apply prefix_empty.
Qed.

Local Arguments ascii_dec : simpl never.

Lemma key_of_participant_delim_free p q t :
  delim_free p = true → delim_free q = true →
  key_of_participant p (binding_key q t) = true → q = p.
Proof.
  unfold key_of_participant, binding_key.
  revert q. induction p as [|x p IH]; intros [|y q]; simpl.
  - done.
  - intros _ Hq. destruct (ascii_dec ":"%char y) as [<-|]; [|done].
    by rewrite Ascii.eqb_refl in Hq.
  - intros Hp _. destruct (ascii_dec x ":"%char) as [->|]; [|done].
    by rewrite Ascii.eqb_refl in Hp.
  - intros [_ Hp]%andb_prop [_ Hq]%andb_prop.
    destruct (ascii_dec x y) as [->|]; [|done].
    intros H. f_equal. by apply IH.
Qed.

(** * Detaching bindings *)

Lemma detach_keys_cons k ks (m : gmap string ElemId) pn :
  detach_keys (k :: ks) (m, pn)
  = detach_keys ks (delete k m, remove_from_parent m k pn).
Proof. done. Qed.

Lemma detach_keys_lookup ks (m : gmap string ElemId) pn k :
  (detach_keys ks (m, pn)).1 !! k = if decide (k ∈ ks) then None else m !! k.
Proof.
  revert m pn. induction ks as [|k0 ks IH]; intros m pn.
  - by rewrite decide_False by apply not_elem_of_nil.
  - rewrite detach_keys_cons, IH.
    destruct (decide (k ∈ ks)) as [Hin|Hin].
    + by rewrite decide_True by (by right).
    + destruct (decide (k = k0)) as [->|Hne].
      * rewrite decide_True by (by left). apply lookup_delete_eq.
      * rewrite decide_False by (rewrite elem_of_cons; tauto).
        by apply lookup_delete_ne.
Qed.

Lemma remove_from_parent_None (m : gmap string ElemId) k pn (el : ElemId) :
  pn !! el = None → remove_from_parent m k pn !! el = None.
Proof.
  unfold remove_from_parent. destruct (m !! k); [|done].
  intros H. rewrite lookup_delete. by case_decide.
Qed.

Lemma detach_keys_parent_None ks (m : gmap string ElemId) pn (el : ElemId) :
  pn !! el = None → (detach_keys ks (m, pn)).2 !! el = None.
Proof.
  revert m pn. induction ks as [|k0 ks IH]; intros m pn H; [done|].
  rewrite detach_keys_cons. by apply IH, remove_from_parent_None.
Qed.

(** The element of a detached key loses its parent. *)
Lemma detach_keys_detached ks (m : gmap string ElemId) pn k (el : ElemId) :
  k ∈ ks → m !! k = Some el → (detach_keys ks (m, pn)).2 !! el = None.
Proof.
  revert m pn. induction ks as [|k0 ks IH]; intros m pn Hin Hk.
  - by apply elem_of_nil in Hin.
  - rewrite detach_keys_cons. destruct (decide (k = k0)) as [->|Hne].
    + apply detach_keys_parent_None. unfold remove_from_parent.
      rewrite Hk. apply lookup_delete_eq.
    + apply IH.
      * apply elem_of_cons in Hin as [?|?]; [done|done].
      * by rewrite lookup_delete_ne.
Qed.

(** An element that belongs to no detached key keeps its parent. *)
Lemma detach_keys_kept ks (m : gmap string ElemId) pn (el : ElemId) :
  (∀ k, k ∈ ks → m !! k ≠ Some el) →
  (detach_keys ks (m, pn)).2 !! el = pn !! el.
Proof.
  revert m pn. induction ks as [|k0 ks IH]; intros m pn H; [done|].
  rewrite detach_keys_cons, IH.
  - unfold remove_from_parent. destruct (m !! k0) as [el0|] eqn:E; [|done].
    apply lookup_delete_ne. intros ->. by apply (H k0); [left|].
  - intros k Hk Hl. apply lookup_delete_Some in Hl as [_ Hl].
    by apply (H k); [right|].
Qed.

Lemma elem_of_keys_of_participant p (m : gmap string ElemId) k :
  k ∈ keys_of_participant p m ↔ key_of_participant p k = true ∧ is_Some (m !! k).
Proof.
  unfold keys_of_participant.
  rewrite list_elem_of_In, filter_In, <- list_elem_of_In, list_elem_of_fmap.
  split.
  - intros [[[k' el] [-> Hin%elem_of_map_to_list]] Hp]. eauto.
  - intros [Hp [el Hel]]. split; [|done]. exists (k, el).
    split; [done|]. by apply elem_of_map_to_list.
Qed.

(** What [detachAllRemote...For] leaves in a bookkeeping map. *)
Lemma detach_participant_lookup p (m : gmap string ElemId) pn k :
  (detach_keys (keys_of_participant p m) (m, pn)).1 !! k
  = if key_of_participant p k then None else m !! k.
Proof.
  rewrite detach_keys_lookup. case_decide as Hin.
  - apply elem_of_keys_of_participant in Hin as [-> _]. done.
  - destruct (key_of_participant p k) eqn:Hp; [|done].
    destruct (m !! k) as [el|] eqn:Hk; [|done].
    exfalso. apply Hin, elem_of_keys_of_participant. eauto.
Qed.

Lemma detach_participant_detached p (m : gmap string ElemId) pn k (el : ElemId) :
  key_of_participant p k = true → m !! k = Some el →
  (detach_keys (keys_of_participant p m) (m, pn)).2 !! el = None.
Proof.
  intros Hp Hk. apply (detach_keys_detached _ _ _ k); [|done].
  apply elem_of_keys_of_participant. eauto.
Qed.

Lemma detach_elements_list (l : list (string * ElemId)) pn (el : ElemId) :
  foldl (λ pn kv, delete kv.2 pn) pn l !! el
  = if decide (el ∈ l.*2) then None else (pn : gmap ElemId Container) !! el.
Proof.
  revert pn. induction l as [|[k0 el0] l IH]; intros pn.
  - by rewrite decide_False by apply not_elem_of_nil.
  - change (foldl (λ pn kv, delete kv.2 pn) (delete el0 pn) l !! el
            = if decide (el ∈ el0 :: l.*2) then None else pn !! el).
    rewrite IH. destruct (decide (el ∈ l.*2)) as [Hin|Hin].
    + by rewrite decide_True by (by right).
    + destruct (decide (el = el0)) as [->|Hne].
      * rewrite decide_True by (by left). apply lookup_delete_eq.
      * rewrite decide_False by (rewrite elem_of_cons; tauto).
        by apply lookup_delete_ne.
Qed.

(** After a bulk detach no recorded element has a parent. *)
Lemma detach_elements_detached (m : gmap string ElemId) pn k (el : ElemId) :
  m !! k = Some el → detach_elements m pn !! el = None.
Proof.
  intros Hk. unfold detach_elements. rewrite detach_elements_list.
  rewrite decide_True; [done|]. apply list_elem_of_fmap. exists (k, el).
  split; [done|]. by apply elem_of_map_to_list.
Qed.

Lemma detach_elements_None (m : gmap string ElemId) pn (el : ElemId) :
  pn !! el = None → detach_elements m pn !! el = None.
Proof.
  intros H. unfold detach_elements. rewrite detach_elements_list.
  by case_decide.
Qed.

(** * Teardown *)

Section AVLeave.
Import AV.

Lemma av_release_loop room env pubs (w : World) :
  ∃ r t,
    for_of pubs (λ pub,
      call (EUnpublishTrack room (pub_track pub))
        (le_unpublishTrack env (pub_track pub)) ;;
      match pub_track pub with
      | Some t => call (EStop t) (le_stop env t)
      | None => ret tt
      end) w = (r, w, t)
    ∧ Forall (λ e, releases_publication e = true) t.
Proof.
  induction pubs as [|[track] pubs IH]; simpl.
  - by exists (Ok tt), [].
  - rewrite bind_assoc.
    destruct (le_unpublishTrack env track) as [[]|ex].
    2:{ rewrite bind_call_Raises. eexists _, _. split; [done|]. by constructor. }
    rewrite bind_call_Returns. destruct IH as (r & t & IH & Ht).
    destruct track as [tr|].
    + destruct (le_stop env tr) as [[]|ex].
      * rewrite bind_call_Returns, IH. eexists _, _. split; [done|].
        by repeat constructor.
      * rewrite bind_call_Raises. eexists _, _. split; [done|].
        by repeat constructor.
    + rewrite bind_ret, IH. eexists _, _. split; [done|]. by constructor.
Qed.

Lemma av_release_run room env (w : World) :
  ∃ t,
    try_catch (
      pubs <- call (ETrackPublications room) (le_publications env) ;;
      for_of pubs (λ pub,
        call (EUnpublishTrack room (pub_track pub))
          (le_unpublishTrack env (pub_track pub)) ;;
        match pub_track pub with
        | Some t => call (EStop t) (le_stop env t)
        | None => ret tt
        end)) w = (Ok tt, w, ETrackPublications room :: t)
    ∧ Forall (λ e, releases_publication e = true) t.
Proof.
  unfold try_catch. destruct (le_publications env) as [pubs|ex].
  - rewrite bind_call_Returns.
    destruct (av_release_loop room env pubs w) as (r & t & -> & Ht).
    exists t. split; [|done]. by destruct r.
  - rewrite bind_call_Raises. by exists [].
Qed.

Lemma av_leave_idle env w :
  currentRoom w = None → leaveLiveKit env w = (Ok tt, w, []).
Proof. intros H. unfold leaveLiveKit. by rewrite bind_gets, H. Qed.

Lemma av_leave_run env w room :
  currentRoom w = Some room →
  ∃ t, leaveLiveKit env w
       = (Ok tt, av_idle w, ETrackPublications room :: t ++ [EDisconnect room])
     ∧ Forall (λ e, releases_publication e = true) t.
Proof.
  intros H. unfold leaveLiveKit. cbv zeta. rewrite bind_gets, H.
  destruct (av_release_run room env w) as (t & Hrel & Ht).
  exists t. split; [|done].
  rewrite (bind_ok _ _ _ _ _ _ Hrel).
  unfold detachAllRemoteAudio, detachAllRemoteVideo.
  rewrite !bind_modify, bind_try_call, bind_modify, bind_modify, bind_modify.
  by unfold modify, pre, result, world, effects.
Qed.

Lemma av_onDisconnected_run w : onDisconnected w = (Ok tt, av_idle w, []).
Proof.
  unfold onDisconnected, detachAllRemoteAudio, detachAllRemoteVideo.
  by rewrite !bind_modify.
Qed.

End AVLeave.

Section AOLeave.
Import AudioOnly.

Lemma ao_release_loop room env pubs (w : World) :
  ∃ t,
    for_of pubs (λ pub,
      try_catch (
        call (EUnpublishTrack room (pub_track pub))
          (le_unpublishTrack env (pub_track pub)) ;;
        match pub_track pub with
        | Some t => call (EStop t) (le_stop env t)
        | None => ret tt
        end)) w = (Ok tt, w, t)
    ∧ Forall (λ e, releases_publication e = true) t
    ∧ ∀ pub, pub ∈ pubs → EUnpublishTrack room (pub_track pub) ∈ t.
Proof.
  induction pubs as [|[track] pubs IH]; simpl.
  - exists []. split_and!; [done|done|]. by intros ? ?%elem_of_nil.
  - destruct IH as (t & IH & Ht & Hall).
    assert (∃ t0, try_catch (
        call (EUnpublishTrack room track) (le_unpublishTrack env track) ;;
        match track with
        | Some t => call (EStop t) (le_stop env t)
        | None => ret tt
        end) w = (Ok tt, w, EUnpublishTrack room track :: t0)
        ∧ Forall (λ e, releases_publication e = true) t0) as (t0 & Hbody & Ht0).
    { unfold try_catch.
      destruct (le_unpublishTrack env track) as [[]|ex].
      2:{ rewrite bind_call_Raises. by exists []. }
      rewrite bind_call_Returns. destruct track as [tr|].
      - unfold call. destruct (le_stop env tr) as [[]|?]; simpl;
          (eexists; split; [done|]; by repeat constructor).
      - by exists []. }
    rewrite (bind_ok _ _ _ _ _ _ Hbody), IH.
    eexists. split_and!; [done| |].
    + simpl. constructor; [done|]. by apply Forall_app.
    + intros pub [->|Hin]%elem_of_cons; simpl; [by left|].
      right. apply elem_of_app. right. by apply Hall.
Qed.

Lemma ao_leave_idle env w :
  currentRoom w = None → leaveLiveKit env w = (Ok tt, w, []).
Proof. intros H. unfold leaveLiveKit. by rewrite bind_gets, H. Qed.

Lemma ao_leave_run env w room :
  currentRoom w = Some room →
  ∃ t, leaveLiveKit env w
       = (Ok tt, ao_idle w, ETrackPublications room :: t ++ [EDisconnect room])
     ∧ Forall (λ e, releases_publication e = true) t
     ∧ ∀ pubs pub, le_publications env = Returns pubs → pub ∈ pubs →
         EUnpublishTrack room (pub_track pub) ∈ t.
Proof.
  intros H. unfold leaveLiveKit. cbv zeta. rewrite bind_gets, H.
  assert (∃ t, try_catch (
      pubs <- call (ETrackPublications room) (le_publications env) ;;
      for_of pubs (λ pub,
        try_catch (
          call (EUnpublishTrack room (pub_track pub))
            (le_unpublishTrack env (pub_track pub)) ;;
          match pub_track pub with
          | Some t => call (EStop t) (le_stop env t)
          | None => ret tt
          end))) w = (Ok tt, w, ETrackPublications room :: t)
      ∧ Forall (λ e, releases_publication e = true) t
      ∧ ∀ pubs pub, le_publications env = Returns pubs → pub ∈ pubs →
          EUnpublishTrack room (pub_track pub) ∈ t) as (t & Hrel & Ht & Hall).
  { destruct (le_publications env) as [pubs|ex].
    - destruct (ao_release_loop room env pubs w) as (t & Hloop & Ht & Hall).
      exists t. split_and!; [|done|].
      + eapply try_catch_run. by rewrite bind_call_Returns, Hloop.
      + intros ?? [= <-]. apply Hall.
    - exists []. split_and!; [|done|done].
      eapply try_catch_run. by rewrite bind_call_Raises. }
  exists t. split_and!; [|done|done].
  rewrite (bind_ok _ _ _ _ _ _ Hrel).
  unfold detachAllRemoteAudio.
  rewrite !bind_modify, bind_try_call, bind_modify.
  by unfold modify, pre, result, world, effects.
Qed.

Lemma ao_onDisconnected_run w : onDisconnected w = (Ok tt, ao_idle w, []).
Proof.
  unfold onDisconnected, detachAllRemoteAudio.
  by rewrite !bind_modify.
Qed.

End AOLeave.

(** * Joining *)

Local Arguments pretty : simpl never.

Lemma releases_quiet t :
  Forall (λ e, releases_publication e = true) t → Forall quiet t.
Proof. intros H. eapply Forall_impl; [done|]. by intros []. Qed.

Lemma fetch_count_app t1 t2 : fetch_count (t1 ++ t2) = fetch_count t1 + fetch_count t2.
Proof. unfold fetch_count. by rewrite List.filter_app, length_app. Qed.

Lemma fetch_count_quiet t : Forall quiet t → fetch_count t = 0.
Proof.
  unfold fetch_count. induction 1 as [|e t (_ & He & _) _ IH]; simpl; [done|].
  by rewrite He.
Qed.

Lemma av_startCamera_idle f env w :
  AV.currentRoom w = None →
  AV.startCamera f env w = (Throw (Error "Not connected"), w, []).
Proof. intros H. unfold AV.startCamera. by rewrite bind_gets, H. Qed.

Lemma av_bind_new_Room {B} (k : RoomId → M AV.World B) w :
  bind AV.new_Room k w
  = pre [ENewRoom (AV.nextRoom w)] (k (AV.nextRoom w) (world (AV.new_Room w))).
Proof. by apply bind_ok. Qed.

Lemma ao_bind_new_Room {B} (k : RoomId → M AudioOnly.World B) w :
  bind AudioOnly.new_Room k w
  = pre [ENewRoom (AudioOnly.nextRoom w)]
      (k (AudioOnly.nextRoom w) (world (AudioOnly.new_Room w))).
Proof. by apply bind_ok. Qed.

(** The leave step at the head of a join: it resolves, leaves no session
    handle and allocates nothing. *)
Lemma av_leave_step env w :
  ∃ tl,
    AV.leaveLiveKit env w = (Ok tt, world (AV.leaveLiveKit env w), tl)
    ∧ (match AV.currentRoom w with
       | Some _ => AV.leaveLiveKit env
       | None => ret tt
       end) w = (Ok tt, world (AV.leaveLiveKit env w), tl)
    ∧ AV.currentRoom (world (AV.leaveLiveKit env w)) = None
    ∧ AV.nextRoom (world (AV.leaveLiveKit env w)) = AV.nextRoom w
    ∧ Forall quiet tl.
Proof.
  destruct (AV.currentRoom w) as [r|] eqn:Hcur.
  - destruct (av_leave_run env w r Hcur) as (t & -> & Ht). eexists.
    split_and!; [done..|].
    constructor; [done|]. apply Forall_app. split; [by apply releases_quiet|].
    by repeat constructor.
  - rewrite (av_leave_idle env w Hcur). by exists [].
Qed.

Ltac use_outcome :=
  match goal with
  | H : ?o = Returns _ |- context [call _ ?o] => rewrite H
  | H : ?o = Raises _ |- context [call _ ?o] => rewrite H
  end.

Ltac split_loop :=
  match goal with
  | |- context [bind (for_of ?l (λ a, call (@?e a) (@?o a))) _ ?w] =>
      let r := fresh "r" in let t := fresh "tp" in
      let Hfor := fresh "Hfor" in let Ht := fresh "Htp" in
      destruct (for_of_call_run e o l w) as (r & t & Hfor & Ht);
      destruct r as [[]|?];
      [ rewrite (bind_ok _ _ _ _ _ _ Hfor)
      | rewrite (bind_throw_run _ _ _ _ _ _ Hfor) ]
  end.

Ltac join_step :=
  first
    [ step
    | rewrite av_bind_new_Room
    | rewrite ao_bind_new_Room
    | rewrite bind_assoc
    | use_outcome
    | split_call
    | split_loop
    | match goal with
      | H : ?o = _ |- context [bind (match ?o with Some _ => _ | None => _ end) _ _] =>
          rewrite H
      | |- context [bind (match ?o with Some _ => _ | None => _ end) _ _] =>
          destruct o eqn:?
      | H : resp_ok ?r = _ |- context [bind (if resp_ok ?r then _ else _) _ _] =>
          rewrite H
      | |- context [bind (if resp_ok ?r then _ else _) _ _] =>
          destruct (resp_ok r) eqn:?
      | H : token ?b = _ |- context [match token ?b with _ => _ end] =>
          rewrite H
      | |- context [match token ?b with _ => _ end] =>
          destruct (token b) as [[|??]|] eqn:?
      | H : ws_scheme ?h = _ |- context [if negb (ws_scheme ?h) then _ else _] =>
          rewrite H; cbn [negb]
      | |- context [if negb ?b then _ else _] =>
          destruct b eqn:?; cbn [negb]
      | |- context [bind (if bool_decide ?P then _ else _) _ _] =>
          destruct (bool_decide P) eqn:?
      | |- context [bind (AV.startCamera ?f ?e) _ ?w] =>
          rewrite (bind_throw_run _ _ _ _ _ _ (av_startCamera_idle f e w ltac:(done)))
      end ].

(** Enter [AV.joinLiveKit] past the room-identifier check and the leave step. *)
Tactic Notation "av_join_enter" constr(env) constr(w) ident(tl) ident(w0) ident(Hcur0) ident(Hnext0) ident(Htl) :=
  match goal with
  | |- context [AV.joinLiveKit ?a ?b ?c ?d ?e] =>
      let x := fresh "x" in let Hx := fresh "Hx" in
      remember (AV.joinLiveKit a b c d e) as x eqn:Hx; symmetry in Hx; revert Hx
  end;
  unfold AV.joinLiveKit; rewrite decide_False by done; rewrite bind_gets;
  let Hl := fresh "Hl" in let Hl' := fresh "Hl" in
  destruct (av_leave_step (je_leave env) w) as (tl & Hl' & Hl & Hcur0 & Hnext0 & Htl);
  rewrite (bind_ok _ _ _ _ _ _ Hl);
  try rewrite Hl';
  clear Hl Hl';
  generalize dependent (world (AV.leaveLiveKit (je_leave env) w)); intros w0 Hcur0 Hnext0.

(** At the end of a path: the run as an explicit triple. *)
Ltac flat :=
  intros <-; rewrite ?run_throw, ?run_ret; rewrite ?pre_triple;
  unfold result, world, effects; simpl.

Ltac find_elem :=
  repeat first [ by apply list_elem_of_here | apply list_elem_of_further ].

Lemma Forall_quiet_opens t :
  Forall quiet t → Forall (λ e, opens_transport e = false) t.
Proof. intros H. eapply Forall_impl; [done|]. by intros ? (? & _). Qed.

Lemma av_join_bad_host roomId mounts opts env w cfg :
  je_loadConfig env = Returns cfg → ws_scheme (livekit_host cfg) = false →
  let x := AV.joinLiveKit roomId mounts opts env w in
  (∀ r, result x ≠ Ok r)
  ∧ Forall (λ e, opens_transport e = false) (effects x)
  ∧ (result x = Throw (Error ("livekit.host must start with wss:// or ws://, got "
                               +:+ livekit_host cfg))
     → ∃ usr idt resp b tok,
         signed_in env usr ∧ je_getIdToken env = Returns idt
         ∧ je_fetch env = Returns resp ∧ resp_ok resp = true
         ∧ resp_json resp = Returns b ∧ token b = Some tok ∧ tok ≠ ""
         ∧ EFetch (livekit_tokenEndpoint cfg) roomId (uid usr) idt ∈ effects x
         ∧ ERespJson ∈ effects x).
Proof.
  intros Hcfg Hws x. subst x.
  destruct (decide (roomId = "")) as [->|Hne].
  { split_and!; [done|by constructor|done]. }
  av_join_enter env w tl w0 Hcur0 Hnext0 Htl.
  apply Forall_quiet_opens in Htl.
  repeat join_step; flat.
  all: split_and!; [done| |].
  all: try (apply Forall_app; split; [done|by repeat constructor]).
  all: try done.
  all: intros _; eexists _, _, _, _, _.
  all: split_and!;
    [first [left; eassumption | right; split; eassumption]
    |first [eassumption|reflexivity]|first [eassumption|reflexivity]
    |eassumption|eassumption|eassumption|done
    |apply elem_of_app; right; find_elem
    |apply elem_of_app; right; find_elem].
Qed.

Lemma existsb_connect_quiet t : Forall quiet t → existsb is_connect t = false.
Proof.
  induction 1 as [|e t (_ & _ & He) _ IH]; simpl; [done|]. by rewrite He.
Qed.

(** A join that rejects leaves no session handle and keeps the bindings the
    leave step left; the surface references are those the leave step left
    when no [connect] was issued, and the supplied mounts otherwise. *)
Lemma av_join_failure roomId mounts opts env w e :
  roomId ≠ "" →
  let x := AV.joinLiveKit roomId mounts opts env w in
  let w0 := world (AV.leaveLiveKit (je_leave env) w) in
  result x = Throw e →
  AV.currentRoom (world x) = None
  ∧ AV.audioEls (world x) = AV.audioEls w0
  ∧ AV.videoEls (world x) = AV.videoEls w0
  ∧ AV.parentNode (world x) = AV.parentNode w0
  ∧ (existsb is_connect (effects x) = false →
       AV.audioContainerEl (world x) = AV.audioContainerEl w0
       ∧ AV.remoteVideoContainerEl (world x) = AV.remoteVideoContainerEl w0
       ∧ AV.localVideoEl (world x) = AV.localVideoEl w0)
  ∧ (existsb is_connect (effects x) = true →
       AV.audioContainerEl (world x) = mounts ≫= AV.audioContainer
       ∧ AV.remoteVideoContainerEl (world x) = mounts ≫= AV.remoteVideoContainer
       ∧ AV.localVideoEl (world x) = mounts ≫= AV.localVideo).
Proof.
  intros Hne x w0. subst x w0.
  av_join_enter env w tl w0 Hcur0 Hnext0 Htl.
  apply existsb_connect_quiet in Htl.
  repeat join_step; flat.
  all: rewrite ?existsb_app, ?Htl; simpl.
  all: try done.
Qed.


(** A join that resolves holds the room it allocated; one that rejects holds
    none.  Its calls start with those of the leave step. *)
Lemma av_join_session roomId mounts opts env w :
  roomId ≠ "" →
  let x := AV.joinLiveKit roomId mounts opts env w in
  (∃ rest, effects x = effects (AV.leaveLiveKit (je_leave env) w) ++ rest
           ∧ (∀ r, result x = Ok r → ENewRoom r ∈ rest))
  ∧ (∀ r, result x = Ok r →
       AV.currentRoom (world x) = Some r ∧ r = AV.nextRoom w
       ∧ AV.nextRoom (world x) = S r)
  ∧ (∀ e, result x = Throw e →
       AV.currentRoom (world x) = None
       ∧ (AV.nextRoom w ≤ AV.nextRoom (world x))%nat).
Proof.
  intros Hne x. subst x.
  av_join_enter env w tl w0 Hcur0 Hnext0 Htl.
  repeat join_step; flat.
  all: rewrite <- ?Hnext0.
  all: split_and!; [eexists; split; [done|] | |]; try done.
  all: try (intros ? [=]; done).
  all: try (intros ? [=]; split; [done|lia]).
  all: intros ? [= <-]; try done; find_elem.
Qed.

Lemma filter_fetch_quiet t : Forall quiet t → List.filter is_fetch t = [].
Proof.
  induction 1 as [|e t (_ & He & _) _ IH]; simpl; [done|]. by rewrite He.
Qed.

Lemma publish_quiet r t :
  Forall (λ x, ∃ a, x = EPublishTrack r a) t → Forall quiet t.
Proof. intros H. eapply Forall_impl; [done|]. by intros ? [? ->]. Qed.

(** The credential part of a join, once the configuration, the identity and
    the bearer credential are available and the token endpoint answers. *)
Lemma av_join_credentials roomId mounts opts env w cfg usr idt resp :
  roomId ≠ "" →
  je_loadConfig env = Returns cfg → signed_in env usr →
  je_getIdToken env = Returns idt → je_fetch env = Returns resp →
  let x := AV.joinLiveKit roomId mounts opts env w in
  (resp_ok resp = false → ∀ body, resp_text resp = Returns body →
     result x = Throw (Error ("Token endpoint " +:+ pretty (resp_status resp)
                              +:+ ": " +:+ body)))
  ∧ (resp_ok resp = true → ∀ b, resp_json resp = Returns b →
     token b = None ∨ token b = Some "" →
     result x = Throw (Error "Token endpoint did not return { token }"))
  ∧ Forall (λ e, ∀ r h tok, e = EConnect r h tok →
              tok ≠ "" ∧ resp_ok resp = true
              ∧ ∃ b, resp_json resp = Returns b ∧ token b = Some tok)
      (effects x)
  ∧ fetch_count (effects x) = 1
  ∧ EFetch (livekit_tokenEndpoint cfg) roomId (uid usr) idt ∈ effects x
  ∧ (resp_ok resp = true → ∀ b tok, resp_json resp = Returns b →
     token b = Some tok → tok ≠ "" → ws_scheme (livekit_host cfg) = true →
     EConnect (AV.nextRoom w) (livekit_host cfg) tok ∈ effects x).
Proof.
  intros Hne Hcfg Husr Hidt Hresp x. subst x.
  av_join_enter env w tl w0 Hcur0 Hnext0 Htl.
  destruct Husr as [Hu|[Hu Hs]].
  all: repeat join_step; flat.
  all: try apply publish_quiet in Htp.
  all: rewrite ?Hnext0.
  all: split_and!.
  all: try (intros; simplify_eq; done).
  all: try (intros ?? ? [?|?]; simplify_eq; done).
  all: try (unfold fetch_count;
            rewrite ?List.filter_app, ?(filter_fetch_quiet tl) by done; simpl;
            rewrite ?List.filter_app, ?(filter_fetch_quiet tp) by done; done).
  all: try (apply elem_of_app; right; find_elem).
  all: try (intros; simplify_eq; apply elem_of_app; right; find_elem).
  all: repeat first
         [ apply Forall_nil_2 | apply Forall_cons; split | apply Forall_app; split ].
  all: try (intros ??? [=]; done).
  all: try (eapply Forall_impl; [eassumption|]; by intros ? (_ & _ & ?) ??? ->).
  all: intros ??? [= <- <- <-]; split_and!; [done|done|by eexists].
Qed.

(** ** The audio-only controller *)

Lemma ao_leave_step env w :
  ∃ tl,
    AudioOnly.leaveLiveKit env w
    = (Ok tt, world (AudioOnly.leaveLiveKit env w), tl)
    ∧ (match AudioOnly.currentRoom w with
       | Some _ => AudioOnly.leaveLiveKit env
       | None => ret tt
       end) w = (Ok tt, world (AudioOnly.leaveLiveKit env w), tl)
    ∧ AudioOnly.currentRoom (world (AudioOnly.leaveLiveKit env w)) = None
    ∧ AudioOnly.nextRoom (world (AudioOnly.leaveLiveKit env w))
      = AudioOnly.nextRoom w
    ∧ Forall quiet tl.
Proof.
  destruct (AudioOnly.currentRoom w) as [r|] eqn:Hcur.
  - destruct (ao_leave_run env w r Hcur) as (t & -> & Ht & _). eexists.
    split_and!; [done..|].
    constructor; [done|]. apply Forall_app. split; [by apply releases_quiet|].
    by repeat constructor.
  - rewrite (ao_leave_idle env w Hcur). by exists [].
Qed.

Tactic Notation "ao_join_enter" constr(env) constr(w) ident(tl) ident(w0) ident(Hcur0) ident(Hnext0) ident(Htl) :=
  match goal with
  | |- context [AudioOnly.joinLiveKit ?a ?b ?c ?d] =>
      let x := fresh "x" in let Hx := fresh "Hx" in
      remember (AudioOnly.joinLiveKit a b c d) as x eqn:Hx; symmetry in Hx; revert Hx
  end;
  unfold AudioOnly.joinLiveKit; rewrite decide_False by done; rewrite bind_gets;
  let Hl := fresh "Hl" in let Hl' := fresh "Hl" in
  destruct (ao_leave_step (je_leave env) w) as (tl & Hl' & Hl & Hcur0 & Hnext0 & Htl);
  rewrite (bind_ok _ _ _ _ _ _ Hl);
  try rewrite Hl';
  clear Hl Hl';
  generalize dependent (world (AudioOnly.leaveLiveKit (je_leave env) w));
  intros w0 Hcur0 Hnext0.

Lemma ao_join_bad_host roomId audioContainer env w cfg :
  je_loadConfig env = Returns cfg → ws_scheme (livekit_host cfg) = false →
  let x := AudioOnly.joinLiveKit roomId audioContainer env w in
  (∀ r, result x ≠ Ok r)
  ∧ Forall (λ e, opens_transport e = false) (effects x)
  ∧ (result x = Throw (Error ("livekit.host must start with wss:// or ws://, got "
                               +:+ livekit_host cfg))
     → ∃ usr idt resp b tok,
         signed_in env usr ∧ je_getIdToken env = Returns idt
         ∧ je_fetch env = Returns resp ∧ resp_ok resp = true
         ∧ resp_json resp = Returns b ∧ token b = Some tok ∧ tok ≠ ""
         ∧ EFetch (livekit_tokenEndpoint cfg) roomId (uid usr) idt ∈ effects x
         ∧ ERespJson ∈ effects x).
Proof.
  intros Hcfg Hws x. subst x.
  destruct (decide (roomId = "")) as [->|Hne].
  { split_and!; [done|by constructor|done]. }
  ao_join_enter env w tl w0 Hcur0 Hnext0 Htl.
  apply Forall_quiet_opens in Htl.
  repeat join_step; flat.
  all: split_and!; [done| |].
  all: try (apply Forall_app; split; [done|by repeat constructor]).
  all: try done.
  all: intros _; eexists _, _, _, _, _.
  all: split_and!;
    [first [left; eassumption | right; split; eassumption]
    |first [eassumption|reflexivity]|first [eassumption|reflexivity]
    |eassumption|eassumption|eassumption|done
    |apply elem_of_app; right; find_elem
    |apply elem_of_app; right; find_elem].
Qed.

Lemma ao_join_failure roomId audioContainer env w e :
  roomId ≠ "" →
  let x := AudioOnly.joinLiveKit roomId audioContainer env w in
  let w0 := world (AudioOnly.leaveLiveKit (je_leave env) w) in
  result x = Throw e →
  AudioOnly.currentRoom (world x) = None
  ∧ AudioOnly.audioEls (world x) = AudioOnly.audioEls w0
  ∧ AudioOnly.parentNode (world x) = AudioOnly.parentNode w0
  ∧ (existsb is_connect (effects x) = false →
       AudioOnly.audioContainerEl (world x) = AudioOnly.audioContainerEl w0)
  ∧ (existsb is_connect (effects x) = true →
       AudioOnly.audioContainerEl (world x) = audioContainer).
Proof.
  intros Hne x w0. subst x w0.
  ao_join_enter env w tl w0 Hcur0 Hnext0 Htl.
  apply existsb_connect_quiet in Htl.
  repeat join_step; flat.
  all: rewrite ?existsb_app, ?Htl; simpl.
  all: try done.
Qed.

Lemma ao_join_session roomId audioContainer env w :
  roomId ≠ "" →
  let x := AudioOnly.joinLiveKit roomId audioContainer env w in
  (∃ rest, effects x = effects (AudioOnly.leaveLiveKit (je_leave env) w) ++ rest
           ∧ (∀ r, result x = Ok r → ENewRoom r ∈ rest))
  ∧ (∀ r, result x = Ok r →
       AudioOnly.currentRoom (world x) = Some r ∧ r = AudioOnly.nextRoom w
       ∧ AudioOnly.nextRoom (world x) = S r)
  ∧ (∀ e, result x = Throw e →
       AudioOnly.currentRoom (world x) = None
       ∧ (AudioOnly.nextRoom w ≤ AudioOnly.nextRoom (world x))%nat).
Proof.
  intros Hne x. subst x.
  ao_join_enter env w tl w0 Hcur0 Hnext0 Htl.
  repeat join_step; flat.
  all: rewrite <- ?Hnext0.
  all: split_and!; [eexists; split; [done|] | |]; try done.
  all: try (intros ? [=]; done).
  all: try (intros ? [=]; split; [done|lia]).
  all: intros ? [= <-]; try done; find_elem.
Qed.

Lemma ao_join_credentials roomId audioContainer env w cfg usr idt resp :
  roomId ≠ "" →
  je_loadConfig env = Returns cfg → signed_in env usr →
  je_getIdToken env = Returns idt → je_fetch env = Returns resp →
  let x := AudioOnly.joinLiveKit roomId audioContainer env w in
  (resp_ok resp = false → ∀ body, resp_text resp = Returns body →
     result x = Throw (Error ("Token endpoint " +:+ pretty (resp_status resp)
                              +:+ ": " +:+ body)))
  ∧ (resp_ok resp = true → ∀ b, resp_json resp = Returns b →
     token b = None ∨ token b = Some "" →
     result x = Throw (Error "Token endpoint did not return { token }"))
  ∧ Forall (λ e, ∀ r h tok, e = EConnect r h tok →
              tok ≠ "" ∧ resp_ok resp = true
              ∧ ∃ b, resp_json resp = Returns b ∧ token b = Some tok)
      (effects x)
  ∧ fetch_count (effects x) = 1
  ∧ EFetch (livekit_tokenEndpoint cfg) roomId (uid usr) idt ∈ effects x
  ∧ (resp_ok resp = true → ∀ b tok, resp_json resp = Returns b →
     token b = Some tok → tok ≠ "" → ws_scheme (livekit_host cfg) = true →
     EConnect (AudioOnly.nextRoom w) (livekit_host cfg) tok ∈ effects x).
Proof.
  intros Hne Hcfg Husr Hidt Hresp x. subst x.
  ao_join_enter env w tl w0 Hcur0 Hnext0 Htl.
  destruct Husr as [Hu|[Hu Hs]].
  all: repeat join_step; flat.
  all: try apply publish_quiet in Htp.
  all: rewrite ?Hnext0.
  all: split_and!.
  all: try (intros; simplify_eq; done).
  all: try (intros ?? ? [?|?]; simplify_eq; done).
  all: try (unfold fetch_count;
            rewrite ?List.filter_app, ?(filter_fetch_quiet tl) by done; simpl;
            rewrite ?List.filter_app, ?(filter_fetch_quiet tp) by done; done).
  all: try (apply elem_of_app; right; find_elem).
  all: try (intros; simplify_eq; apply elem_of_app; right; find_elem).
  all: repeat first
         [ apply Forall_nil_2 | apply Forall_cons; split | apply Forall_app; split ].
  all: try (intros ??? [=]; done).
  all: try (eapply Forall_impl; [eassumption|]; by intros ? (_ & _ & ?) ??? ->).
  all: intros ??? [= <- <- <-]; split_and!; [done|done|by eexists].
Qed.

(** What a join has been given when it reaches [connect], and that it
    resolves only if [connect] does. *)
Lemma av_join_gate roomId mounts opts env w :
  roomId ≠ "" →
  let x := AV.joinLiveKit roomId mounts opts env w in
  (existsb is_connect (effects x) = true →
     ∃ cfg usr idt resp b tok,
       je_loadConfig env = Returns cfg ∧ signed_in env usr
       ∧ je_getIdToken env = Returns idt ∧ je_fetch env = Returns resp
       ∧ resp_ok resp = true ∧ resp_json resp = Returns b
       ∧ token b = Some tok ∧ tok ≠ "" ∧ ws_scheme (livekit_host cfg) = true)
  ∧ (∀ r, result x = Ok r →
       je_connect env = Returns tt ∧ existsb is_connect (effects x) = true)
  ∧ (∀ who, je_connect env = Raises who → existsb is_connect (effects x) = true →
       result x = Throw (Rejected who)).
Proof.
  intros Hne x. subst x.
  av_join_enter env w tl w0 Hcur0 Hnext0 Htl.
  apply existsb_connect_quiet in Htl.
  repeat join_step; flat.
  all: rewrite ?existsb_app, ?Htl; simpl.
  all: split_and!.
  all: try done.
  all: try (intros ? [=]; done).
  all: try (intros ? _; repeat match goal with u : unit |- _ => destruct u end;
            split; done).
  all: try (intros ? [=] ?; done).
  all: try (intros ? ? ?; done).
  all: try (intros _; eexists _, _, _, _, _, _;
    split_and!;
    [first [eassumption|reflexivity]
    |first [left; eassumption | right; split; eassumption]
    |first [eassumption|reflexivity]|first [eassumption|reflexivity]
    |eassumption|first [eassumption|reflexivity]|eassumption|done|eassumption]).
  all: by intros ? [= ->] _.
Qed.

Lemma ao_join_gate roomId audioContainer env w :
  roomId ≠ "" →
  let x := AudioOnly.joinLiveKit roomId audioContainer env w in
  (existsb is_connect (effects x) = true →
     ∃ cfg usr idt resp b tok,
       je_loadConfig env = Returns cfg ∧ signed_in env usr
       ∧ je_getIdToken env = Returns idt ∧ je_fetch env = Returns resp
       ∧ resp_ok resp = true ∧ resp_json resp = Returns b
       ∧ token b = Some tok ∧ tok ≠ "" ∧ ws_scheme (livekit_host cfg) = true)
  ∧ (∀ r, result x = Ok r →
       je_connect env = Returns tt ∧ existsb is_connect (effects x) = true)
  ∧ (∀ who, je_connect env = Raises who → existsb is_connect (effects x) = true →
       result x = Throw (Rejected who)).
Proof.
  intros Hne x. subst x.
  ao_join_enter env w tl w0 Hcur0 Hnext0 Htl.
  apply existsb_connect_quiet in Htl.
  repeat join_step; flat.
  all: rewrite ?existsb_app, ?Htl; simpl.
  all: split_and!.
  all: try done.
  all: try (intros ? [=]; done).
  all: try (intros ? _; repeat match goal with u : unit |- _ => destruct u end;
            split; done).
  all: try (intros ? [=] ?; done).
  all: try (intros ? ? ?; done).
  all: try (intros _; eexists _, _, _, _, _, _;
    split_and!;
    [first [eassumption|reflexivity]
    |first [left; eassumption | right; split; eassumption]
    |first [eassumption|reflexivity]|first [eassumption|reflexivity]
    |eassumption|first [eassumption|reflexivity]|eassumption|done|eassumption]).
  all: by intros ? [= ->] _.
Qed.

(** ** The connect probe *)

Lemma probe_bind_new_Room {B} (k : RoomId → M RoomId B) n :
  bind Probe.new_Room k n = pre [ENewRoom n] (k n (S n)).
Proof. by apply bind_ok. Qed.

Ltac probe_step :=
  first
    [ rewrite probe_bind_new_Room
    | match goal with
      | |- context [call _ (match ?o with Returns _ => _ | Raises _ => _ end)] =>
          destruct o eqn:?
      end
    | join_step ].

Lemma probe_credentials roomId env n cfg usr idt resp :
  roomId ≠ "" →
  je_loadConfig env = Returns cfg →
  livekit_host cfg ≠ "" → livekit_tokenEndpoint cfg ≠ "" →
  signed_in env usr →
  je_getIdToken env = Returns idt → je_fetch env = Returns resp →
  let x := Probe.fetchLiveKitToken roomId env n in
  (resp_ok resp = false → ∀ body, resp_text resp = Returns body →
     result x = Throw (Error ("Token endpoint " +:+ pretty (resp_status resp)
                              +:+ ": " +:+
                              (if decide (body = "") then resp_statusText resp
                               else body))))
  ∧ (resp_ok resp = true → ∀ b, resp_json resp = Returns b →
     token b = None ∨ token b = Some "" →
     result x = Throw (Error ("Token endpoint did not return { token }. Got: "
                              +:+ stringify b)))
  ∧ Forall (λ e, ∀ r h tok, e = EConnect r h tok →
              tok ≠ "" ∧ resp_ok resp = true
              ∧ ∃ b, resp_json resp = Returns b ∧ token b = Some tok)
      (effects x)
  ∧ fetch_count (effects x) = 1
  ∧ EFetch (livekit_tokenEndpoint cfg) roomId (uid usr) idt ∈ effects x
  ∧ (resp_ok resp = true → ∀ b tok, resp_json resp = Returns b →
     token b = Some tok → tok ≠ "" → ws_scheme (livekit_host cfg) = true →
     EConnect n (livekit_host cfg) tok ∈ effects x).
Proof.
  intros Hne Hcfg Hhost Hep Husr Hidt Hresp x. subst x.
  remember (Probe.fetchLiveKitToken roomId env n) as x eqn:Hx.
  symmetry in Hx. revert Hx.
  unfold Probe.fetchLiveKitToken, Probe.catch_default.
  rewrite decide_False by done. rewrite Hcfg, bind_call_Returns.
  rewrite !bool_decide_eq_false_2 by done. cbn [orb].
  destruct Husr as [Hu|[Hu Hs]].
  all: repeat probe_step; flat.
  all: split_and!.
  all: try (intros; simplify_eq; done).
  all: try (intros ?? ? [?|?]; simplify_eq; done).
  all: try find_elem.
  all: try (intros; simplify_eq; find_elem).
  all: repeat first
         [ apply Forall_nil_2 | apply Forall_cons; split | apply Forall_app; split ].
  all: try (intros ??? [=]; done).
  all: try (eapply Forall_impl; [eassumption|]; by intros ? [? ->] ??? [=]).
  all: try (intros ??? [= <- <- <-]; split_and!; [done|done|by eexists]).
  all: unfold fetch_count; simpl;
       rewrite ?List.filter_app, ?(filter_fetch_quiet tp)
         by (by eapply publish_quiet); done.
Qed.

(** * The binder *)

(** The detach helpers undo the attach helpers when handed the track's id. *)
Lemma av_detach_undoes_attach track p w c :
  AV.audioContainerEl w = Some c →
  let w1 := world (AV.attachRemoteAudio track p w) in
  AV.audioEls w1 !! binding_key p (track_sid track) = Some (AV.nextElem w)
  ∧ AV.audioEls (world (AV.detachRemoteAudio p (track_sid track) w1))
      !! binding_key p (track_sid track) = None
  ∧ AV.parentNode (world (AV.detachRemoteAudio p (track_sid track) w1))
      !! AV.nextElem w = None.
Proof.
  intros Hc. unfold AV.attachRemoteAudio, AV.detachRemoteAudio.
  rewrite bind_gets, Hc. unfold bind, AV.track_attach, modify, world. simpl.
  unfold remove_from_parent. rewrite !lookup_insert_eq, !lookup_delete_eq. done.
Qed.

(** Detaching a key that is in neither map changes nothing. *)
Lemma av_unsubscribe_unknown track p w :
  AV.audioEls w !! binding_key (identity p) (sid p) = None →
  AV.videoEls w !! binding_key (identity p) (sid p) = None →
  AV.onTrackUnsubscribed track p w = (Ok tt, w, []).
Proof.
  intros Ha Hv. unfold AV.onTrackUnsubscribed.
  destruct (kind track); [| |done].
  - unfold AV.detachRemoteAudio, modify, remove_from_parent.
    rewrite Ha, delete_id by done. by destruct w.
  - unfold AV.detachRemoteVideo, modify, remove_from_parent.
    rewrite Hv, delete_id by done. by destruct w.
Qed.

Lemma ao_unsubscribe_unknown track p w :
  AudioOnly.audioEls w !! binding_key (identity p) (sid p) = None →
  AudioOnly.onTrackUnsubscribed track p w = (Ok tt, w, []).
Proof.
  intros Ha. unfold AudioOnly.onTrackUnsubscribed, AudioOnly.detachRemoteAudio,
    modify, remove_from_parent.
  rewrite Ha, delete_id by done. by destruct w.
Qed.

(** ** Claims about the binder *)

(** C2 does not hold on the code: the track-subscribed listener files the
    binding under the track's session id, the track-unsubscribed listener
    deletes the key built from the participant's session id.  For participant
    alice (session id PA_alice) and the microphone track TR_mic, the binding
    alice:TR_mic and its element are still in place after the matching
    unsubscribe, in both controllers. *)
Theorem unsubscribe_misses_binding :
  AV.audioEls Sample.av_bound !! "alice:TR_mic" = Some 0
  ∧ AV.audioEls
      (world (AV.onTrackUnsubscribed Sample.alice_mic Sample.alice Sample.av_bound))
      !! "alice:TR_mic" = Some 0
  ∧ AV.parentNode
      (world (AV.onTrackUnsubscribed Sample.alice_mic Sample.alice Sample.av_bound))
      !! 0 = Some 100
  ∧ AudioOnly.audioEls Sample.ao_bound !! "alice:TR_mic" = Some 0
  ∧ AudioOnly.audioEls
      (world (AudioOnly.onTrackUnsubscribed Sample.alice_mic Sample.alice
                Sample.ao_bound))
      !! "alice:TR_mic" = Some 0
  ∧ AudioOnly.parentNode
      (world (AudioOnly.onTrackUnsubscribed Sample.alice_mic Sample.alice
                Sample.ao_bound))
      !! 0 = Some 100.
Proof. by vm_compute. Qed.

(** C6, as stated, fails: participant "a" disconnects and the binding of
    participant "a:b" goes with it, its element is detached. *)
Lemma disconnect_removes_other_participant :
  AV.audioEls Sample.av_two !! binding_key "a:b" "t2" = Some 1
  ∧ AV.audioEls (world (AV.onParticipantDisconnected Sample.a Sample.av_two))
      !! binding_key "a:b" "t2" = None
  ∧ AV.parentNode (world (AV.onParticipantDisconnected Sample.a Sample.av_two))
      !! 1 = None.
Proof. by vm_compute. Qed.

Lemma av_participant_disconnected_run p w :
  AV.onParticipantDisconnected p w
  = (Ok tt,
     world (AV.detachAllRemoteVideoFor (identity p)
              (world (AV.detachAllRemoteAudioFor (identity p) w))),
     []).
Proof.
  unfold AV.onParticipantDisconnected, AV.detachAllRemoteAudioFor. by rewrite bind_modify.
Qed.

(** C6 (amended): a participant-disconnected event for identity p removes
    exactly the bindings whose key starts with p followed by the delimiter
    [:], from both maps (audio-only: from the audio map), and detaches their
    elements; an element of no removed binding keeps its parent.  Every
    binding of p itself is
    removed.  The binding of another participant q is kept whenever neither
    identity contains the delimiter, as for "a" and "ab". *)
Theorem participant_disconnected_exact :
  (∀ p w,
     let w' := world (AV.onParticipantDisconnected p w) in
     (∀ k, AV.audioEls w' !! k
           = if key_of_participant (identity p) k then None else AV.audioEls w !! k)
     ∧ (∀ k, AV.videoEls w' !! k
             = if key_of_participant (identity p) k then None else AV.videoEls w !! k)
     ∧ (∀ k el, key_of_participant (identity p) k = true →
          AV.audioEls w !! k = Some el ∨ AV.videoEls w !! k = Some el →
          AV.parentNode w' !! el = None)
     ∧ (∀ el, (∀ k, key_of_participant (identity p) k = true →
                    AV.audioEls w !! k ≠ Some el ∧ AV.videoEls w !! k ≠ Some el) →
          AV.parentNode w' !! el = AV.parentNode w !! el)
     ∧ (∀ t, AV.audioEls w' !! binding_key (identity p) t = None
             ∧ AV.videoEls w' !! binding_key (identity p) t = None)
     ∧ (∀ q t, delim_free (identity p) = true → delim_free q = true →
          q ≠ identity p →
          AV.audioEls w' !! binding_key q t = AV.audioEls w !! binding_key q t
          ∧ AV.videoEls w' !! binding_key q t = AV.videoEls w !! binding_key q t))
  ∧ (∀ p w,
     let w' := world (AudioOnly.onParticipantDisconnected p w) in
     (∀ k, AudioOnly.audioEls w' !! k
           = if key_of_participant (identity p) k then None
             else AudioOnly.audioEls w !! k)
     ∧ (∀ k el, key_of_participant (identity p) k = true →
          AudioOnly.audioEls w !! k = Some el →
          AudioOnly.parentNode w' !! el = None)
     ∧ (∀ el, (∀ k, key_of_participant (identity p) k = true →
                    AudioOnly.audioEls w !! k ≠ Some el) →
          AudioOnly.parentNode w' !! el = AudioOnly.parentNode w !! el)
     ∧ (∀ t, AudioOnly.audioEls w' !! binding_key (identity p) t = None)
     ∧ (∀ q t, delim_free (identity p) = true → delim_free q = true →
          q ≠ identity p →
          AudioOnly.audioEls w' !! binding_key q t
          = AudioOnly.audioEls w !! binding_key q t))
  ∧ (∀ t, key_of_participant "a" (binding_key "ab" t) = false
          ∧ key_of_participant "ab" (binding_key "a" t) = false).
Proof.
  assert (Hother : ∀ p q t, delim_free p = true → delim_free q = true → q ≠ p →
            key_of_participant p (binding_key q t) = false).
  { intros p q t Hp Hq Hne.
    destruct (key_of_participant p (binding_key q t)) eqn:E; [|done].
    by apply key_of_participant_delim_free in E. }
  split_and!.
  - intros p w w'. subst w'. rewrite av_participant_disconnected_run.
    unfold AV.detachAllRemoteAudioFor, AV.detachAllRemoteVideoFor, modify, world.
    simpl.
    assert (Ha : ∀ k, (detach_keys (keys_of_participant (identity p) (AV.audioEls w))
                (AV.audioEls w, AV.parentNode w)).1 !! k
             = if key_of_participant (identity p) k then None else AV.audioEls w !! k)
      by (intros; apply detach_participant_lookup).
    assert (Hv : ∀ pn k, (detach_keys (keys_of_participant (identity p) (AV.videoEls w))
                (AV.videoEls w, pn)).1 !! k
             = if key_of_participant (identity p) k then None else AV.videoEls w !! k)
      by (intros; apply detach_participant_lookup).
    split_and!; [done|done| | | |].
    + intros k el Hk [Hel|Hel].
      * apply detach_keys_parent_None. by eapply detach_participant_detached.
      * by eapply detach_participant_detached.
    + intros el Hel. rewrite !detach_keys_kept; [done| |].
      * intros k [Hk _]%elem_of_keys_of_participant. by apply Hel.
      * intros k [Hk _]%elem_of_keys_of_participant. by apply Hel.
    + intros t. by rewrite Ha, Hv, key_of_participant_own.
    + intros q t Hp Hq Hne. by rewrite Ha, Hv, Hother.
  - intros p w w'. subst w'.
    unfold AudioOnly.onParticipantDisconnected, AudioOnly.detachAllRemoteAudioFor,
      modify, world. simpl.
    assert (Ha : ∀ k, (detach_keys
                (keys_of_participant (identity p) (AudioOnly.audioEls w))
                (AudioOnly.audioEls w, AudioOnly.parentNode w)).1 !! k
             = if key_of_participant (identity p) k then None
               else AudioOnly.audioEls w !! k)
      by (intros; apply detach_participant_lookup).
    split_and!; [done| | | |].
    + intros k el Hk Hel. by eapply detach_participant_detached.
    + intros el Hel. rewrite detach_keys_kept; [done|].
      intros k [Hk _]%elem_of_keys_of_participant. by apply Hel.
    + intros t. by rewrite Ha, key_of_participant_own.
    + intros q t Hp Hq Hne. by rewrite Ha, Hother.
  - intros t. split; apply Hother; done.
Qed.

Lemma participant_disconnected_exact_witness :
  AV.audioEls Sample.av_overlap !! binding_key "a" "t1" = Some 0
  ∧ AV.audioEls Sample.av_overlap !! binding_key "ab" "t2" = Some 1
  ∧ AV.audioEls (world (AV.onParticipantDisconnected Sample.a Sample.av_overlap))
      !! binding_key "a" "t1" = None
  ∧ AV.audioEls (world (AV.onParticipantDisconnected Sample.a Sample.av_overlap))
      !! binding_key "ab" "t2" = Some 1.
Proof.
  destruct participant_disconnected_exact as [H _].
  destruct (H Sample.a Sample.av_overlap) as (_ & _ & _ & _ & Hp & Hq).
  split_and!.
  - vm_compute; reflexivity.
  - vm_compute; reflexivity.
  - exact (proj1 (Hp "t1")).
  - etrans; [exact (proj1 (Hq "ab" "t2" eq_refl eq_refl ltac:(discriminate)))|].
    vm_compute; reflexivity.
Defined.

(** * Claims about teardown *)

(** C5, as stated, fails: a join connects and then loses the microphone, so
    no session handle is stored; the connected room reports a subscribed
    track, which is bound; [leaveLiveKit] finds no handle and returns at
    once, and the binding stays. *)
Lemma leave_keeps_orphan_binding :
  AV.currentRoom Sample.av_orphan = None
  ∧ AV.audioEls (world (AV.leaveLiveKit Sample.leave_ok Sample.av_orphan))
      !! "alice:TR_mic" = Some 0
  ∧ AudioOnly.currentRoom Sample.ao_orphan = None
  ∧ AudioOnly.audioEls
      (world (AudioOnly.leaveLiveKit Sample.leave_ok Sample.ao_orphan))
      !! "alice:TR_mic" = Some 0.
Proof. by vm_compute. Qed.

(** C5 (amended): [leaveLiveKit] never throws and leaves the session handle
    null.  Called when the handle is null (a never-joined controller, or a
    second call in a row) it changes nothing and calls no collaborator; called
    with a session it leaves both binding maps empty and every bound element
    detached.  Bindings recorded while no handle was stored are not touched. *)
Theorem leave_idempotent :
  (∀ env w,
     let x := AV.leaveLiveKit env w in
     result x = Ok tt
     ∧ AV.currentRoom (world x) = None
     ∧ (AV.currentRoom w = None → x = (Ok tt, w, []))
     ∧ (is_Some (AV.currentRoom w) →
          AV.audioEls (world x) = ∅ ∧ AV.videoEls (world x) = ∅
          ∧ ∀ k el, AV.audioEls w !! k = Some el ∨ AV.videoEls w !! k = Some el →
              AV.parentNode (world x) !! el = None)
     ∧ (∀ env', AV.leaveLiveKit env' (world x) = (Ok tt, world x, [])))
  ∧ (∀ env, AV.leaveLiveKit env AV.initial = (Ok tt, AV.initial, []))
  ∧ (∀ env w,
     let x := AudioOnly.leaveLiveKit env w in
     result x = Ok tt
     ∧ AudioOnly.currentRoom (world x) = None
     ∧ (AudioOnly.currentRoom w = None → x = (Ok tt, w, []))
     ∧ (is_Some (AudioOnly.currentRoom w) →
          AudioOnly.audioEls (world x) = ∅
          ∧ ∀ k el, AudioOnly.audioEls w !! k = Some el →
              AudioOnly.parentNode (world x) !! el = None)
     ∧ (∀ env', AudioOnly.leaveLiveKit env' (world x) = (Ok tt, world x, [])))
  ∧ (∀ env, AudioOnly.leaveLiveKit env AudioOnly.initial
            = (Ok tt, AudioOnly.initial, [])).
Proof.
  split_and!.
  - intros env w x. subst x.
    destruct (AV.currentRoom w) as [r|] eqn:Hcur.
    + destruct (av_leave_run env w r Hcur) as (t & -> & _).
      split_and!; [done|done|done| |by intros env'; apply av_leave_idle].
      intros _. split_and!; [done|done|].
      intros k el [Hel|Hel]; unfold world; simpl.
      * by eapply detach_elements_None, detach_elements_detached.
      * by eapply detach_elements_detached.
    + rewrite (av_leave_idle env w Hcur).
      split_and!; [done|done|done|by intros [? [=]]|].
      intros env'. by apply av_leave_idle.
  - intros env. by apply av_leave_idle.
  - intros env w x. subst x.
    destruct (AudioOnly.currentRoom w) as [r|] eqn:Hcur.
    + destruct (ao_leave_run env w r Hcur) as (t & -> & _).
      split_and!; [done|done|done| |by intros env'; apply ao_leave_idle].
      intros _. split; [done|].
      intros k el Hel; unfold world; simpl. by eapply detach_elements_detached.
    + rewrite (ao_leave_idle env w Hcur).
      split_and!; [done|done|done|by intros [? [=]]|].
      intros env'. by apply ao_leave_idle.
  - intros env. by apply ao_leave_idle.
Qed.

Lemma leave_idempotent_witness :
  AV.audioEls (world (AV.leaveLiveKit Sample.leave_ok Sample.av_bound)) = ∅
  ∧ AV.videoEls (world (AV.leaveLiveKit Sample.leave_ok Sample.av_bound)) = ∅.
Proof.
  destruct leave_idempotent as [H _].
  destruct (H Sample.leave_ok Sample.av_bound) as (_ & _ & _ & Hmaps & _).
  destruct Hmaps as (Ha & Hv & _); [exists 0; reflexivity|].
  exact (conj Ha Hv).
Defined.

(** C4, as stated, fails: on a joined session with a microphone and a camera
    publication the Disconnected listener calls no collaborator at all, while
    [leaveLiveKit] unpublishes and stops both tracks. *)
Lemma disconnected_releases_no_publication :
  effects (AV.onDisconnected Sample.av_joined) = []
  ∧ effects (AV.leaveLiveKit Sample.leave_ok Sample.av_joined)
    = [ETrackPublications 0; EUnpublishTrack 0 (Some 1); EStop 1;
       EUnpublishTrack 0 (Some 2); EStop 2; EDisconnect 0]
  ∧ effects (AudioOnly.onDisconnected Sample.ao_joined) = []
  ∧ effects (AudioOnly.leaveLiveKit Sample.leave_ok Sample.ao_joined)
    = [ETrackPublications 0; EUnpublishTrack 0 (Some 1); EStop 1;
       EUnpublishTrack 0 (Some 2); EStop 2; EDisconnect 0].
Proof. by vm_compute. Qed.

(** C4 (amended): the Disconnected listener detaches all remote-track
    bindings and clears the surface references and the session handle, so
    the controller is Idle in the very state [leaveLiveKit] would have left;
    it does not unpublish or stop local publications (it calls no
    collaborator). *)
Theorem disconnected_cleanup :
  (∀ env w,
     let x := AV.onDisconnected w in
     result x = Ok tt
     ∧ effects x = []
     ∧ (is_Some (AV.currentRoom w) → world x = world (AV.leaveLiveKit env w))
     ∧ AV.currentRoom (world x) = None
     ∧ AV.audioEls (world x) = ∅ ∧ AV.videoEls (world x) = ∅
     ∧ AV.audioContainerEl (world x) = None
     ∧ AV.remoteVideoContainerEl (world x) = None
     ∧ AV.localVideoEl (world x) = None
     ∧ (∀ k el, AV.audioEls w !! k = Some el ∨ AV.videoEls w !! k = Some el →
          AV.parentNode (world x) !! el = None))
  ∧ (∀ env w,
     let x := AudioOnly.onDisconnected w in
     result x = Ok tt
     ∧ effects x = []
     ∧ (is_Some (AudioOnly.currentRoom w) →
          world x = world (AudioOnly.leaveLiveKit env w))
     ∧ AudioOnly.currentRoom (world x) = None
     ∧ AudioOnly.audioEls (world x) = ∅
     ∧ AudioOnly.audioContainerEl (world x) = None
     ∧ (∀ k el, AudioOnly.audioEls w !! k = Some el →
          AudioOnly.parentNode (world x) !! el = None)).
Proof.
  split.
  - intros env w x. subst x. rewrite av_onDisconnected_run.
    split_and!; try done.
    + intros [r Hcur]. by destruct (av_leave_run env w r Hcur) as (t & -> & _).
    + intros k el [Hel|Hel]; unfold world; simpl.
      * by eapply detach_elements_None, detach_elements_detached.
      * by eapply detach_elements_detached.
  - intros env w x. subst x. rewrite ao_onDisconnected_run.
    split_and!; try done.
    + intros [r Hcur]. by destruct (ao_leave_run env w r Hcur) as (t & -> & _).
    + intros k el Hel; unfold world; simpl. by eapply detach_elements_detached.
Qed.

Lemma disconnected_cleanup_witness :
  world (AV.onDisconnected Sample.av_bound)
  = world (AV.leaveLiveKit Sample.leave_ok Sample.av_bound).
Proof.
  destruct disconnected_cleanup as [H _].
  destruct (H Sample.leave_ok Sample.av_bound) as (_ & _ & Hw & _).
  apply Hw. exists 0. reflexivity.
Defined.

(** C7 does not hold on the audio+video controller: take a session with a
    microphone publication (track 1) and a camera publication (track 2) where
    unpublishing track 1 throws.  The audio+video [leaveLiveKit] wraps the
    whole loop in one [try]: it never attempts track 2 and goes on to the
    disconnect.  The audio-only [leaveLiveKit], with a [try] per publication,
    unpublishes and stops track 2. *)
Theorem leave_abandons_remaining_publications :
  effects (AV.leaveLiveKit Sample.leave_mic_stuck Sample.av_joined)
  = [ETrackPublications 0; EUnpublishTrack 0 (Some 1); EDisconnect 0]
  ∧ effects (AudioOnly.leaveLiveKit Sample.leave_mic_stuck Sample.ao_joined)
    = [ETrackPublications 0; EUnpublishTrack 0 (Some 1);
       EUnpublishTrack 0 (Some 2); EStop 2; EDisconnect 0].
Proof. by vm_compute. Qed.

(** ** Joins in a row *)

Lemma av_join_step roomId mounts opts env w :
  roomId ≠ "" → av_allocated w →
  let x := AV.joinLiveKit roomId mounts opts env w in
  let l := AV.leaveLiveKit (je_leave env) w in
  av_allocated (world x)
  ∧ (∀ r, AV.currentRoom (world x) = Some r →
       result x = Ok r ∧ (AV.nextRoom w ≤ r)%nat ∧ AV.currentRoom w ≠ Some r)
  ∧ (∃ rest, effects x = effects l ++ rest
        ∧ ∀ r, AV.currentRoom (world x) = Some r → ENewRoom r ∈ rest)
  ∧ (∀ r0, AV.currentRoom w = Some r0 →
       world l = av_idle w
       ∧ ETrackPublications r0 ∈ effects l ∧ EDisconnect r0 ∈ effects l
       ∧ Forall (λ e, opens_transport e = false) (effects l)).
Proof.
  intros Hne Hw x l.
  destruct (av_join_session roomId mounts opts env w Hne)
    as ((rest & Heff & Hnew) & Hok & Hthrow).
  fold x in Heff, Hnew, Hok, Hthrow. fold l in Heff.
  assert (Hcur : ∀ r, AV.currentRoom (world x) = Some r →
            result x = Ok r ∧ r = AV.nextRoom w ∧ AV.nextRoom (world x) = S r).
  { intros r Hr. destruct (result x) as [r'|e] eqn:Hres.
    - destruct (Hok r' eq_refl) as (Hc & ? & ?). by simplify_eq.
    - destruct (Hthrow e eq_refl) as [Hc _]. congruence. }
  split_and!.
  - intros r Hr. destruct (Hcur r Hr) as (_ & _ & ->). lia.
  - intros r Hr. destruct (Hcur r Hr) as (? & -> & _). split_and!; [done|done|].
    intros Hc%Hw. lia.
  - exists rest. split; [done|]. intros r Hr. apply Hnew. by apply Hcur.
  - intros r0 Hr0. subst l.
    destruct (av_leave_run (je_leave env) w r0 Hr0) as (t & -> & Ht).
    unfold world, effects; simpl. split_and!; [done|by left| |].
    + right. apply elem_of_app. right. by left.
    + constructor; [done|]. apply Forall_app. split; [|by repeat constructor].
      eapply Forall_impl; [done|]. by intros [].
Qed.

Lemma ao_join_step roomId audioContainer env w :
  roomId ≠ "" → ao_allocated w →
  let x := AudioOnly.joinLiveKit roomId audioContainer env w in
  let l := AudioOnly.leaveLiveKit (je_leave env) w in
  ao_allocated (world x)
  ∧ (∀ r, AudioOnly.currentRoom (world x) = Some r →
       result x = Ok r ∧ (AudioOnly.nextRoom w ≤ r)%nat
       ∧ AudioOnly.currentRoom w ≠ Some r)
  ∧ (∃ rest, effects x = effects l ++ rest
        ∧ ∀ r, AudioOnly.currentRoom (world x) = Some r → ENewRoom r ∈ rest)
  ∧ (∀ r0, AudioOnly.currentRoom w = Some r0 →
       world l = ao_idle w
       ∧ ETrackPublications r0 ∈ effects l ∧ EDisconnect r0 ∈ effects l
       ∧ Forall (λ e, opens_transport e = false) (effects l)).
Proof.
  intros Hne Hw x l.
  destruct (ao_join_session roomId audioContainer env w Hne)
    as ((rest & Heff & Hnew) & Hok & Hthrow).
  fold x in Heff, Hnew, Hok, Hthrow. fold l in Heff.
  assert (Hcur : ∀ r, AudioOnly.currentRoom (world x) = Some r →
            result x = Ok r ∧ r = AudioOnly.nextRoom w
            ∧ AudioOnly.nextRoom (world x) = S r).
  { intros r Hr. destruct (result x) as [r'|e] eqn:Hres.
    - destruct (Hok r' eq_refl) as (Hc & ? & ?). by simplify_eq.
    - destruct (Hthrow e eq_refl) as [Hc _]. congruence. }
  split_and!.
  - intros r Hr. destruct (Hcur r Hr) as (_ & _ & ->). lia.
  - intros r Hr. destruct (Hcur r Hr) as (? & -> & _). split_and!; [done|done|].
    intros Hc%Hw. lia.
  - exists rest. split; [done|]. intros r Hr. apply Hnew. by apply Hcur.
  - intros r0 Hr0. subst l.
    destruct (ao_leave_run (je_leave env) w r0 Hr0) as (t & -> & Ht & _).
    unfold world, effects; simpl. split_and!; [done|by left| |].
    + right. apply elem_of_app. right. by left.
    + constructor; [done|]. apply Forall_app. split; [|by repeat constructor].
      eapply Forall_impl; [done|]. by intros [].
Qed.

(** * Open transports *)

Lemma open_rooms_app ok cl live t1 t2 :
  open_rooms ok cl live (t1 ++ t2) = open_rooms ok cl (open_rooms ok cl live t1) t2.
Proof. apply foldl_app. Qed.

Lemma peak_open_app ok cl live t1 t2 :
  peak_open ok cl live (t1 ++ t2)
  = Nat.max (peak_open ok cl live t1) (peak_open ok cl (open_rooms ok cl live t1) t2).
Proof.
  revert live. induction t1 as [|e t1 IH]; intros live; simpl.
  - destruct t2; simpl; lia.
  - rewrite IH. unfold open_rooms. simpl. lia.
Qed.

Lemma open_rooms_neutral ok cl live t :
  Forall (λ e, transport_neutral e = true) t →
  open_rooms ok cl live t = live ∧ peak_open ok cl live t = List.length live.
Proof.
  induction 1 as [|e t He _ [IH1 IH2]]; [done|].
  assert (transport_step ok cl live e = live) as Hs by (by destruct e).
  unfold open_rooms in *. simpl. rewrite Hs. split; [done|]. rewrite IH2. lia.
Qed.

Lemma release_neutral t :
  Forall (λ e, releases_publication e = true) t →
  Forall (λ e, transport_neutral e = true) t.
Proof. intros H. eapply Forall_impl; [done|]. by intros []. Qed.

Lemma publish_neutral r t :
  Forall (λ x, ∃ a, x = EPublishTrack r a) t →
  Forall (λ e, transport_neutral e = true) t.
Proof. intros H. eapply Forall_impl; [done|]. by intros ? [? ->]. Qed.

Lemma open_rooms_length_step ok cl live t :
  (peak_open ok cl live t ≤ 1 → List.length (open_rooms ok cl live t) ≤ 1)%nat.
Proof.
  revert live. induction t as [|e t IH]; intros live; simpl; [done|].
  intros H. apply IH. lia.
Qed.

(** The leave step closes the stored room, the only one open, when its
    [disconnect] succeeds. *)
Lemma av_leave_transport ok env w :
  let tl := effects (AV.leaveLiveKit env w) in
  open_rooms ok true (option_list (AV.currentRoom w)) tl = []
  ∧ (peak_open ok true (option_list (AV.currentRoom w)) tl ≤ 1)%nat.
Proof.
  destruct (AV.currentRoom w) as [r|] eqn:Hcur.
  - destruct (av_leave_run env w r Hcur) as (t & -> & Ht).
    apply release_neutral in Ht.
    destruct (open_rooms_neutral ok true [r] t Ht) as [H1 H2].
    unfold effects; simpl. split.
    + change (open_rooms ok true [r] (t ++ [EDisconnect r]) = []).
      rewrite open_rooms_app, H1. unfold open_rooms; simpl.
      by rewrite Nat.eqb_refl.
    + change (Nat.max 1 (peak_open ok true [r] (t ++ [EDisconnect r])) ≤ 1)%nat.
      rewrite peak_open_app, H1, H2. simpl. rewrite Nat.eqb_refl. simpl. lia.
  - rewrite (av_leave_idle env w Hcur). simpl. split; [done|lia].
Qed.

Lemma ao_leave_transport ok env w :
  let tl := effects (AudioOnly.leaveLiveKit env w) in
  open_rooms ok true (option_list (AudioOnly.currentRoom w)) tl = []
  ∧ (peak_open ok true (option_list (AudioOnly.currentRoom w)) tl ≤ 1)%nat.
Proof.
  destruct (AudioOnly.currentRoom w) as [r|] eqn:Hcur.
  - destruct (ao_leave_run env w r Hcur) as (t & -> & Ht & _).
    apply release_neutral in Ht.
    destruct (open_rooms_neutral ok true [r] t Ht) as [H1 H2].
    unfold effects; simpl. split.
    + change (open_rooms ok true [r] (t ++ [EDisconnect r]) = []).
      rewrite open_rooms_app, H1. unfold open_rooms; simpl.
      by rewrite Nat.eqb_refl.
    + change (Nat.max 1 (peak_open ok true [r] (t ++ [EDisconnect r])) ≤ 1)%nat.
      rewrite peak_open_app, H1, H2. simpl. rewrite Nat.eqb_refl. simpl. lia.
  - rewrite (ao_leave_idle env w Hcur). simpl. split; [done|lia].
Qed.

(** One join, started with no room open but the stored one: never two rooms
    open, and afterwards the open rooms are the stored one, unless the join
    rejected after connecting, which leaves the room it made open. *)
Lemma av_join_transport roomId mounts opts env w :
  roomId ≠ "" →
  disconnect_ok (je_leave env) = true →
  let x := AV.joinLiveKit roomId mounts opts env w in
  let ok := connect_ok env in
  let cl := disconnect_ok (je_leave env) in
  let live := option_list (AV.currentRoom w) in
  (peak_open ok cl live (effects x) ≤ 1)%nat
  ∧ ((open_rooms ok cl live (effects x) = option_list (AV.currentRoom (world x))
      ∧ ¬ rejects_connected env x)
     ∨ (open_rooms ok cl live (effects x) = [AV.nextRoom w]
        ∧ rejects_connected env x)).
Proof.
  intros Hne Hcl x ok cl live. subst x ok cl live. rewrite Hcl. clear Hcl.
  pose proof (λ ok, av_leave_transport ok (je_leave env) w) as Hl.
  revert Hl. cbv zeta. generalize (option_list (AV.currentRoom w)). intros live.
  unfold rejects_connected.
  av_join_enter env w tl w0 Hcur0 Hnext0 Htl.
  apply existsb_connect_quiet in Htl.
  repeat join_step; flat.
  all: intros Hl.
  all: unfold connect_ok.
  all: repeat match goal with H : je_connect _ = _ |- _ => rewrite H end.
  all: try apply publish_neutral in Htp.
  all: match goal with
       | Hl : ∀ ok : bool, _ |- context [peak_open ?ok _ _ _] =>
           destruct (Hl ok) as [Hl1 Hl2]
       end.
  all: rewrite ?existsb_app, ?Htl, ?peak_open_app, ?open_rooms_app, ?Hl1.
  all: repeat (simpl;
               rewrite ?peak_open_app, ?open_rooms_app;
               try rewrite (proj1 (open_rooms_neutral _ _ _ tp Htp));
               try rewrite (proj2 (open_rooms_neutral _ _ _ tp Htp))).
  all: rewrite ?Hcur0, ?Hnext0.
  all: split; [simpl; lia|].
  all: first
         [ left; split; [reflexivity|]; intros (He & Hok & Hc);
           first [discriminate Hok | discriminate Hc | by destruct He]
         | right; split; [reflexivity|]; split_and!; [by eexists|done|done] ].
Qed.

Lemma ao_join_transport roomId audioContainer env w :
  roomId ≠ "" →
  disconnect_ok (je_leave env) = true →
  let x := AudioOnly.joinLiveKit roomId audioContainer env w in
  let ok := connect_ok env in
  let cl := disconnect_ok (je_leave env) in
  let live := option_list (AudioOnly.currentRoom w) in
  (peak_open ok cl live (effects x) ≤ 1)%nat
  ∧ ((open_rooms ok cl live (effects x)
      = option_list (AudioOnly.currentRoom (world x))
      ∧ ¬ rejects_connected env x)
     ∨ (open_rooms ok cl live (effects x) = [AudioOnly.nextRoom w]
        ∧ rejects_connected env x)).
Proof.
  intros Hne Hcl x ok cl live. subst x ok cl live. rewrite Hcl. clear Hcl.
  pose proof (λ ok, ao_leave_transport ok (je_leave env) w) as Hl.
  revert Hl. cbv zeta. generalize (option_list (AudioOnly.currentRoom w)). intros live.
  unfold rejects_connected.
  ao_join_enter env w tl w0 Hcur0 Hnext0 Htl.
  apply existsb_connect_quiet in Htl.
  repeat join_step; flat.
  all: intros Hl.
  all: unfold connect_ok.
  all: repeat match goal with H : je_connect _ = _ |- _ => rewrite H end.
  all: try apply publish_neutral in Htp.
  all: match goal with
       | Hl : ∀ ok : bool, _ |- context [peak_open ?ok _ _ _] =>
           destruct (Hl ok) as [Hl1 Hl2]
       end.
  all: rewrite ?existsb_app, ?Htl, ?peak_open_app, ?open_rooms_app, ?Hl1.
  all: repeat (simpl;
               rewrite ?peak_open_app, ?open_rooms_app;
               try rewrite (proj1 (open_rooms_neutral _ _ _ tp Htp));
               try rewrite (proj2 (open_rooms_neutral _ _ _ tp Htp))).
  all: rewrite ?Hcur0, ?Hnext0.
  all: split; [simpl; lia|].
  all: first
         [ left; split; [reflexivity|]; intros (He & Hok & Hc);
           first [discriminate Hok | discriminate Hc | by destruct He]
         | right; split; [reflexivity|]; split_and!; [by eexists|done|done] ].
Qed.

(** Joins in a row, none but the last rejecting after its connect. *)
Lemma av_seq_transport calls w :
  Forall (λ c, avc_roomId c ≠ "" ∧ disconnect_ok (je_leave (avc_env c)) = true)
    calls →
  all_but_last (λ e, ¬ rejects_connected (avc_env e.1.1) e.2) (av_join_seq calls w) →
  let runs := av_runs (av_join_seq calls w) in
  let live := option_list (AV.currentRoom w) in
  (seq_peak live runs ≤ 1)%nat
  ∧ ∀ c wb x, last (av_join_seq calls w) = Some (c, wb, x) →
      seq_open live runs = option_list (AV.currentRoom (world x))
      ∨ (seq_open live runs = [AV.nextRoom wb] ∧ rejects_connected (avc_env c) x).
Proof.
  intros Hcalls. revert w.
  induction Hcalls as [|c calls [Hc Hcl] _ IH]; intros w Hall.
  { simpl. split; [destruct (AV.currentRoom w); simpl; lia|done]. }
  destruct (av_join_transport (avc_roomId c) (avc_mounts c) (avc_opts c) (avc_env c)
              w Hc Hcl) as [Hpeak Hopen].
  cbn [av_join_seq av_runs fmap list_fmap seq_peak seq_open fst snd] in *.
  fold (av_runs (av_join_seq calls
          (world (AV.joinLiveKit (avc_roomId c) (avc_mounts c) (avc_opts c)
                    (avc_env c) w)))).
  destruct calls as [|c2 calls].
  - simpl. split.
    + apply open_rooms_length_step in Hpeak as Hlen. lia.
    + intros c' wb x [= <- <- <-]. destruct Hopen as [[? _]|?]; [by left|by right].
  - destruct Hall as [Hno Hall]. destruct Hopen as [[Hopen _]|[_ ?]]; [|done].
    rewrite Hopen. destruct (IH _ Hall) as [IH1 IH2].
    split; [lia|]. intros c' wb x Hlast. by apply IH2.
Qed.

Lemma ao_seq_transport calls w :
  Forall (λ c, aoc_roomId c ≠ "" ∧ disconnect_ok (je_leave (aoc_env c)) = true)
    calls →
  all_but_last (λ e, ¬ rejects_connected (aoc_env e.1.1) e.2) (ao_join_seq calls w) →
  let runs := ao_runs (ao_join_seq calls w) in
  let live := option_list (AudioOnly.currentRoom w) in
  (seq_peak live runs ≤ 1)%nat
  ∧ ∀ c wb x, last (ao_join_seq calls w) = Some (c, wb, x) →
      seq_open live runs = option_list (AudioOnly.currentRoom (world x))
      ∨ (seq_open live runs = [AudioOnly.nextRoom wb]
         ∧ rejects_connected (aoc_env c) x).
Proof.
  intros Hcalls. revert w.
  induction Hcalls as [|c calls [Hc Hcl] _ IH]; intros w Hall.
  { simpl. split; [destruct (AudioOnly.currentRoom w); simpl; lia|done]. }
  destruct (ao_join_transport (aoc_roomId c) (aoc_audioContainer c) (aoc_env c)
              w Hc Hcl) as [Hpeak Hopen].
  cbn [ao_join_seq ao_runs fmap list_fmap seq_peak seq_open fst snd] in *.
  fold (ao_runs (ao_join_seq calls
          (world (AudioOnly.joinLiveKit (aoc_roomId c) (aoc_audioContainer c)
                    (aoc_env c) w)))).
  destruct calls as [|c2 calls].
  - simpl. split.
    + apply open_rooms_length_step in Hpeak as Hlen. lia.
    + intros c' wb x [= <- <- <-]. destruct Hopen as [[? _]|?]; [by left|by right].
  - destruct Hall as [Hno Hall]. destruct Hopen as [[Hopen _]|[_ ?]]; [|done].
    rewrite Hopen. destruct (IH _ Hall) as [IH1 IH2].
    split; [lia|]. intros c' wb x Hlast. by apply IH2.
Qed.




(** * Claims about joining *)

(** C10: [joinLiveKit] with an empty room identifier throws the
    roomId-is-required error before any side effect: no collaborator is called
    (no authentication, no request, no transport) and the module state is the
    one the call found. *)
Theorem join_empty_roomId_is_pure :
  (∀ mounts opts env w,
     AV.joinLiveKit "" mounts opts env w
     = (Throw (Error "roomId is required"), w, []))
  ∧ (∀ audioContainer env w,
     AudioOnly.joinLiveKit "" audioContainer env w
     = (Throw (Error "roomId is required"), w, [])).
Proof. split; reflexivity. Qed.

(** C3, as stated, fails: with the endpoint http://host the join is rejected
    with the invalid-endpoint error, but only after the token endpoint has been
    requested. *)
Lemma bad_host_is_checked_after_fetch :
  ws_scheme "http://host" = false
  ∧ AV.joinLiveKit "R1" (Some Sample.mounts) None Sample.join_bad_host AV.initial
    = (Throw (Error "livekit.host must start with wss:// or ws://, got http://host"),
       AV.initial,
       [ELoadConfig; EGetIdToken "u1";
        EFetch "https://fn/livekitToken" "R1" "u1" "idt"; ERespJson])
  ∧ AudioOnly.joinLiveKit "R1" (Some 100) Sample.join_bad_host AudioOnly.initial
    = (Throw (Error "livekit.host must start with wss:// or ws://, got http://host"),
       AudioOnly.initial,
       [ELoadConfig; EGetIdToken "u1";
        EFetch "https://fn/livekitToken" "R1" "u1" "idt"; ERespJson]).
Proof. by vm_compute. Qed.

(** C3 (amended): for every endpoint whose scheme is neither ws:// nor wss://
    (case-insensitive), [joinLiveKit] rejects before any transport is opened:
    no [Room] is constructed and none is connected.  The invalid-endpoint error
    is raised only after the credential fetch has been made and has returned a
    token: when the call rejects with that error, a user was signed in, the
    bearer credential was obtained, the token endpoint was requested for this
    room and user, its response had a success status and its body, which was
    read, carried a non-empty token. *)
Theorem bad_host_opens_no_transport :
  (∀ roomId mounts opts env w cfg,
     je_loadConfig env = Returns cfg → ws_scheme (livekit_host cfg) = false →
     let x := AV.joinLiveKit roomId mounts opts env w in
     (∀ r, result x ≠ Ok r)
     ∧ Forall (λ e, opens_transport e = false) (effects x)
     ∧ (result x = Throw (Error ("livekit.host must start with wss:// or ws://, got "
                                  +:+ livekit_host cfg))
        → ∃ usr idt resp b tok,
            signed_in env usr ∧ je_getIdToken env = Returns idt
            ∧ je_fetch env = Returns resp ∧ resp_ok resp = true
            ∧ resp_json resp = Returns b ∧ token b = Some tok ∧ tok ≠ ""
            ∧ EFetch (livekit_tokenEndpoint cfg) roomId (uid usr) idt ∈ effects x
            ∧ ERespJson ∈ effects x))
  ∧ (∀ roomId audioContainer env w cfg,
     je_loadConfig env = Returns cfg → ws_scheme (livekit_host cfg) = false →
     let x := AudioOnly.joinLiveKit roomId audioContainer env w in
     (∀ r, result x ≠ Ok r)
     ∧ Forall (λ e, opens_transport e = false) (effects x)
     ∧ (result x = Throw (Error ("livekit.host must start with wss:// or ws://, got "
                                  +:+ livekit_host cfg))
        → ∃ usr idt resp b tok,
            signed_in env usr ∧ je_getIdToken env = Returns idt
            ∧ je_fetch env = Returns resp ∧ resp_ok resp = true
            ∧ resp_json resp = Returns b ∧ token b = Some tok ∧ tok ≠ ""
            ∧ EFetch (livekit_tokenEndpoint cfg) roomId (uid usr) idt ∈ effects x
            ∧ ERespJson ∈ effects x)).
Proof.
  split; intros.
  - by apply av_join_bad_host.
  - by apply ao_join_bad_host.
Qed.

Lemma bad_host_opens_no_transport_witness :
  Forall (λ e, opens_transport e = false)
    (effects (AV.joinLiveKit "R1" (Some Sample.mounts) None Sample.join_bad_host
                Sample.av_joined))
  ∧ ERespJson ∈ effects (AV.joinLiveKit "R1" (Some Sample.mounts) None
                           Sample.join_bad_host Sample.av_joined).
Proof.
  destruct bad_host_opens_no_transport as [H _].
  destruct (H "R1" (Some Sample.mounts) None Sample.join_bad_host
              Sample.av_joined (Sample.config "http://host") eq_refl eq_refl)
    as (_ & Hno & Hfetch).
  split; [exact Hno|].
  destruct (Hfetch ltac:(vm_compute; reflexivity))
    as (? & ? & ? & ? & ? & _ & _ & _ & _ & _ & _ & _ & _ & Hjson).
  exact Hjson.
Defined.

(** C8, as stated, fails: the transport refuses the connection, the join
    rejects with no session handle, and the three surface references stay set
    to the mounts of the failed call. *)
Lemma connect_failure_keeps_mounts :
  let x := AV.joinLiveKit "R1" (Some Sample.mounts) None Sample.join_connect_fails
             AV.initial in
  result x = Throw (Rejected "connect")
  ∧ AV.currentRoom (world x) = None
  ∧ AV.audioContainerEl (world x) = Some 100
  ∧ AV.remoteVideoContainerEl (world x) = Some 101
  ∧ AV.localVideoEl (world x) = Some 102
  ∧ AudioOnly.audioContainerEl
      (world (AudioOnly.joinLiveKit "R1" (Some 100) Sample.join_connect_fails
                AudioOnly.initial)) = Some 100.
Proof. by vm_compute. Qed.

(** C8 (amended): past the room-identifier check, [joinLiveKit] rejects
    whenever endpoint validation, the credential fetch or the transport
    connect fails: on an endpoint of another scheme, on a token request that
    fails, answers a non-success status or carries no token, all before
    [connect] is called; and on a [connect] that throws, with the exception of
    [connect] once it has been called, which it is whenever the configuration,
    the identity, the bearer credential, a token and a ws:// or wss://
    endpoint are there.  A join that rejects returns no session handle and
    leaves the stored handle null, and the binding maps and the DOM are those
    its leave step left.  When it rejects before calling [connect] the surface
    references are those the leave step left; when it rejects at or after
    [connect] they hold the mounts passed to the call. *)
Theorem join_failure_state :
  (∀ roomId mounts opts env w,
     roomId ≠ "" →
     let x := AV.joinLiveKit roomId mounts opts env w in
     let w0 := world (AV.leaveLiveKit (je_leave env) w) in
     (∀ cfg, je_loadConfig env = Returns cfg → ws_scheme (livekit_host cfg) = false →
        (∃ e, result x = Throw e) ∧ existsb is_connect (effects x) = false)
     ∧ (∀ who, je_fetch env = Raises who →
          (∃ e, result x = Throw e) ∧ existsb is_connect (effects x) = false)
     ∧ (∀ resp, je_fetch env = Returns resp →
          resp_ok resp = false
          ∨ (∀ b, resp_json resp = Returns b → token b = None ∨ token b = Some "") →
          (∃ e, result x = Throw e) ∧ existsb is_connect (effects x) = false)
     ∧ (∀ who, je_connect env = Raises who →
          (∃ e, result x = Throw e)
          ∧ (existsb is_connect (effects x) = true →
             result x = Throw (Rejected who))
          ∧ (∀ cfg usr idt resp b tok,
               je_loadConfig env = Returns cfg → signed_in env usr →
               je_getIdToken env = Returns idt → je_fetch env = Returns resp →
               resp_ok resp = true → resp_json resp = Returns b →
               token b = Some tok → tok ≠ "" →
               ws_scheme (livekit_host cfg) = true →
               result x = Throw (Rejected who)))
     ∧ (∀ e, result x = Throw e →
          AV.currentRoom (world x) = None
          ∧ AV.audioEls (world x) = AV.audioEls w0
          ∧ AV.videoEls (world x) = AV.videoEls w0
          ∧ AV.parentNode (world x) = AV.parentNode w0
          ∧ (existsb is_connect (effects x) = false →
               AV.audioContainerEl (world x) = AV.audioContainerEl w0
               ∧ AV.remoteVideoContainerEl (world x) = AV.remoteVideoContainerEl w0
               ∧ AV.localVideoEl (world x) = AV.localVideoEl w0)
          ∧ (existsb is_connect (effects x) = true →
               AV.audioContainerEl (world x) = mounts ≫= AV.audioContainer
               ∧ AV.remoteVideoContainerEl (world x) = mounts ≫= AV.remoteVideoContainer
               ∧ AV.localVideoEl (world x) = mounts ≫= AV.localVideo)))
  ∧ (∀ roomId audioContainer env w,
     roomId ≠ "" →
     let x := AudioOnly.joinLiveKit roomId audioContainer env w in
     let w0 := world (AudioOnly.leaveLiveKit (je_leave env) w) in
     (∀ cfg, je_loadConfig env = Returns cfg → ws_scheme (livekit_host cfg) = false →
        (∃ e, result x = Throw e) ∧ existsb is_connect (effects x) = false)
     ∧ (∀ who, je_fetch env = Raises who →
          (∃ e, result x = Throw e) ∧ existsb is_connect (effects x) = false)
     ∧ (∀ resp, je_fetch env = Returns resp →
          resp_ok resp = false
          ∨ (∀ b, resp_json resp = Returns b → token b = None ∨ token b = Some "") →
          (∃ e, result x = Throw e) ∧ existsb is_connect (effects x) = false)
     ∧ (∀ who, je_connect env = Raises who →
          (∃ e, result x = Throw e)
          ∧ (existsb is_connect (effects x) = true →
             result x = Throw (Rejected who))
          ∧ (∀ cfg usr idt resp b tok,
               je_loadConfig env = Returns cfg → signed_in env usr →
               je_getIdToken env = Returns idt → je_fetch env = Returns resp →
               resp_ok resp = true → resp_json resp = Returns b →
               token b = Some tok → tok ≠ "" →
               ws_scheme (livekit_host cfg) = true →
               result x = Throw (Rejected who)))
     ∧ (∀ e, result x = Throw e →
          AudioOnly.currentRoom (world x) = None
          ∧ AudioOnly.audioEls (world x) = AudioOnly.audioEls w0
          ∧ AudioOnly.parentNode (world x) = AudioOnly.parentNode w0
          ∧ (existsb is_connect (effects x) = false →
               AudioOnly.audioContainerEl (world x) = AudioOnly.audioContainerEl w0)
          ∧ (existsb is_connect (effects x) = true →
               AudioOnly.audioContainerEl (world x) = audioContainer))).
Proof.
  assert (Hrej : ∀ {W} (x : Res RoomId * W * list Effect),
            (existsb is_connect (effects x) = true → False) →
            (∀ r, result x = Ok r → existsb is_connect (effects x) = true) →
            (∃ e, result x = Throw e) ∧ existsb is_connect (effects x) = false).
  { intros W x Hno Hok. split.
    - destruct (result x) as [r|e] eqn:Hres; [|by eexists].
      destruct Hno. by eapply Hok.
    - destruct (existsb is_connect (effects x)); [by destruct Hno|done]. }
  split.
  - intros roomId mounts opts env w Hne x w0.
    destruct (av_join_gate roomId mounts opts env w Hne) as (Hpre & Hok & Hconn).
    fold x in Hpre, Hok, Hconn.
    split_and!.
    + intros cfg Hcfg Hws. apply Hrej; [|by intros r [_ ?]%Hok].
      intros (? & ? & ? & ? & ? & ? & ? & _ & _ & _ & _ & _ & _ & _ & ?)%Hpre.
      congruence.
    + intros who Hf. apply Hrej; [|by intros r [_ ?]%Hok].
      intros (? & ? & ? & ? & ? & ? & _ & _ & _ & ? & _)%Hpre. congruence.
    + intros resp Hf Hbad. apply Hrej; [|by intros r [_ ?]%Hok].
      intros (? & ? & ? & resp' & b & tok & _ & _ & _ & Hf' & Hok' & Hj & Ht & Hne' & _)%Hpre.
      assert (resp' = resp) as -> by congruence.
      destruct Hbad as [Hbad|Hbad]; [congruence|].
      destruct (Hbad b Hj) as [Hn|Hn]; congruence.
    + intros who Hc. split_and!; [|by apply Hconn|].
      * destruct (result x) as [r|e] eqn:Hres; [|by eexists].
        destruct (Hok r eq_refl). congruence.
      * intros cfg usr idt resp b tok Hcfg Hu Hidt Hf Hrok Hj Ht Htok Hws.
        apply Hconn; [done|]. apply existsb_exists.
        exists (EConnect (AV.nextRoom w) (livekit_host cfg) tok).
        split; [|done]. apply list_elem_of_In.
        by eapply (av_join_credentials roomId mounts opts env w cfg usr idt resp).
    + intros e He. by eapply av_join_failure.
  - intros roomId audioContainer env w Hne x w0.
    destruct (ao_join_gate roomId audioContainer env w Hne) as (Hpre & Hok & Hconn).
    fold x in Hpre, Hok, Hconn.
    split_and!.
    + intros cfg Hcfg Hws. apply Hrej; [|by intros r [_ ?]%Hok].
      intros (? & ? & ? & ? & ? & ? & ? & _ & _ & _ & _ & _ & _ & _ & ?)%Hpre.
      congruence.
    + intros who Hf. apply Hrej; [|by intros r [_ ?]%Hok].
      intros (? & ? & ? & ? & ? & ? & _ & _ & _ & ? & _)%Hpre. congruence.
    + intros resp Hf Hbad. apply Hrej; [|by intros r [_ ?]%Hok].
      intros (? & ? & ? & resp' & b & tok & _ & _ & _ & Hf' & Hok' & Hj & Ht & Hne' & _)%Hpre.
      assert (resp' = resp) as -> by congruence.
      destruct Hbad as [Hbad|Hbad]; [congruence|].
      destruct (Hbad b Hj) as [Hn|Hn]; congruence.
    + intros who Hc. split_and!; [|by apply Hconn|].
      * destruct (result x) as [r|e] eqn:Hres; [|by eexists].
        destruct (Hok r eq_refl). congruence.
      * intros cfg usr idt resp b tok Hcfg Hu Hidt Hf Hrok Hj Ht Htok Hws.
        apply Hconn; [done|]. apply existsb_exists.
        exists (EConnect (AudioOnly.nextRoom w) (livekit_host cfg) tok).
        split; [|done]. apply list_elem_of_In.
        by eapply (ao_join_credentials roomId audioContainer env w cfg usr idt resp).
    + intros e He. by eapply ao_join_failure.
Qed.

Lemma join_failure_state_witness :
  result (AV.joinLiveKit "R2" (Some Sample.mounts) None Sample.join_connect_fails
            Sample.av_bound) = Throw (Rejected "connect")
  ∧ AV.currentRoom
      (world (AV.joinLiveKit "R2" (Some Sample.mounts) None Sample.join_connect_fails
                Sample.av_bound)) = None
  ∧ AV.audioEls
      (world (AV.joinLiveKit "R2" (Some Sample.mounts) None Sample.join_connect_fails
                Sample.av_bound))
    = AV.audioEls (world (AV.leaveLiveKit Sample.leave_ok Sample.av_bound)).
Proof.
  destruct join_failure_state as [H _].
  destruct (H "R2" (Some Sample.mounts) None Sample.join_connect_fails Sample.av_bound
              ltac:(discriminate)) as (_ & _ & _ & Hconn & Hstate).
  destruct (Hconn "connect" eq_refl) as (_ & Hres & _).
  specialize (Hres ltac:(vm_compute; reflexivity)).
  destruct (Hstate _ Hres) as (H1 & H2 & _).
  exact (conj Hres (conj H1 H2)).
Defined.

(** C9: the credential fetch of [joinLiveKit] (both controllers) and of the
    connect probe.  Once the configuration, the identity and the bearer
    credential are there, the token endpoint is requested for the room and the
    user, and once it has answered:
    a non-success status rejects with the token-endpoint error carrying the
    status and the body (the probe puts the status text in place of an empty
    body); a success whose body has no token field, or an empty one, rejects
    with the did-not-return-token error; a success whose body has a non-empty
    token has that very token handed to [connect], on the room the call
    constructs, when the endpoint is a ws:// or wss:// one; whatever token is
    handed to [connect] is non-empty and is the token field of a success
    response; and the token endpoint is requested exactly once, so no failure
    is retried. *)
Theorem credential_fetch_contract :
  (∀ roomId mounts opts env w cfg usr idt resp,
     roomId ≠ "" →
     je_loadConfig env = Returns cfg → signed_in env usr →
     je_getIdToken env = Returns idt → je_fetch env = Returns resp →
     let x := AV.joinLiveKit roomId mounts opts env w in
     EFetch (livekit_tokenEndpoint cfg) roomId (uid usr) idt ∈ effects x
     ∧ (resp_ok resp = false → ∀ body, resp_text resp = Returns body →
        result x = Throw (Error ("Token endpoint " +:+ pretty (resp_status resp)
                                 +:+ ": " +:+ body)))
     ∧ (resp_ok resp = true → ∀ b, resp_json resp = Returns b →
        token b = None ∨ token b = Some "" →
        result x = Throw (Error "Token endpoint did not return { token }"))
     ∧ (resp_ok resp = true → ∀ b tok, resp_json resp = Returns b →
        token b = Some tok → tok ≠ "" → ws_scheme (livekit_host cfg) = true →
        EConnect (AV.nextRoom w) (livekit_host cfg) tok ∈ effects x)
     ∧ (∀ r h tok, EConnect r h tok ∈ effects x →
        tok ≠ "" ∧ resp_ok resp = true
        ∧ ∃ b, resp_json resp = Returns b ∧ token b = Some tok)
     ∧ fetch_count (effects x) = 1)
  ∧ (∀ roomId audioContainer env w cfg usr idt resp,
     roomId ≠ "" →
     je_loadConfig env = Returns cfg → signed_in env usr →
     je_getIdToken env = Returns idt → je_fetch env = Returns resp →
     let x := AudioOnly.joinLiveKit roomId audioContainer env w in
     EFetch (livekit_tokenEndpoint cfg) roomId (uid usr) idt ∈ effects x
     ∧ (resp_ok resp = false → ∀ body, resp_text resp = Returns body →
        result x = Throw (Error ("Token endpoint " +:+ pretty (resp_status resp)
                                 +:+ ": " +:+ body)))
     ∧ (resp_ok resp = true → ∀ b, resp_json resp = Returns b →
        token b = None ∨ token b = Some "" →
        result x = Throw (Error "Token endpoint did not return { token }"))
     ∧ (resp_ok resp = true → ∀ b tok, resp_json resp = Returns b →
        token b = Some tok → tok ≠ "" → ws_scheme (livekit_host cfg) = true →
        EConnect (AudioOnly.nextRoom w) (livekit_host cfg) tok ∈ effects x)
     ∧ (∀ r h tok, EConnect r h tok ∈ effects x →
        tok ≠ "" ∧ resp_ok resp = true
        ∧ ∃ b, resp_json resp = Returns b ∧ token b = Some tok)
     ∧ fetch_count (effects x) = 1)
  ∧ (∀ roomId env n cfg usr idt resp,
     roomId ≠ "" →
     je_loadConfig env = Returns cfg →
     livekit_host cfg ≠ "" → livekit_tokenEndpoint cfg ≠ "" →
     signed_in env usr →
     je_getIdToken env = Returns idt → je_fetch env = Returns resp →
     let x := Probe.fetchLiveKitToken roomId env n in
     EFetch (livekit_tokenEndpoint cfg) roomId (uid usr) idt ∈ effects x
     ∧ (resp_ok resp = false → ∀ body, resp_text resp = Returns body →
        result x = Throw (Error ("Token endpoint " +:+ pretty (resp_status resp)
                                 +:+ ": " +:+
                                 (if decide (body = "") then resp_statusText resp
                                  else body))))
     ∧ (resp_ok resp = true → ∀ b, resp_json resp = Returns b →
        token b = None ∨ token b = Some "" →
        result x = Throw (Error ("Token endpoint did not return { token }. Got: "
                                 +:+ stringify b)))
     ∧ (resp_ok resp = true → ∀ b tok, resp_json resp = Returns b →
        token b = Some tok → tok ≠ "" → ws_scheme (livekit_host cfg) = true →
        EConnect n (livekit_host cfg) tok ∈ effects x)
     ∧ (∀ r h tok, EConnect r h tok ∈ effects x →
        tok ≠ "" ∧ resp_ok resp = true
        ∧ ∃ b, resp_json resp = Returns b ∧ token b = Some tok)
     ∧ fetch_count (effects x) = 1).
Proof.
  split_and!.
  - intros roomId mounts opts env w cfg usr idt resp Hne Hcfg Hu Hidt Hresp x.
    destruct (av_join_credentials roomId mounts opts env w cfg usr idt resp
                Hne Hcfg Hu Hidt Hresp) as (H1 & H2 & H3 & H4 & H5 & H6).
    split_and!; [done|done|done|done| |done].
    intros r h tok Hin. rewrite Forall_forall in H3. by eapply H3.
  - intros roomId c env w cfg usr idt resp Hne Hcfg Hu Hidt Hresp x.
    destruct (ao_join_credentials roomId c env w cfg usr idt resp
                Hne Hcfg Hu Hidt Hresp) as (H1 & H2 & H3 & H4 & H5 & H6).
    split_and!; [done|done|done|done| |done].
    intros r h tok Hin. rewrite Forall_forall in H3. by eapply H3.
  - intros roomId env n cfg usr idt resp Hne Hcfg Hh He Hu Hidt Hresp x.
    destruct (probe_credentials roomId env n cfg usr idt resp
                Hne Hcfg Hh He Hu Hidt Hresp) as (H1 & H2 & H3 & H4 & H5 & H6).
    split_and!; [done|done|done|done| |done].
    intros r h tok Hin. rewrite Forall_forall in H3. by eapply H3.
Qed.

Lemma credential_fetch_contract_witness :
  result (AV.joinLiveKit "R1" (Some Sample.mounts) None Sample.join_forbidden
            AV.initial)
  = Throw (Error ("Token endpoint " +:+ pretty 403 +:+ ": " +:+ "not a member"))
  ∧ EConnect 0 "wss://lk.example" "jwt"
    ∈ effects (AV.joinLiveKit "R1" (Some Sample.mounts) None Sample.join_ok
                 AV.initial).
Proof.
  destruct credential_fetch_contract as [H _].
  split.
  - destruct (H "R1" (Some Sample.mounts) None Sample.join_forbidden AV.initial
                (Sample.config "wss://lk.example") {| uid := "u1" |} "idt"
                Sample.forbidden_response
                ltac:(discriminate) eq_refl (or_introl eq_refl) eq_refl eq_refl)
      as (_ & H1 & _).
    exact (H1 eq_refl "not a member" eq_refl).
  - destruct (H "R1" (Some Sample.mounts) None Sample.join_ok AV.initial
                (Sample.config "wss://lk.example") {| uid := "u1" |} "idt"
                Sample.token_response
                ltac:(discriminate) eq_refl (or_introl eq_refl) eq_refl eq_refl)
      as (_ & _ & _ & H4 & _).
    exact (H4 eq_refl _ "jwt" eq_refl eq_refl ltac:(discriminate) eq_refl).
Defined.

(** * Running the generic monad *)

Section GSteps.
Context {E W A B : Type}.
Implicit Types (k : A → MG E W B) (w : W).

Lemma gbind_ok (m : MG E W A) k w a w1 t1 :
  m w = (Ok a, w1, t1) → gbind m k w = gpre t1 (k a w1).
Proof. unfold gbind, gpre. intros ->. by destruct (k a w1) as [[??]?]. Qed.

Lemma gbind_throw_run (m : MG E W A) k w e w1 t1 :
  m w = (Throw e, w1, t1) → gbind m k w = (Throw e, w1, t1).
Proof. unfold gbind. by intros ->. Qed.

Lemma gbind_ret a k w : gbind (gret a) k w = k a w.
Proof. unfold gbind, gret. by destruct (k a w) as [[??]?]. Qed.

Lemma gbind_throw e k w : gbind (gthrow e) k w = (Throw e, w, []).
Proof. done. Qed.

Lemma gbind_gets (f : W → A) k w : gbind (ggets f) k w = k (f w) w.
Proof. unfold gbind, ggets. by destruct (k (f w) w) as [[??]?]. Qed.

Lemma gbind_call_Returns c a k w :
  gbind (gcall c (Returns a)) k w = gpre [c] (k a w).
Proof. by apply gbind_ok. Qed.

Lemma gbind_call_Raises c who k w :
  gbind (gcall c (Raises who)) k w = (Throw (Rejected who), w, [c]).
Proof. done. Qed.

Lemma gbind_assoc {C} (m : MG E W C) (f : C → MG E W A) k w :
  gbind (gbind m f) k w = gbind m (λ c, gbind (f c) k) w.
Proof.
  unfold gbind. destruct (m w) as [[[c|e] w1] t1]; [|done].
  destruct (f c w1) as [[[a|e] w2] t2]; [|done].
  destruct (k a w2) as [[r w3] t3]. by rewrite app_assoc.
Qed.
End GSteps.

Section GUnitSteps.
Context {E W B : Type}.
Implicit Types (k : unit → MG E W B) (w : W).

Lemma gbind_modify (f : W → W) k w : gbind (gmodify f) k w = k tt (f w).
Proof. unfold gbind, gmodify. by destruct (k tt (f w)) as [[??]?]. Qed.

Lemma gbind_emit c k w : gbind (gemit c) k w = gpre [c] (k tt w).
Proof. by apply gbind_ok. Qed.
End GUnitSteps.

Lemma grun_throw {E W A} e (w : W) : @gthrow E W A e w = (Throw e, w, []).
Proof. done. Qed.
Lemma grun_ret {E W A} (a : A) (w : W) : @gret E W A a w = (Ok a, w, []).
Proof. done. Qed.
Lemma grun_call {E W A} (c : E) (o : Outcome A) (w : W) :
  gcall c o w = (match o with
                 | Returns a => Ok a
                 | Raises who => Throw (Rejected who)
                 end, w, [c]).
Proof. done. Qed.
Lemma gpre_triple {E W A} t (r : Res A) (w : W) (t' : list E) :
  gpre t (r, w, t') = (r, w, t ++ t').
Proof. done. Qed.

Ltac gsplit_call :=
  match goal with
  | H : ?o = Returns _ |- context [gbind (gcall _ ?o) _ _] => rewrite H
  | H : ?o = Raises _ |- context [gbind (gcall _ ?o) _ _] => rewrite H
  | |- context [gbind (gcall _ ?o) _ _] =>
      let E := fresh "Ecall" in destruct o eqn:E
  end.

Ltac gstep :=
  first
    [ rewrite gbind_gets | rewrite gbind_modify | rewrite gbind_ret
    | rewrite gbind_throw | rewrite gbind_emit
    | rewrite gbind_call_Returns | rewrite gbind_call_Raises
    | rewrite gbind_assoc | rewrite gpre_triple ].

(** Membership in a literal list. *)
Ltac in_list :=
  repeat first [apply list_elem_of_here | apply list_elem_of_further].

Ltac gflat :=
  rewrite ?grun_throw, ?grun_ret; rewrite ?gpre_triple;
  unfold res_of, state_of, calls_of; simpl.

(** * The camera controls *)

(** A loop of collaborator calls never touches the module state. *)
Lemma camera_release_loop room env pubs (w : AV.World) :
  ∃ r t,
    gfor_of pubs (λ pub,
      gbind (gcall (CUnpublishTrack room (pub_track pub))
               (sc_unpublishTrack env (pub_track pub)))
        (λ _, match pub_track pub with
              | Some t => gcall (CStop t) (sc_stop env t)
              | None => gret tt
              end)) w = (r, w, t)
    ∧ Forall (λ c, ∃ pub, pub ∈ pubs
                 ∧ (c = CUnpublishTrack room (pub_track pub)
                    ∨ ∃ tr, pub_track pub = Some tr ∧ c = CStop tr)) t
    ∧ (r = Ok tt →
       ∀ pub, pub ∈ pubs →
         CUnpublishTrack room (pub_track pub) ∈ t
         ∧ sc_unpublishTrack env (pub_track pub) = Returns tt
         ∧ ∀ tr, pub_track pub = Some tr →
             CStop tr ∈ t ∧ sc_stop env tr = Returns tt).
Proof.
  induction pubs as [|pub pubs IH].
  - exists (Ok tt), []. split_and!; [done|constructor|].
    by intros _ ? ?%elem_of_nil.
  - destruct IH as (r & t & IH & Ht & Hok).
    assert (Hmono : Forall (λ c, ∃ pub0, pub0 ∈ pub :: pubs
                 ∧ (c = CUnpublishTrack room (pub_track pub0)
                    ∨ ∃ tr, pub_track pub0 = Some tr ∧ c = CStop tr)) t).
    { eapply Forall_impl; [exact Ht|]. intros c (p & Hp & Hc). exists p.
      split; [by right|done]. }
    cbn [gfor_of]. rewrite gbind_assoc.
    destruct (sc_unpublishTrack env (pub_track pub)) as [[]|who] eqn:Hu.
    2:{ rewrite gbind_call_Raises. eexists _, _. split_and!; [done| |done].
        constructor; [|constructor]. exists pub. split; [by left|by left]. }
    rewrite gbind_call_Returns.
    destruct (pub_track pub) as [tr|] eqn:Htr.
    + destruct (sc_stop env tr) as [[]|who] eqn:Hs.
      * rewrite gbind_call_Returns, IH. gflat. eexists _, _.
        split_and!; [done| |].
        { constructor; [exists pub; split; [by left|left; by rewrite Htr]|].
          constructor; [exists pub; split; [by left|right; eauto]|done]. }
        intros Hr p [->|Hp]%elem_of_cons.
        { rewrite Htr. split_and!; [by left|done|].
          intros ? [= <-]. split; [right; by left|done]. }
        destruct (Hok Hr p Hp) as (H1 & H2 & H3).
        split_and!; [by do 2 right|done|].
        intros tr' Htr'. destruct (H3 tr' Htr') as [??]. split; [by do 2 right|done].
      * rewrite gbind_call_Raises. gflat. eexists _, _. split_and!; [done| |done].
        constructor; [exists pub; split; [by left|left; by rewrite Htr]|].
        constructor; [exists pub; split; [by left|right; eauto]|constructor].
    + rewrite gbind_ret, IH. gflat. eexists _, _. split_and!; [done| |].
      { constructor; [exists pub; split; [by left|left; by rewrite Htr]|done]. }
      intros Hr p [->|Hp]%elem_of_cons.
      { rewrite Htr. split_and!; [by left|done|done]. }
      destruct (Hok Hr p Hp) as (H1 & H2 & H3).
      split_and!; [by right|done|].
      intros tr' Htr'. destruct (H3 tr' Htr') as [??]. split; [by right|done].
Qed.

Lemma gfor_of_calls_ok {E W A} (c : A → E) (o : A → Outcome unit) (l : list A) (w : W) :
  (∀ a, a ∈ l → o a = Returns tt) →
  gfor_of l (λ a, gcall (c a) (o a)) w = (Ok tt, w, c <$> l).
Proof.
  induction l as [|a l IH]; intros H; [done|].
  cbn [gfor_of]. rewrite (H a) by (by left). rewrite gbind_call_Returns, IH.
  - done.
  - intros b Hb. apply H. by right.
Qed.

(** X1. [preflightCameraPermission] without a media-devices API throws the
    camera-not-supported error and never prompts; when the user denies the
    camera it rejects with the browser's exception and stops nothing.  The
    module state is untouched. *)
Theorem preflight_rejects (env : PreflightEnv) (w : AV.World) :
  (pf_getUserMedia_present env = false →
     Camera.preflightCameraPermission env w
     = (Throw (Error "Camera not supported in this browser"), w, []))
  ∧ (∀ who, pf_getUserMedia_present env = true →
       pf_getUserMedia env = Raises who →
       Camera.preflightCameraPermission env w
       = (Throw (Rejected who), w, [CGetUserMedia])).
Proof.
  unfold Camera.preflightCameraPermission. split.
  - by intros ->.
  - intros who -> ->. done.
Qed.

Lemma preflight_rejects_witness :
  Camera.preflightCameraPermission CameraSample.no_media_devices AV.initial
  = (Throw (Error "Camera not supported in this browser"), AV.initial, []).
Proof.
  exact (proj1 (preflight_rejects CameraSample.no_media_devices AV.initial) eq_refl).
Defined.

(** X2. When the camera is granted, [preflightCameraPermission] stops every
    track of the granted stream, in order, calls nothing else and leaves the
    module state as it was: the probe keeps no device open. *)
Theorem preflight_releases_stream (env : PreflightEnv) (w : AV.World) tracks :
  pf_getUserMedia_present env = true →
  pf_getUserMedia env = Returns tracks →
  (∀ t, t ∈ tracks → pf_stop env t = Returns tt) →
  Camera.preflightCameraPermission env w
  = (Ok tt, w, CGetUserMedia :: (CStop <$> tracks)).
Proof.
  intros Hp Hg Hs. unfold Camera.preflightCameraPermission.
  rewrite Hp, Hg. cbn [negb]. rewrite gbind_call_Returns.
  by rewrite gfor_of_calls_ok.
Qed.

Lemma preflight_releases_stream_witness :
  Camera.preflightCameraPermission CameraSample.granted AV.initial
  = (Ok tt, AV.initial, [CGetUserMedia; CStop 7; CStop 8]).
Proof.
  apply (preflight_releases_stream CameraSample.granted AV.initial [7; 8]);
    [reflexivity|reflexivity|reflexivity].
Defined.

Lemma stopCamera_preview (env : StopCameraEnv) (w : AV.World) el :
  ∃ t, gtry_catch
         (gbind (gcall (CSetSrcObjectNull el) (sc_setSrcObject env))
            (λ _, gbind (gcall (CRemoveSrcAttribute el) (sc_removeAttribute env))
                    (λ _, gcall (CLoad el) (sc_load env)))) w
       = (Ok tt, w, CSetSrcObjectNull el :: t).
Proof.
  unfold gtry_catch.
  destruct (sc_setSrcObject env) as [[]|?].
  2:{ rewrite gbind_call_Raises. by eexists. }
  rewrite gbind_call_Returns.
  destruct (sc_removeAttribute env) as [[]|?].
  2:{ rewrite gbind_call_Raises. gflat. by eexists. }
  rewrite gbind_call_Returns, grun_call. gflat.
  destruct (sc_load env) as [[]|?]; by eexists.
Qed.

(** [stopCamera] only talks to collaborators. *)
Lemma av_stopCamera_state env w : state_of (Camera.stopCamera env w) = w.
Proof.
  unfold Camera.stopCamera. cbv zeta. rewrite gbind_gets.
  destruct (AV.currentRoom w) as [room|]; [|done].
  destruct (sc_videoTrackPublications env) as [pubs|who].
  2:{ by rewrite gbind_call_Raises. }
  rewrite gbind_call_Returns.
  destruct (camera_release_loop room env pubs w) as (r & tr & Hloop & _).
  destruct r as [[]|e].
  - rewrite (gbind_ok _ _ _ _ _ _ Hloop), gbind_gets.
    destruct (AV.localVideoEl w) as [el|]; [|done].
    by destruct (stopCamera_preview env w el) as (t' & ->).
  - by rewrite (gbind_throw_run _ _ _ _ _ _ Hloop).
Qed.

(** X3. [stopCamera] never changes the module state: the session handle,
    the surface references and the bindings are those it found, whether it
    resolves or rejects.  Without a session it calls no collaborator. *)
Theorem stopCamera_keeps_session (env : StopCameraEnv) (w : AV.World) :
  state_of (Camera.stopCamera env w) = w
  ∧ (AV.currentRoom w = None → Camera.stopCamera env w = (Ok tt, w, [])).
Proof.
  split; [apply av_stopCamera_state|].
  intros Hcur. unfold Camera.stopCamera. cbv zeta. by rewrite gbind_gets, Hcur.
Qed.

Lemma stopCamera_keeps_session_witness :
  Camera.stopCamera CameraSample.stop_ok AV.initial = (Ok tt, AV.initial, []).
Proof.
  exact (proj2 (stopCamera_keeps_session CameraSample.stop_ok AV.initial) eq_refl).
Defined.

(** The clearing of the preview, step by step: a failing step skips the
    rest and is swallowed. *)
Lemma stopCamera_preview_run (env : StopCameraEnv) (w : AV.World) el :
  gtry_catch
    (gbind (gcall (CSetSrcObjectNull el) (sc_setSrcObject env))
       (λ _, gbind (gcall (CRemoveSrcAttribute el) (sc_removeAttribute env))
               (λ _, gcall (CLoad el) (sc_load env)))) w
  = (Ok tt, w,
     CSetSrcObjectNull el ::
       match sc_setSrcObject env with
       | Raises _ => []
       | Returns _ =>
           CRemoveSrcAttribute el ::
             match sc_removeAttribute env with
             | Raises _ => []
             | Returns _ => [CLoad el]
             end
       end).
Proof.
  unfold gtry_catch.
  destruct (sc_setSrcObject env) as [[]|?].
  2:{ by rewrite gbind_call_Raises. }
  rewrite gbind_call_Returns.
  destruct (sc_removeAttribute env) as [[]|?].
  2:{ rewrite gbind_call_Raises. by gflat. }
  rewrite gbind_call_Returns, grun_call. gflat.
  by destruct (sc_load env) as [[]|?].
Qed.

(** The release loop resolves when every unpublish and stop does. *)
Lemma camera_release_loop_ok room env pubs (w : AV.World) :
  (∀ pub, pub ∈ pubs →
     sc_unpublishTrack env (pub_track pub) = Returns tt
     ∧ ∀ tr, pub_track pub = Some tr → sc_stop env tr = Returns tt) →
  ∃ t, gfor_of pubs (λ pub,
         gbind (gcall (CUnpublishTrack room (pub_track pub))
                  (sc_unpublishTrack env (pub_track pub)))
           (λ _, match pub_track pub with
                 | Some t => gcall (CStop t) (sc_stop env t)
                 | None => gret tt
                 end)) w = (Ok tt, w, t).
Proof.
  induction pubs as [|pub pubs IH]; intros Hall; [by eexists|].
  destruct IH as [t IH]. { intros p Hp. apply Hall. by right. }
  destruct (Hall pub ltac:(by left)) as [Hu Hs].
  cbn [gfor_of]. rewrite gbind_assoc, Hu, gbind_call_Returns.
  destruct (pub_track pub) as [tr|].
  - rewrite (Hs tr eq_refl), gbind_call_Returns, IH. gflat. by eexists.
  - rewrite gbind_ret, IH. gflat. by eexists.
Qed.

(** X4. On a session, [stopCamera] resolves exactly when every unpublish and
    every stop of the video publications the room reports succeeds, whatever
    the clearing of the preview answers.  When it resolves, every publication
    has been unpublished and its track stopped; on a mounted preview
    [srcObject] has been set to null, the [src] attribute has been removed
    only if that succeeded, and [load()] has been called only if both
    succeeded: a failing step skips the rest of the clearing and is
    swallowed.  Without a mounted preview no clearing call is made. *)
Theorem stopCamera_resolves_releases_all (env : StopCameraEnv) (w : AV.World)
    room pubs :
  AV.currentRoom w = Some room →
  sc_videoTrackPublications env = Returns pubs →
  let x := Camera.stopCamera env w in
  (res_of x = Ok tt
   ↔ ∀ pub, pub ∈ pubs →
       sc_unpublishTrack env (pub_track pub) = Returns tt
       ∧ ∀ tr, pub_track pub = Some tr → sc_stop env tr = Returns tt)
  ∧ (res_of x = Ok tt →
     (∀ pub, pub ∈ pubs →
        CUnpublishTrack room (pub_track pub) ∈ calls_of x
        ∧ ∀ tr, pub_track pub = Some tr → CStop tr ∈ calls_of x)
     ∧ (∀ el, AV.localVideoEl w = Some el →
          CSetSrcObjectNull el ∈ calls_of x
          ∧ (CRemoveSrcAttribute el ∈ calls_of x
             ↔ sc_setSrcObject env = Returns tt)
          ∧ (CLoad el ∈ calls_of x
             ↔ sc_setSrcObject env = Returns tt
               ∧ sc_removeAttribute env = Returns tt))
     ∧ (AV.localVideoEl w = None →
          Forall (λ c, touches_preview c = false) (calls_of x))).
Proof.
  intros Hcur Hpubs x. subst x. unfold Camera.stopCamera. cbv zeta.
  rewrite gbind_gets, Hcur, Hpubs, gbind_call_Returns.
  destruct (camera_release_loop room env pubs w) as (r & t & Hloop & Ht & Hall).
  assert (Hquiet : Forall (λ c, touches_preview c = false) t).
  { eapply Forall_impl; [exact Ht|].
    intros c (p & _ & [->|(tr & _ & ->)]); done. }
  assert (Hnot : ∀ c, touches_preview c = true → c ∉ t).
  { intros c Hc Hin. rewrite Forall_forall in Hquiet.
    specialize (Hquiet c Hin). congruence. }
  destruct r as [[]|e].
  2:{ rewrite (gbind_throw_run _ _ _ _ _ _ Hloop). unfold res_of; simpl.
      split; [|done]. split; [done|]. intros Hok.
      destruct (camera_release_loop_ok room env pubs w Hok) as [t' Hloop'].
      congruence. }
  rewrite (gbind_ok _ _ _ _ _ _ Hloop), gbind_gets.
  specialize (Hall eq_refl).
  assert (Hres : res_of
            (gpre [CVideoTrackPublications room]
               (gpre t
                  (match AV.localVideoEl w with
                   | Some el =>
                       gtry_catch
                         (gbind (gcall (CSetSrcObjectNull el) (sc_setSrcObject env))
                            (λ _, gbind (gcall (CRemoveSrcAttribute el)
                                           (sc_removeAttribute env))
                                    (λ _, gcall (CLoad el) (sc_load env))))
                   | None => gret tt
                   end w))) = Ok tt).
  { destruct (AV.localVideoEl w) as [el|]; [|done].
    by rewrite stopCamera_preview_run. }
  split.
  - split; [|by intros _].
    intros _ pub Hpub. destruct (Hall pub Hpub) as (_ & Hu & Hs). split; [done|].
    intros tr Htr. by destruct (Hs tr Htr).
  - intros _. split_and!.
    + intros pub Hpub. destruct (Hall pub Hpub) as (H1 & _ & H3).
      unfold gpre, calls_of; simpl. split.
      * right. apply elem_of_app. by left.
      * intros tr Htr. right. apply elem_of_app. left. by apply H3.
    + intros el ->. rewrite stopCamera_preview_run.
      unfold gpre, calls_of; simpl. split_and!.
      * right. apply elem_of_app. right. by left.
      * rewrite elem_of_cons, elem_of_app, elem_of_cons.
        destruct (sc_setSrcObject env) as [[]|who].
        -- split; [done|]. intros _. right. right. right. in_list.
        -- split; [|done]. intros [?|[Hin|[?|Hin]]]; [done| |done|].
           ++ by apply Hnot in Hin.
           ++ by apply elem_of_nil in Hin.
      * rewrite elem_of_cons, elem_of_app, elem_of_cons.
        destruct (sc_setSrcObject env) as [[]|who].
        -- destruct (sc_removeAttribute env) as [[]|who].
           ++ split; [done|]. intros _. right. right. right. in_list.
           ++ split; [|by intros [_ ?]].
              intros [?|[Hin|[?|Hin]]]; [done| |done|].
              ** by apply Hnot in Hin.
              ** apply elem_of_cons in Hin as [?|Hin]; [done|].
                 by apply elem_of_nil in Hin.
        -- split; [|by intros [? _]].
           intros [?|[Hin|[?|Hin]]]; [done| |done|].
           ++ by apply Hnot in Hin.
           ++ by apply elem_of_nil in Hin.
    + intros ->. unfold gpre, calls_of; simpl.
      constructor; [done|]. by rewrite app_nil_r.
Qed.

Lemma stopCamera_resolves_releases_all_witness :
  res_of (Camera.stopCamera CameraSample.preview_stuck Sample.av_joined) = Ok tt
  ∧ CStop 2 ∈ calls_of (Camera.stopCamera CameraSample.preview_stuck Sample.av_joined)
  ∧ CLoad 102 ∉ calls_of (Camera.stopCamera CameraSample.preview_stuck
                             Sample.av_joined).
Proof.
  destruct (stopCamera_resolves_releases_all CameraSample.preview_stuck
              Sample.av_joined 0 [Sample.cam] eq_refl eq_refl) as [Hiff Hok].
  assert (Hres : res_of (Camera.stopCamera CameraSample.preview_stuck
                           Sample.av_joined) = Ok tt).
  { apply Hiff. intros pub [->|Hin%elem_of_nil]%elem_of_cons; [|done].
    split; [reflexivity|]. intros tr _. reflexivity. }
  destruct (Hok Hres) as (Hpubs & Hprev & _).
  split; [exact Hres|]. split.
  - exact (proj2 (Hpubs Sample.cam ltac:(by left)) 2 eq_refl).
  - destruct (Hprev 102 eq_refl) as (_ & _ & Hload).
    intros Hin. apply Hload in Hin as [_ Hin]. discriminate Hin.
Defined.

(** X5. [stopCamera] has no [try] around its loop: when the unpublish of the
    first video publication throws, the call rejects with that exception, no
    later publication is unpublished or stopped, and the local preview is not
    cleared.  In general a [stopCamera] that rejects has not touched the
    preview. *)
Theorem stopCamera_first_failure_aborts (env : StopCameraEnv) (w : AV.World) :
  (∀ room pub pubs who,
     AV.currentRoom w = Some room →
     sc_videoTrackPublications env = Returns (pub :: pubs) →
     sc_unpublishTrack env (pub_track pub) = Raises who →
     Camera.stopCamera env w
     = (Throw (Rejected who), w,
        [CVideoTrackPublications room; CUnpublishTrack room (pub_track pub)]))
  ∧ (∀ e, res_of (Camera.stopCamera env w) = Throw e →
       Forall (λ c, touches_preview c = false) (calls_of (Camera.stopCamera env w))).
Proof.
  split.
  - intros room pub pubs who Hcur Hpubs Hu. unfold Camera.stopCamera. cbv zeta.
    rewrite gbind_gets, Hcur, Hpubs, gbind_call_Returns.
    cbn [gfor_of]. by rewrite !gbind_assoc, Hu, gbind_call_Raises.
  - intros e. unfold Camera.stopCamera. cbv zeta. rewrite gbind_gets.
    destruct (AV.currentRoom w) as [room|]; [|done].
    destruct (sc_videoTrackPublications env) as [pubs|who].
    2:{ rewrite gbind_call_Raises. intros _. by repeat constructor. }
    rewrite gbind_call_Returns.
    destruct (camera_release_loop room env pubs w) as (r & t & Hloop & Ht & _).
    destruct r as [[]|e'].
    + rewrite (gbind_ok _ _ _ _ _ _ Hloop), gbind_gets.
      destruct (AV.localVideoEl w) as [el|]; [|done].
      by destruct (stopCamera_preview env w el) as (t' & ->).
    + rewrite (gbind_throw_run _ _ _ _ _ _ Hloop). intros _.
      unfold gpre, calls_of; simpl. constructor; [done|].
      eapply Forall_impl; [exact Ht|].
      intros c (p & _ & [->|(tr & _ & ->)]); done.
Qed.

Lemma stopCamera_first_failure_aborts_witness :
  Camera.stopCamera CameraSample.stop_stuck Sample.av_joined
  = (Throw (Rejected "unpublishTrack"), Sample.av_joined,
     [CVideoTrackPublications 0; CUnpublishTrack 0 (Some 2)]).
Proof.
  exact (proj1 (stopCamera_first_failure_aborts CameraSample.stop_stuck
                  Sample.av_joined)
           0 Sample.cam [Sample.mic] "unpublishTrack" eq_refl eq_refl eq_refl).
Defined.

(** * Starting the camera *)

(** X6. [startCamera] never changes the module state.  Without a session it
    throws the not-connected error and calls nothing.  With a session it
    creates a video track, publishes it on the stored room and on no other,
    resolves exactly when both calls succeed, and binds the track to the
    local preview exactly when it resolves and a preview element is
    mounted. *)
Theorem startCamera_behaviour (f : option FacingMode) (env : CameraEnv) (w : AV.World) :
  let x := AV.startCamera f env w in
  world x = w
  ∧ (AV.currentRoom w = None → x = (Throw (Error "Not connected"), w, []))
  ∧ (∀ room, AV.currentRoom w = Some room →
       (∀ r t, EPublishTrack r t ∈ effects x → r = room)
       ∧ (result x = Ok tt ↔
            (∃ t, ce_createLocalVideoTrack env = Returns t
                  ∧ ce_publishTrack env t = Returns tt))
       ∧ (∀ t el, EAttachPreview t el ∈ effects x ↔
            (result x = Ok tt ∧ AV.localVideoEl w = Some el
             ∧ ce_createLocalVideoTrack env = Returns t))).
Proof.
  intros x. subst x. unfold AV.startCamera. rewrite bind_gets.
  destruct (AV.currentRoom w) as [room0|]; [|by split_and!].
  split_and!; [|done|].
  - destruct (ce_createLocalVideoTrack env) as [t|?]; [|done].
    rewrite bind_call_Returns.
    destruct (ce_publishTrack env t) as [[]|?]; [|done].
    rewrite bind_call_Returns, bind_gets. by destruct (AV.localVideoEl w).
  - intros room [= <-].
    destruct (ce_createLocalVideoTrack env) as [t|?] eqn:Hc.
    2:{ rewrite bind_call_Raises. unfold result, effects; simpl. split_and!.
        - intros r t [[=]|[]%elem_of_nil]%elem_of_cons.
        - split; [done|]. by intros (t & [=] & _).
        - intros t el. split; [|by intros ([=] & _)].
          by intros [[=]|[]%elem_of_nil]%elem_of_cons. }
    rewrite bind_call_Returns.
    destruct (ce_publishTrack env t) as [[]|?] eqn:Hp.
    2:{ rewrite bind_call_Raises. unfold pre, result, effects; simpl. split_and!.
        - intros r t' [[=]|[[= -> _]|[]%elem_of_nil]%elem_of_cons]%elem_of_cons.
          done.
        - split; [done|]. intros (t' & [= <-] & Hp'). congruence.
        - intros t' el. split; [|by intros ([=] & _)].
          by intros [[=]|[[=]|[]%elem_of_nil]%elem_of_cons]%elem_of_cons. }
    rewrite bind_call_Returns, bind_gets.
    destruct (AV.localVideoEl w) as [el0|] eqn:Hlv;
      unfold pre, emit, ret, result, effects; simpl; split_and!.
    + intros r t' [[=]|[[= -> _]|[[=]|[]%elem_of_nil]%elem_of_cons]%elem_of_cons]%elem_of_cons.
      done.
    + split; [eauto|done].
    + intros t' el. split.
      * intros [[=]|[[=]|[[= -> ->]|[]%elem_of_nil]%elem_of_cons]%elem_of_cons]%elem_of_cons.
        done.
      * intros (_ & [= <-] & [= <-]). do 2 right. by left.
    + intros r t' [[=]|[[= -> _]|[]%elem_of_nil]%elem_of_cons]%elem_of_cons.
      done.
    + split; [eauto|done].
    + intros t' el. split; [|by intros (_ & [=] & _)].
      by intros [[=]|[[=]|[]%elem_of_nil]%elem_of_cons]%elem_of_cons.
Qed.

Lemma startCamera_behaviour_witness :
  AV.startCamera None Sample.camera_ok AV.initial
  = (Throw (Error "Not connected"), AV.initial, []).
Proof.
  exact (proj1 (proj2 (startCamera_behaviour None Sample.camera_ok AV.initial))
           eq_refl).
Defined.

Lemma for_of_calls_ok {W A} (c : A → Effect) (o : A → Outcome unit) (l : list A) (w : W) :
  (∀ a, a ∈ l → o a = Returns tt) →
  for_of l (λ a, call (c a) (o a)) w = (Ok tt, w, c <$> l).
Proof.
  induction l as [|a l IH]; intros H; [done|].
  cbn [for_of]. rewrite (H a) by (by left). rewrite bind_call_Returns, IH.
  - done.
  - intros b Hb. apply H. by right.
Qed.

Lemma for_of_call_inv {W A} (c : A → Effect) (o : A → Outcome unit) (l : list A)
    (w w' : W) r t :
  for_of l (λ a, call (c a) (o a)) w = (r, w', t) →
  (r = Ok tt → t = c <$> l) ∧ (∀ e, r = Throw e → ∃ who, e = Rejected who).
Proof.
  revert r w' t. induction l as [|a l IH]; intros r w' t.
  - intros [= <- <- <-]. by split.
  - cbn [for_of]. destruct (o a) as [[]|who].
    + rewrite bind_call_Returns.
      destruct (for_of l (λ a0, call (c a0) (o a0)) w) as [[r1 w1] t1] eqn:Hl.
      destruct (IH r1 w1 t1 eq_refl) as [H1 H2].
      intros [= <- <- <-]. split.
      * intros Hr. by rewrite (H1 Hr).
      * done.
    + rewrite bind_call_Raises. intros [= <- <- <-]. split; [done|].
      intros e [= <-]. by eexists.
Qed.



(** * Invariants of the binder *)

Lemma bindings_wf_sym a v pn n : bindings_wf a v pn n → bindings_wf v a pn n.
Proof.
  intros (H1 & H2 & H3 & H4). split_and!; [|done|done|].
  - intros k el [?|?]; apply (H1 k); auto.
  - intros k1 k2 el ??. by eapply H4.
Qed.

Lemma bindings_wf_empty pn n : bindings_wf ∅ ∅ pn n.
Proof.
  split_and!.
  - intros k el [H|H]; by rewrite lookup_empty in H.
  - intros k1 k2 el H; by rewrite lookup_empty in H.
  - intros k1 k2 el H; by rewrite lookup_empty in H.
  - intros k1 k2 el H; by rewrite lookup_empty in H.
Qed.

Lemma bindings_wf_next a v pn n : bindings_wf a v pn n → bindings_wf a v pn (S n).
Proof.
  intros (H1 & H2 & H3 & H4). split_and!; [|done..].
  intros k el Hel. destruct (H1 k el Hel). split; [done|lia].
Qed.

(** [attachRemote...]: a fresh element under a key, hung under a container. *)
Lemma bindings_wf_attach a v pn n k c :
  bindings_wf a v pn n → bindings_wf (<[k:=n]> a) v (<[n:=c]> pn) (S n).
Proof.
  intros (H1 & H2 & H3 & H4).
  assert (Hold : ∀ k' el, a !! k' = Some el ∨ v !! k' = Some el → el ≠ n).
  { intros k' el Hel. destruct (H1 k' el Hel). lia. }
  split_and!.
  - intros k' el [Hel|Hel].
    + apply lookup_insert_Some in Hel as [[Hk Hn]|[? Hel]].
      * subst el. rewrite lookup_insert_eq. split; [by eexists|lia].
      * rewrite lookup_insert_ne by (symmetry; eapply Hold; eauto).
        destruct (H1 k' el (or_introl Hel)). split; [done|lia].
    + rewrite lookup_insert_ne by (symmetry; eapply Hold; eauto).
      destruct (H1 k' el (or_intror Hel)). split; [done|lia].
  - intros k1 k2 el Ha1 Ha2.
    apply lookup_insert_Some in Ha1 as [[Hk1 Hn1]|[? Ha1]];
      apply lookup_insert_Some in Ha2 as [[Hk2 Hn2]|[? Ha2]].
    + congruence.
    + subst el. by destruct (Hold k2 n (or_introl Ha2)).
    + subst el. by destruct (Hold k1 n (or_introl Ha1)).
    + by eapply H2.
  - done.
  - intros k1 k2 el Ha Hv.
    apply lookup_insert_Some in Ha as [[Hk Hn]|[? Ha]].
    + subst el. by destruct (Hold k2 n (or_intror Hv)).
    + by eapply H4.
Qed.

(** [detachRemote...]: one key deleted, its element taken out of the document. *)
Lemma bindings_wf_detach a v pn n k :
  bindings_wf a v pn n → bindings_wf (delete k a) v (remove_from_parent a k pn) n.
Proof.
  intros (H1 & H2 & H3 & H4).
  assert (Hkeep : ∀ el : ElemId, (∀ el0, a !! k = Some el0 → el0 ≠ el) →
            remove_from_parent a k pn !! el = pn !! el).
  { intros el Hel. unfold remove_from_parent.
    destruct (a !! k) as [el0|] eqn:Hk; [|done].
    apply lookup_delete_ne. by apply Hel. }
  split_and!.
  - intros k' el [Hel|Hel].
    + apply lookup_delete_Some in Hel as [Hne Hel]. rewrite Hkeep.
      * by apply (H1 k'); left.
      * intros el0 Hk ->. apply Hne. by eapply H2.
    + rewrite Hkeep.
      * by apply (H1 k'); right.
      * intros el0 Hk ->. by eapply H4.
  - intros k1 k2 el [_ Ha1]%lookup_delete_Some [_ Ha2]%lookup_delete_Some.
    by eapply H2.
  - done.
  - intros k1 k2 el [_ Ha]%lookup_delete_Some Hv. by eapply H4.
Qed.

(** [detachAllRemote...For]: the keys of one participant. *)
Lemma bindings_wf_detach_participant a v pn n p :
  bindings_wf a v pn n →
  bindings_wf (detach_keys (keys_of_participant p a) (a, pn)).1 v
    (detach_keys (keys_of_participant p a) (a, pn)).2 n.
Proof.
  intros (H1 & H2 & H3 & H4).
  assert (Hlk := detach_participant_lookup p a pn).
  assert (Hin : ∀ k el, (detach_keys (keys_of_participant p a) (a, pn)).1 !! k
                          = Some el →
                        key_of_participant p k = false ∧ a !! k = Some el).
  { intros k el. rewrite Hlk. by destruct (key_of_participant p k). }
  split_and!.
  - intros k el [Hel|Hel].
    + apply Hin in Hel as [Hk Hel]. rewrite detach_keys_kept.
      * by apply (H1 k); left.
      * intros k' [Hk' _]%elem_of_keys_of_participant Hel'.
        assert (k' = k) as -> by (by eapply H2). congruence.
    + rewrite detach_keys_kept.
      * by apply (H1 k); right.
      * intros k' _ Hel'. by eapply H4.
  - intros k1 k2 el [_ Ha1]%Hin [_ Ha2]%Hin. by eapply H2.
  - done.
  - intros k1 k2 el [_ Ha]%Hin Hv. by eapply H4.
Qed.

(** ** The binder fields through each entry point *)

Lemma av_startCamera_world f env w : world (AV.startCamera f env w) = w.
Proof.
  unfold AV.startCamera. rewrite bind_gets.
  destruct (AV.currentRoom w) as [room|]; [|done].
  destruct (ce_createLocalVideoTrack env) as [t|?]; [|done].
  rewrite bind_call_Returns.
  destruct (ce_publishTrack env t) as [[]|?]; [|done].
  rewrite bind_call_Returns, bind_gets. by destruct (AV.localVideoEl w).
Qed.

Lemma av_leave_world env w :
  world (AV.leaveLiveKit env w) = w ∨ world (AV.leaveLiveKit env w) = av_idle w.
Proof.
  destruct (AV.currentRoom w) as [r|] eqn:Hcur.
  - right. by destruct (av_leave_run env w r Hcur) as (t & -> & _).
  - left. by rewrite av_leave_idle.
Qed.

Lemma ao_leave_world env w :
  world (AudioOnly.leaveLiveKit env w) = w
  ∨ world (AudioOnly.leaveLiveKit env w) = ao_idle w.
Proof.
  destruct (AudioOnly.currentRoom w) as [r|] eqn:Hcur.
  - right. by destruct (ao_leave_run env w r Hcur) as (t & -> & _).
  - left. by rewrite ao_leave_idle.
Qed.

(** A join leaves the bindings, the document and the element allocator as its
    leave step left them. *)
Lemma av_join_binder_frame roomId mounts opts env w :
  roomId ≠ "" →
  let x := AV.joinLiveKit roomId mounts opts env w in
  let w0 := world (AV.leaveLiveKit (je_leave env) w) in
  AV.audioEls (world x) = AV.audioEls w0
  ∧ AV.videoEls (world x) = AV.videoEls w0
  ∧ AV.parentNode (world x) = AV.parentNode w0
  ∧ AV.nextElem (world x) = AV.nextElem w0.
Proof.
  intros Hne x w0. subst x w0.
  av_join_enter env w tl w0 Hcur0 Hnext0 Htl.
  repeat join_step; flat.
  all: done.
Qed.

Lemma ao_join_binder_frame roomId audioContainer env w :
  roomId ≠ "" →
  let x := AudioOnly.joinLiveKit roomId audioContainer env w in
  let w0 := world (AudioOnly.leaveLiveKit (je_leave env) w) in
  AudioOnly.audioEls (world x) = AudioOnly.audioEls w0
  ∧ AudioOnly.parentNode (world x) = AudioOnly.parentNode w0
  ∧ AudioOnly.nextElem (world x) = AudioOnly.nextElem w0.
Proof.
  intros Hne x w0. subst x w0.
  ao_join_enter env w tl w0 Hcur0 Hnext0 Htl.
  repeat join_step; flat.
  all: done.
Qed.

Lemma av_apply_wf w op :
  av_bindings_wf w ∧ av_allocated w →
  av_bindings_wf (av_apply w op) ∧ av_allocated (av_apply w op).
Proof.
  intros [Hwf Hal]. unfold av_bindings_wf in *.
  destruct op as [c|env|f env|env|t p|t p|p|]; cbn [av_apply].
  - (* join *)
    destruct (decide (avc_roomId c = "")) as [He|Hne].
    { unfold AV.joinLiveKit. rewrite He. simpl. by split. }
    destruct (av_join_binder_frame (avc_roomId c) (avc_mounts c) (avc_opts c)
                (avc_env c) w Hne) as (-> & -> & -> & ->).
    split.
    + destruct (av_leave_world (je_leave (avc_env c)) w) as [->| ->]; [done|].
      apply bindings_wf_empty.
    + destruct (av_join_session (avc_roomId c) (avc_mounts c) (avc_opts c)
                  (avc_env c) w Hne) as (_ & Hok & Hthrow).
      intros r Hr.
      destruct (result (AV.joinLiveKit (avc_roomId c) (avc_mounts c) (avc_opts c)
                          (avc_env c) w)) as [r'|e] eqn:Hres.
      * destruct (Hok r' eq_refl) as (Hc & _ & ->). rewrite Hc in Hr.
        injection Hr as ->. lia.
      * destruct (Hthrow e eq_refl) as [Hc _]. congruence.
  - (* leave *)
    destruct (av_leave_world env w) as [->| ->]; [done|].
    split; [apply bindings_wf_empty|]. by intros r [=].
  - by rewrite av_startCamera_world.
  - (* stopCamera *)
    by rewrite av_stopCamera_state.
  - (* track-subscribed *)
    unfold AV.onTrackSubscribed. destruct (kind t); [| |done].
    + unfold AV.attachRemoteAudio. rewrite bind_gets.
      destruct (AV.audioContainerEl w) as [c|]; [|done].
      unfold bind, AV.track_attach, modify, world; simpl.
      split; [by apply bindings_wf_attach|done].
    + unfold AV.attachRemoteVideo. rewrite bind_gets.
      destruct (AV.remoteVideoContainerEl w) as [c|]; [|done].
      unfold bind, AV.track_attach, modify, world; simpl.
      split; [|done]. by apply bindings_wf_sym, bindings_wf_attach, bindings_wf_sym.
  - (* track-unsubscribed *)
    unfold AV.onTrackUnsubscribed. destruct (kind t); [| |done].
    + unfold AV.detachRemoteAudio, modify, world; simpl.
      split; [by apply bindings_wf_detach|done].
    + unfold AV.detachRemoteVideo, modify, world; simpl.
      split; [|done]. by apply bindings_wf_sym, bindings_wf_detach, bindings_wf_sym.
  - (* participant-disconnected *)
    unfold AV.onParticipantDisconnected, AV.detachAllRemoteAudioFor,
      AV.detachAllRemoteVideoFor.
    rewrite bind_modify. unfold modify, world; simpl. split; [|done].
    apply bindings_wf_sym, bindings_wf_detach_participant, bindings_wf_sym.
    by apply bindings_wf_detach_participant.
  - (* disconnected *)
    rewrite av_onDisconnected_run. unfold world; simpl.
    split; [apply bindings_wf_empty|]. by intros r [=].
Qed.

Lemma ao_apply_wf w op :
  ao_bindings_wf w ∧ ao_allocated w →
  ao_bindings_wf (ao_apply w op) ∧ ao_allocated (ao_apply w op).
Proof.
  intros [Hwf Hal]. unfold ao_bindings_wf in *.
  destruct op as [c|env|t p|t p|p|]; cbn [ao_apply].
  - destruct (decide (aoc_roomId c = "")) as [He|Hne].
    { unfold AudioOnly.joinLiveKit. rewrite He. simpl. by split. }
    destruct (ao_join_binder_frame (aoc_roomId c) (aoc_audioContainer c)
                (aoc_env c) w Hne) as (-> & -> & ->).
    split.
    + destruct (ao_leave_world (je_leave (aoc_env c)) w) as [->| ->]; [done|].
      apply bindings_wf_empty.
    + destruct (ao_join_session (aoc_roomId c) (aoc_audioContainer c)
                  (aoc_env c) w Hne) as (_ & Hok & Hthrow).
      intros r Hr.
      destruct (result (AudioOnly.joinLiveKit (aoc_roomId c) (aoc_audioContainer c)
                          (aoc_env c) w)) as [r'|e] eqn:Hres.
      * destruct (Hok r' eq_refl) as (Hc & _ & ->). rewrite Hc in Hr.
        injection Hr as ->. lia.
      * destruct (Hthrow e eq_refl) as [Hc _]. congruence.
  - destruct (ao_leave_world env w) as [->| ->]; [done|].
    split; [apply bindings_wf_empty|]. by intros r [=].
  - unfold AudioOnly.onTrackSubscribed.
    destruct (kind t); [|done|done].
    unfold AudioOnly.attachRemoteAudio. rewrite bind_gets.
    destruct (AudioOnly.audioContainerEl w) as [c|]; [|done].
    unfold bind, AudioOnly.track_attach, modify, world; simpl.
    split; [by apply bindings_wf_attach|done].
  - unfold AudioOnly.onTrackUnsubscribed, AudioOnly.detachRemoteAudio, modify, world;
      simpl.
    split; [by apply bindings_wf_detach|done].
  - unfold AudioOnly.onParticipantDisconnected, AudioOnly.detachAllRemoteAudioFor,
      modify, world; simpl.
    split; [|done]. by apply bindings_wf_detach_participant.
  - rewrite ao_onDisconnected_run. unfold world; simpl.
    split; [apply bindings_wf_empty|]. by intros r [=].
Qed.

(** X8. In every state the controllers reach from a freshly loaded module,
    through any sequence of joins, leaves, camera calls and transport events
    with any answers of the collaborators: each recorded binding's element is
    in the document and was allocated by the module, no element is recorded
    under two keys or in both maps, and the stored room is one the module
    allocated. *)
Theorem reachable_states_well_formed :
  (∀ ops, av_bindings_wf (av_run ops AV.initial)
          ∧ av_allocated (av_run ops AV.initial))
  ∧ (∀ ops, ao_bindings_wf (ao_run ops AudioOnly.initial)
            ∧ ao_allocated (ao_run ops AudioOnly.initial)).
Proof.
  split.
  - intros ops. unfold av_run.
    assert (H0 : av_bindings_wf AV.initial ∧ av_allocated AV.initial).
    { split; [apply bindings_wf_empty|by intros r [=]]. }
    revert H0. generalize AV.initial.
    induction ops as [|op ops IH]; intros w Hw; [done|].
    simpl. by apply IH, av_apply_wf.
  - intros ops. unfold ao_run.
    assert (H0 : ao_bindings_wf AudioOnly.initial ∧ ao_allocated AudioOnly.initial).
    { split; [apply bindings_wf_empty|by intros r [=]]. }
    revert H0. generalize AudioOnly.initial.
    induction ops as [|op ops IH]; intros w Hw; [done|].
    simpl. by apply IH, ao_apply_wf.
Qed.

(** * Elements left in the document *)

Lemma detach_elements_kept (m : gmap string ElemId) pn (el : ElemId) :
  (∀ k, m !! k ≠ Some el) → detach_elements m pn !! el = pn !! el.
Proof.
  intros Hm. unfold detach_elements. rewrite detach_elements_list.
  rewrite decide_False; [done|].
  intros ([k el'] & Heq & Hin)%list_elem_of_fmap. simpl in Heq. subst el'.
  apply elem_of_map_to_list in Hin. by apply (Hm k).
Qed.

Lemma orphaned_sym a v pn n el c : orphaned a v pn n el c → orphaned v a pn n el c.
Proof. intros (? & ? & ? & ?). by split_and!. Qed.

Lemma orphaned_attach a v pn n el c k c' :
  orphaned a v pn n el c → orphaned (<[k:=n]> a) v (<[n:=c']> pn) (S n) el c.
Proof.
  intros (Hpn & Hlt & Ha & Hv). split_and!; [|lia| |done].
  - rewrite lookup_insert_ne; [done|lia].
  - intros k' [[_ Hn]|[_ Hk]]%lookup_insert_Some; [lia|by apply (Ha k')].
Qed.

Lemma orphaned_detach a v pn n el c k :
  orphaned a v pn n el c → orphaned (delete k a) v (remove_from_parent a k pn) n el c.
Proof.
  intros (Hpn & Hlt & Ha & Hv). split_and!; [|done| |done].
  - unfold remove_from_parent. destruct (a !! k) as [el0|] eqn:Hk; [|done].
    rewrite lookup_delete_ne; [done|]. intros ->. by apply (Ha k).
  - intros k' [_ Hk]%lookup_delete_Some. by apply (Ha k').
Qed.

Lemma orphaned_detach_participant a v pn n el c p :
  orphaned a v pn n el c →
  orphaned (detach_keys (keys_of_participant p a) (a, pn)).1 v
    (detach_keys (keys_of_participant p a) (a, pn)).2 n el c.
Proof.
  intros (Hpn & Hlt & Ha & Hv). split_and!; [|done| |done].
  - rewrite detach_keys_kept; [done|]. intros k _. apply Ha.
  - intros k. rewrite detach_keys_lookup. case_decide; [done|apply Ha].
Qed.

Lemma orphaned_idle a v pn n el c :
  orphaned a v pn n el c →
  orphaned ∅ ∅ (detach_elements v (detach_elements a pn)) n el c.
Proof.
  intros (Hpn & Hlt & Ha & Hv). split_and!; [|done|..].
  - by rewrite !detach_elements_kept.
  - intros k. by rewrite lookup_empty.
  - intros k. by rewrite lookup_empty.
Qed.

Lemma orphaned_idle_audio a pn n el c :
  orphaned a ∅ pn n el c → orphaned ∅ ∅ (detach_elements a pn) n el c.
Proof.
  intros (Hpn & Hlt & Ha & Hv). split_and!; [|done|..].
  - by rewrite !detach_elements_kept.
  - intros k. by rewrite lookup_empty.
  - intros k. by rewrite lookup_empty.
Qed.

Lemma av_apply_orphaned el c w op :
  av_orphaned el c w → av_orphaned el c (av_apply w op).
Proof.
  intros Ho. unfold av_orphaned in *.
  destruct op as [j|env|f env|env|t p|t p|p|]; cbn [av_apply].
  - destruct (decide (avc_roomId j = "")) as [He|Hne].
    { unfold AV.joinLiveKit. rewrite He. by simpl. }
    destruct (av_join_binder_frame (avc_roomId j) (avc_mounts j) (avc_opts j)
                (avc_env j) w Hne) as (-> & -> & -> & ->).
    destruct (av_leave_world (je_leave (avc_env j)) w) as [->| ->]; [done|].
    by apply orphaned_idle.
  - destruct (av_leave_world env w) as [->| ->]; [done|]. by apply orphaned_idle.
  - by rewrite av_startCamera_world.
  - by rewrite av_stopCamera_state.
  - unfold AV.onTrackSubscribed. destruct (kind t); [| |done].
    + unfold AV.attachRemoteAudio. rewrite bind_gets.
      destruct (AV.audioContainerEl w) as [c'|]; [|done].
      unfold bind, AV.track_attach, modify, world; simpl.
      by apply orphaned_attach.
    + unfold AV.attachRemoteVideo. rewrite bind_gets.
      destruct (AV.remoteVideoContainerEl w) as [c'|]; [|done].
      unfold bind, AV.track_attach, modify, world; simpl.
      by apply orphaned_sym, orphaned_attach, orphaned_sym.
  - unfold AV.onTrackUnsubscribed. destruct (kind t); [| |done].
    + unfold AV.detachRemoteAudio, modify, world; simpl. by apply orphaned_detach.
    + unfold AV.detachRemoteVideo, modify, world; simpl.
      by apply orphaned_sym, orphaned_detach, orphaned_sym.
  - unfold AV.onParticipantDisconnected, AV.detachAllRemoteAudioFor,
      AV.detachAllRemoteVideoFor.
    rewrite bind_modify. unfold modify, world; simpl.
    apply orphaned_sym, orphaned_detach_participant, orphaned_sym.
    by apply orphaned_detach_participant.
  - rewrite av_onDisconnected_run. unfold world; simpl. by apply orphaned_idle.
Qed.

Lemma ao_apply_orphaned el c w op :
  ao_orphaned el c w → ao_orphaned el c (ao_apply w op).
Proof.
  intros Ho. unfold ao_orphaned in *.
  destruct op as [j|env|t p|t p|p|]; cbn [ao_apply].
  - destruct (decide (aoc_roomId j = "")) as [He|Hne].
    { unfold AudioOnly.joinLiveKit. rewrite He. by simpl. }
    destruct (ao_join_binder_frame (aoc_roomId j) (aoc_audioContainer j)
                (aoc_env j) w Hne) as (-> & -> & ->).
    destruct (ao_leave_world (je_leave (aoc_env j)) w) as [->| ->]; [done|].
    by apply orphaned_idle_audio.
  - destruct (ao_leave_world env w) as [->| ->]; [done|].
    by apply orphaned_idle_audio.
  - unfold AudioOnly.onTrackSubscribed. destruct (kind t); [|done|done].
    unfold AudioOnly.attachRemoteAudio. rewrite bind_gets.
    destruct (AudioOnly.audioContainerEl w) as [c'|]; [|done].
    unfold bind, AudioOnly.track_attach, modify, world; simpl.
    by apply orphaned_attach.
  - unfold AudioOnly.onTrackUnsubscribed, AudioOnly.detachRemoteAudio, modify, world;
      simpl.
    by apply orphaned_detach.
  - unfold AudioOnly.onParticipantDisconnected, AudioOnly.detachAllRemoteAudioFor,
      modify, world; simpl.
    by apply orphaned_detach_participant.
  - rewrite ao_onDisconnected_run. unfold world; simpl. by apply orphaned_idle_audio.
Qed.

Lemma av_attachRemoteAudio_world track id w c :
  AV.audioContainerEl w = Some c →
  world (AV.attachRemoteAudio track id w)
  = AV.mkWorld (AV.currentRoom w) (Some c) (AV.remoteVideoContainerEl w)
      (AV.localVideoEl w)
      (<[binding_key id (track_sid track) := AV.nextElem w]> (AV.audioEls w))
      (AV.videoEls w) (<[AV.nextElem w := c]> (AV.parentNode w))
      (AV.nextRoom w) (S (AV.nextElem w)).
Proof.
  intros Hc. unfold AV.attachRemoteAudio. rewrite bind_gets, Hc.
  unfold bind, AV.track_attach, modify, world, AV.set_audio; simpl. by rewrite Hc.
Qed.

Lemma av_attachRemoteVideo_world track id w c :
  AV.remoteVideoContainerEl w = Some c →
  world (AV.attachRemoteVideo track id w)
  = AV.mkWorld (AV.currentRoom w) (AV.audioContainerEl w) (Some c)
      (AV.localVideoEl w) (AV.audioEls w)
      (<[binding_key id (track_sid track) := AV.nextElem w]> (AV.videoEls w))
      (<[AV.nextElem w := c]> (AV.parentNode w))
      (AV.nextRoom w) (S (AV.nextElem w)).
Proof.
  intros Hc. unfold AV.attachRemoteVideo. rewrite bind_gets, Hc.
  unfold bind, AV.track_attach, modify, world, AV.set_video; simpl. by rewrite Hc.
Qed.

Lemma ao_attachRemoteAudio_world track id w c :
  AudioOnly.audioContainerEl w = Some c →
  world (AudioOnly.attachRemoteAudio track id w)
  = AudioOnly.mkWorld (AudioOnly.currentRoom w)
      (<[binding_key id (track_sid track) := AudioOnly.nextElem w]>
         (AudioOnly.audioEls w))
      (Some c)
      (<[AudioOnly.nextElem w := c]> (AudioOnly.parentNode w))
      (AudioOnly.nextRoom w) (S (AudioOnly.nextElem w)).
Proof.
  intros Hc. unfold AudioOnly.attachRemoteAudio. rewrite bind_gets, Hc.
  unfold bind, AudioOnly.track_attach, modify, world, AudioOnly.set_audio; simpl.
  by rewrite Hc.
Qed.

(** Overwriting a recorded key with a fresh element orphans the old one. *)
Lemma orphaned_rebind a v pn n key el c c' :
  bindings_wf a v pn n → a !! key = Some el → pn !! el = Some c →
  orphaned (<[key:=n]> a) v (<[n:=c']> pn) (S n) el c.
Proof.
  intros (H1 & H2 & H3 & H4) Hkey Hpn.
  destruct (H1 key el (or_introl Hkey)) as [_ Hlt].
  split_and!.
  - rewrite lookup_insert_ne; [done|lia].
  - lia.
  - intros k [[_ Hn]|[Hne Hk]]%lookup_insert_Some; [lia|].
    apply Hne. by eapply H2.
  - intros k Hk. by eapply H4.
Qed.

(** X9. When the audio+video controller handles [TrackSubscribed] for a
    track whose key is already recorded (the surface for that kind being
    mounted), the element recorded before stays where it hangs in the document
    and is recorded under no key from then on, whatever entry points run
    afterwards: unsubscribe, participant-disconnected, leave, disconnected or
    another join never remove it. *)
Theorem rebinding_orphans_element track p el c c' w :
  av_bindings_wf w →
  av_surface (kind track) w = Some c' →
  av_binding (kind track) (binding_key (identity p) (track_sid track)) w = Some el →
  AV.parentNode w !! el = Some c →
  ∀ ops, av_orphaned el c (av_run ops (world (AV.onTrackSubscribed track p w))).
Proof.
  intros Hwf Hsurf Hbind Hpn.
  assert (Ho : av_orphaned el c (world (AV.onTrackSubscribed track p w))).
  { unfold AV.onTrackSubscribed, av_surface, av_binding in *.
    destruct (kind track); [| |done].
    - rewrite (av_attachRemoteAudio_world track (identity p) w c' Hsurf).
      unfold av_orphaned; simpl. by apply orphaned_rebind.
    - rewrite (av_attachRemoteVideo_world track (identity p) w c' Hsurf).
      unfold av_orphaned; simpl.
      by apply orphaned_sym, orphaned_rebind; [apply bindings_wf_sym|..]. }
  intros ops. unfold av_run. revert Ho.
  generalize (world (AV.onTrackSubscribed track p w)). clear.
  induction ops as [|op ops IH]; intros w2 Ho; [done|].
  simpl. by apply IH, av_apply_orphaned.
Qed.

Lemma rebinding_orphans_element_witness :
  av_orphaned 0 100
    (av_run [OpTrackUnsubscribed Sample.alice_mic Sample.alice;
             OpParticipantDisconnected Sample.alice;
             OpLeave Sample.leave_ok]
       (world (AV.onTrackSubscribed Sample.alice_mic Sample.alice Sample.av_bound))).
Proof.
  apply (rebinding_orphans_element Sample.alice_mic Sample.alice 0 100 100
           Sample.av_bound).
  - apply (bindings_wf_attach ∅ ∅ ∅ 0), bindings_wf_empty.
  - vm_compute; reflexivity.
  - vm_compute; reflexivity.
  - vm_compute; reflexivity.
Defined.

(** X10. The audio-only controller behaves alike: subscribing an audio track
    whose key is already recorded leaves the old element in the document,
    recorded under no key, through every later entry point. *)
Theorem ao_rebinding_orphans_element track p el c c' w :
  ao_bindings_wf w →
  kind track = Audio →
  AudioOnly.audioContainerEl w = Some c' →
  AudioOnly.audioEls w !! binding_key (identity p) (track_sid track) = Some el →
  AudioOnly.parentNode w !! el = Some c →
  ∀ ops, ao_orphaned el c
           (ao_run ops (world (AudioOnly.onTrackSubscribed track p w))).
Proof.
  intros Hwf Hkind Hsurf Hbind Hpn.
  assert (Ho : ao_orphaned el c (world (AudioOnly.onTrackSubscribed track p w))).
  { unfold AudioOnly.onTrackSubscribed. rewrite Hkind.
    rewrite (ao_attachRemoteAudio_world track (identity p) w c' Hsurf).
    unfold ao_orphaned; simpl. by apply orphaned_rebind. }
  intros ops. unfold ao_run. revert Ho.
  generalize (world (AudioOnly.onTrackSubscribed track p w)). clear.
  induction ops as [|op ops IH]; intros w2 Ho; [done|].
  simpl. by apply IH, ao_apply_orphaned.
Qed.

Lemma ao_rebinding_orphans_element_witness :
  ao_orphaned 0 100
    (ao_run [AoTrackUnsubscribed Sample.alice_mic Sample.alice;
             AoParticipantDisconnected Sample.alice;
             AoLeave Sample.leave_ok]
       (world (AudioOnly.onTrackSubscribed Sample.alice_mic Sample.alice
                 Sample.ao_bound))).
Proof.
  apply (ao_rebinding_orphans_element Sample.alice_mic Sample.alice 0 100 100
           Sample.ao_bound).
  - apply (bindings_wf_attach ∅ ∅ ∅ 0), bindings_wf_empty.
  - reflexivity.
  - vm_compute; reflexivity.
  - vm_compute; reflexivity.
  - vm_compute; reflexivity.
Defined.

(** * Rooms in Firestore *)

Lemma rooms_setDoc_run (env : ApiEnv) (path : list string)
    (data : gmap string FieldValue) (s : Rooms.Store) :
  Rooms.setDoc_merge env path data s
  = match api_setDoc env path with
    | Returns _ => (Ok tt, <[path := data ∪ default ∅ (s !! path)]> s,
                    [FsSetDoc path data true])
    | Raises who => (Throw (Rejected who), s, [FsSetDoc path data true])
    end.
Proof.
  unfold Rooms.setDoc_merge. by destruct (api_setDoc env path) as [[]|who].
Qed.

Lemma rooms_bind_setDoc {B} (env : ApiEnv) (path : list string)
    (data : gmap string FieldValue) (k : unit → MG FsCall Rooms.Store B) s :
  gbind (Rooms.setDoc_merge env path data) k s
  = match api_setDoc env path with
    | Returns _ => gpre [FsSetDoc path data true]
                     (k tt (<[path := data ∪ default ∅ (s !! path)]> s))
    | Raises who => (Throw (Rejected who), s, [FsSetDoc path data true])
    end.
Proof.
  destruct (api_setDoc env path) as [[]|who] eqn:Hs.
  - apply gbind_ok. by rewrite rooms_setDoc_run, Hs.
  - apply gbind_throw_run. by rewrite rooms_setDoc_run, Hs.
Qed.

Lemma rooms_bind_uid {B} (env : ApiEnv) (k : string → MG FsCall Rooms.Store B) s :
  gbind (Rooms.currentUser_uid env) k s
  = match api_getAuth env with
    | Returns (Some usr) => gpre [FsGetAuth] (k (uid usr) s)
    | Returns None => (Throw (Rejected "TypeError"), s, [FsGetAuth])
    | Raises who => (Throw (Rejected who), s, [FsGetAuth])
    end.
Proof.
  unfold Rooms.currentUser_uid. rewrite gbind_assoc.
  destruct (api_getAuth env) as [[usr|]|who].
  - by rewrite gbind_call_Returns, gbind_ret.
  - by rewrite gbind_call_Returns, gbind_throw.
  - by rewrite gbind_call_Raises.
Qed.

Lemma rooms_bind_exists {B} (env : ApiEnv) (path : list string)
    (k : bool → MG FsCall Rooms.Store B) s :
  gbind (Rooms.getDoc_exists env path) k s
  = match api_getDoc env path with
    | Returns _ => gpre [FsGetDoc path] (k (bool_decide (is_Some (s !! path))) s)
    | Raises who => (Throw (Rejected who), s, [FsGetDoc path])
    end.
Proof.
  unfold Rooms.getDoc_exists. rewrite gbind_assoc.
  destruct (api_getDoc env path) as [[]|who].
  - by rewrite gbind_call_Returns, gbind_gets.
  - by rewrite gbind_call_Raises.
Qed.

Lemma rooms_bind_local {A B} (o : Outcome A) (k : A → MG FsCall Rooms.Store B) s :
  gbind (Rooms.local_call o) k s
  = match o with
    | Returns a => k a s
    | Raises who => (Throw (Rejected who), s, [])
    end.
Proof.
  unfold gbind, Rooms.local_call. destruct o as [a|who]; [|done].
  by destruct (k a s) as [[??]?].
Qed.

Lemma field_insert_eq (s : Rooms.Store) (path : list string)
    (d : gmap string FieldValue) (name : string) :
  field (<[path := d]> s) path name = d !! name.
Proof. unfold field. by rewrite lookup_insert_eq. Qed.

Lemma field_insert_ne (s : Rooms.Store) (path path' : list string)
    (d : gmap string FieldValue) (name : string) :
  path ≠ path' → field (<[path := d]> s) path' name = field s path' name.
Proof. intros Hne. unfold field. by rewrite lookup_insert_ne. Qed.

Lemma merged_field_kept (data : gmap string FieldValue)
    (old : option (gmap string FieldValue)) (name : string) :
  data !! name = None → (data ∪ default ∅ old) !! name = old ≫= (λ d, d !! name).
Proof.
  intros Hd. rewrite lookup_union_r by done. by destruct old.
Qed.

Lemma merged_field_set (data : gmap string FieldValue)
    (old : option (gmap string FieldValue)) (name : string) v :
  data !! name = Some v → (data ∪ default ∅ old) !! name = Some v.
Proof. apply lookup_union_Some_l. Qed.

Ltac lookup_literal :=
  repeat first
    [ rewrite lookup_insert_eq | rewrite lookup_singleton_eq
    | rewrite lookup_insert_ne by done ];
  done.

Ltac field_set :=
  rewrite ?field_insert_ne by done; rewrite field_insert_eq;
  apply merged_field_set; lookup_literal.

(** The member document of a room is never the room document: its path is
    the room's path followed by further segments. *)
Lemma member_path_extends roomId u rp mp :
  Rooms.room_path roomId = Returns rp →
  Rooms.member_path roomId u = Returns mp →
  ∃ rest, mp = rp ++ "members" :: rest.
Proof.
  unfold Rooms.room_path, Rooms.member_path, Rooms.doc.
  destruct (existsb Rooms.has_double_slash ["rooms"; roomId]); [done|].
  destruct (Nat.even (List.length (Rooms.segments ["rooms"; roomId]))); [|done].
  intros [= <-].
  destruct (existsb Rooms.has_double_slash ["rooms"; roomId; "members"; u]); [done|].
  destruct (Nat.even (List.length (Rooms.segments ["rooms"; roomId; "members"; u])));
    [|done].
  intros [= <-].
  unfold Rooms.segments.
  change (["rooms"; roomId; "members"; u]) with (["rooms"; roomId] ++ ["members"; u]).
  rewrite bind_app, List.filter_app. by eexists.
Qed.

Lemma room_member_paths_differ roomId u rp mp :
  Rooms.room_path roomId = Returns rp →
  Rooms.member_path roomId u = Returns mp →
  rp ≠ mp.
Proof.
  intros Hr Hm. destruct (member_path_extends roomId u rp mp Hr Hm) as [rest ->].
  intros Heq. apply (f_equal List.length) in Heq.
  rewrite length_app in Heq. simpl in Heq. lia.
Qed.

(** The run of [joinRoom], by what Firebase answers. *)
Lemma rooms_joinRoom_run (roomId displayName : string) (env : ApiEnv)
    (s : Rooms.Store) :
  Rooms.joinRoom roomId displayName env s
  = match api_getFirestore env with
    | Raises who => (Throw (Rejected who), s, [FsGetFirestore])
    | Returns _ =>
      match api_getAuth env with
      | Raises who => (Throw (Rejected who), s, [FsGetFirestore; FsGetAuth])
      | Returns None => (Throw (Rejected "TypeError"), s, [FsGetFirestore; FsGetAuth])
      | Returns (Some usr) =>
        let data := <["role" := FString "player"]>
                      {["displayName" := FString displayName]} in
        match Rooms.room_path roomId with
        | Raises who => (Throw (Rejected who), s, [FsGetFirestore; FsGetAuth])
        | Returns rp =>
          match api_getDoc env rp with
          | Raises who =>
              (Throw (Rejected who), s, [FsGetFirestore; FsGetAuth; FsGetDoc rp])
          | Returns _ =>
            if bool_decide (is_Some (s !! rp)) then
              match Rooms.member_path roomId (uid usr) with
              | Raises who =>
                  (Throw (Rejected who), s,
                   [FsGetFirestore; FsGetAuth; FsGetDoc rp])
              | Returns mp =>
                match api_setDoc env mp with
                | Returns _ =>
                    (Ok tt, <[mp := data ∪ default ∅ (s !! mp)]> s,
                     [FsGetFirestore; FsGetAuth; FsGetDoc rp; FsSetDoc mp data true])
                | Raises who =>
                    (Throw (Rejected who), s,
                     [FsGetFirestore; FsGetAuth; FsGetDoc rp; FsSetDoc mp data true])
                end
              end
            else (Throw (Error "Room not found"), s,
                  [FsGetFirestore; FsGetAuth; FsGetDoc rp])
          end
        end
      end
    end.
Proof.
  unfold Rooms.joinRoom.
  destruct (api_getFirestore env) as [[]|who]; [|done].
  rewrite gbind_call_Returns, rooms_bind_uid.
  destruct (api_getAuth env) as [[usr|]|who]; [|done..].
  rewrite rooms_bind_local. cbv zeta.
  destruct (Rooms.room_path roomId) as [rp|who]; [|done].
  rewrite rooms_bind_exists.
  destruct (api_getDoc env rp) as [[]|who]; [|done].
  destruct (bool_decide (is_Some (s !! rp))); simpl; [|done].
  rewrite rooms_bind_local.
  destruct (Rooms.member_path roomId (uid usr)) as [mp|who]; [|done].
  rewrite rooms_setDoc_run.
  by destruct (api_setDoc env mp) as [[]|who].
Qed.

(** The run of [createRoom], by what Firebase answers. *)
Lemma rooms_createRoom_run (roomId : string) (env : ApiEnv) (s : Rooms.Store) :
  Rooms.createRoom roomId env s
  = match api_getFirestore env with
    | Raises who => (Throw (Rejected who), s, [FsGetFirestore])
    | Returns _ =>
      match api_getAuth env with
      | Raises who => (Throw (Rejected who), s, [FsGetFirestore; FsGetAuth])
      | Returns None => (Throw (Rejected "TypeError"), s, [FsGetFirestore; FsGetAuth])
      | Returns (Some usr) =>
        let rdata := <["code" := FString roomId]>
                       (<["createdBy" := FString (uid usr)]>
                          {["createdAt" := FServerTimestamp]}) in
        let mdata := <["role" := FString "gm"]> {["displayName" := FString "GM"]} in
        match Rooms.room_path roomId with
        | Raises who => (Throw (Rejected who), s, [FsGetFirestore; FsGetAuth])
        | Returns rp =>
          match api_setDoc env rp with
          | Raises who =>
              (Throw (Rejected who), s,
               [FsGetFirestore; FsGetAuth; FsSetDoc rp rdata true])
          | Returns _ =>
            let s1 := <[rp := rdata ∪ default ∅ (s !! rp)]> s in
            match Rooms.member_path roomId (uid usr) with
            | Raises who =>
                (Throw (Rejected who), s1,
                 [FsGetFirestore; FsGetAuth; FsSetDoc rp rdata true])
            | Returns mp =>
              match api_setDoc env mp with
              | Returns _ =>
                  (Ok tt, <[mp := mdata ∪ default ∅ (s1 !! mp)]> s1,
                   [FsGetFirestore; FsGetAuth; FsSetDoc rp rdata true;
                    FsSetDoc mp mdata true])
              | Raises who =>
                  (Throw (Rejected who), s1,
                   [FsGetFirestore; FsGetAuth; FsSetDoc rp rdata true;
                    FsSetDoc mp mdata true])
              end
            end
          end
        end
      end
    end.
Proof.
  unfold Rooms.createRoom.
  destruct (api_getFirestore env) as [[]|who]; [|done].
  rewrite gbind_call_Returns, rooms_bind_uid.
  destruct (api_getAuth env) as [[usr|]|who]; [|done..].
  rewrite rooms_bind_local. cbv zeta.
  destruct (Rooms.room_path roomId) as [rp|who]; [|done].
  rewrite rooms_bind_setDoc.
  destruct (api_setDoc env rp) as [[]|who]; [|done].
  rewrite rooms_bind_local.
  destruct (Rooms.member_path roomId (uid usr)) as [mp|who]; [|done].
  rewrite rooms_setDoc_run.
  by destruct (api_setDoc env mp) as [[]|who].
Qed.

(** X11. [joinRoom] never resolves on a room id that names no document or
    names a document that does not exist.  When the id names no document
    (it is empty, or its path has an odd number of segments, as for A/B) the
    call rejects before any document is read or written, with the SDK's
    invalid-argument error once a user is signed in.  When the id names a
    document that does not exist, nothing is written, every document is left
    as it was, and the call rejects with "Room not found" once Firebase
    answers every call. *)
Theorem joinRoom_missing_room (roomId displayName : string) (env : ApiEnv)
    (s : Rooms.Store) :
  let x := Rooms.joinRoom roomId displayName env s in
  (∀ who, Rooms.room_path roomId = Raises who →
     (∀ r, res_of x ≠ Ok r)
     ∧ state_of x = s
     ∧ Forall (λ c, fs_reads c = false ∧ fs_writes c = false) (calls_of x)
     ∧ (api_getFirestore env = Returns tt →
        (∃ usr, api_getAuth env = Returns (Some usr)) →
        res_of x = Throw (Rejected who)))
  ∧ (∀ rp, Rooms.room_path roomId = Returns rp → s !! rp = None →
     (∀ r, res_of x ≠ Ok r)
     ∧ state_of x = s
     ∧ Forall (λ c, fs_writes c = false) (calls_of x)
     ∧ (api_getFirestore env = Returns tt →
        (∃ usr, api_getAuth env = Returns (Some usr)) →
        api_getDoc env rp = Returns tt →
        res_of x = Throw (Error "Room not found"))).
Proof.
  intros x. subst x. rewrite rooms_joinRoom_run. cbv zeta. split.
  - intros who ->.
    destruct (api_getFirestore env) as [[]|who'].
    2:{ split_and!; [done|done|by repeat constructor|done]. }
    destruct (api_getAuth env) as [[usr|]|who'].
    + split_and!; [done|done|by repeat constructor|done].
    + split_and!; [done|done|by repeat constructor|]. by intros _ [? [=]].
    + split_and!; [done|done|by repeat constructor|]. by intros _ [? [=]].
  - intros rp -> Hnone. rewrite Hnone.
    rewrite bool_decide_eq_false_2 by (by intros [? [=]]).
    destruct (api_getFirestore env) as [[]|who].
    2:{ split_and!; [done|done|by repeat constructor|done]. }
    destruct (api_getAuth env) as [[usr|]|who].
    2:{ split_and!; [done|done|by repeat constructor|]. by intros _ [? [=]]. }
    2:{ split_and!; [done|done|by repeat constructor|]. by intros _ [? [=]]. }
    destruct (api_getDoc env rp) as [[]|who].
    + split_and!; [done|done|by repeat constructor|done].
    + split_and!; [done|done|by repeat constructor|done].
Qed.

Lemma joinRoom_missing_room_witness :
  res_of (Rooms.joinRoom "R1" "Ann" (RoomsSample.firebase_ok (Some RoomsSample.gm)) ∅)
  = Throw (Error "Room not found")
  ∧ res_of (Rooms.joinRoom "A/B" "Ann"
              (RoomsSample.firebase_ok (Some RoomsSample.gm)) RoomsSample.taken)
    = Throw (Rejected "invalid-argument").
Proof.
  split.
  - destruct (joinRoom_missing_room "R1" "Ann"
                (RoomsSample.firebase_ok (Some RoomsSample.gm)) ∅) as [_ H].
    destruct (H ["rooms"; "R1"] eq_refl eq_refl) as (_ & _ & _ & H').
    apply H'; [reflexivity|by eexists|reflexivity].
  - destruct (joinRoom_missing_room "A/B" "Ann"
                (RoomsSample.firebase_ok (Some RoomsSample.gm)) RoomsSample.taken)
      as [H _].
    destruct (H "invalid-argument" eq_refl) as (_ & _ & _ & H').
    apply H'; [reflexivity|by eexists].
Defined.

(** X12. When [joinRoom] resolves, the room id names a document that
    existed, the caller's member document of that room has role "player" and
    the given display name whatever it held before (so a "gm" who joins is
    turned into a player), its other fields are kept, and no other document
    changed. *)
Theorem joinRoom_resolved (roomId displayName : string) (env : ApiEnv)
    (s : Rooms.Store) :
  let x := Rooms.joinRoom roomId displayName env s in
  res_of x = Ok tt →
  ∃ usr rp mp,
    api_getAuth env = Returns (Some usr)
    ∧ Rooms.room_path roomId = Returns rp
    ∧ Rooms.member_path roomId (uid usr) = Returns mp
    ∧ is_Some (s !! rp)
    ∧ field (state_of x) mp "role" = Some (FString "player")
    ∧ field (state_of x) mp "displayName" = Some (FString displayName)
    ∧ (∀ name, name ≠ "role" → name ≠ "displayName" →
         field (state_of x) mp name = field s mp name)
    ∧ (∀ path, path ≠ mp → state_of x !! path = s !! path).
Proof.
  intros x. subst x. rewrite rooms_joinRoom_run. cbv zeta.
  destruct (api_getFirestore env) as [[]|who]; [|done].
  destruct (api_getAuth env) as [[usr|]|who]; [|done..].
  destruct (Rooms.room_path roomId) as [rp|who]; [|done].
  destruct (api_getDoc env rp) as [[]|who]; [|done].
  case_bool_decide as Hex; [|done].
  destruct (Rooms.member_path roomId (uid usr)) as [mp|who] eqn:Hmp; [|done].
  destruct (api_setDoc env mp) as [[]|who]; [|done].
  intros _. exists usr, rp, mp. unfold state_of; simpl.
  split_and!; [done|done|done|done|field_set|field_set| |].
  - intros name H1 H2. rewrite field_insert_eq. rewrite merged_field_kept; [done|].
    rewrite lookup_insert_ne by done. by rewrite lookup_singleton_ne.
  - intros path Hne. by rewrite lookup_insert_ne.
Qed.

Lemma joinRoom_resolved_witness :
  ∃ usr rp mp,
    api_getAuth (RoomsSample.firebase_ok (Some RoomsSample.gm)) = Returns (Some usr)
    ∧ Rooms.room_path "/R1/" = Returns rp
    ∧ Rooms.member_path "/R1/" (uid usr) = Returns mp
    ∧ field (state_of (Rooms.joinRoom "/R1/" "Ann"
                         (RoomsSample.firebase_ok (Some RoomsSample.gm))
                         RoomsSample.taken))
        mp "role" = Some (FString "player").
Proof.
  destruct (joinRoom_resolved "/R1/" "Ann"
              (RoomsSample.firebase_ok (Some RoomsSample.gm)) RoomsSample.taken)
    as (usr & rp & mp & H1 & H2 & H3 & _ & H5 & _).
  - vm_compute; reflexivity.
  - by exists usr, rp, mp.
Defined.

(** X13. [createRoom] never reads a document.  When it resolves, the room id
    names a document, which carries the room id as [code], the caller as
    [createdBy] (also when it existed and was created by somebody else) and
    the server-timestamp sentinel as [createdAt]; the caller's member document
    of that room has role "gm" and display name "GM"; and no other document
    changed. *)
Theorem createRoom_resolved (roomId : string) (env : ApiEnv) (s : Rooms.Store) :
  let x := Rooms.createRoom roomId env s in
  Forall (λ c, fs_reads c = false) (calls_of x)
  ∧ (res_of x = Ok tt →
     ∃ usr rp mp,
       api_getAuth env = Returns (Some usr)
       ∧ Rooms.room_path roomId = Returns rp
       ∧ Rooms.member_path roomId (uid usr) = Returns mp
       ∧ field (state_of x) rp "code" = Some (FString roomId)
       ∧ field (state_of x) rp "createdBy" = Some (FString (uid usr))
       ∧ field (state_of x) rp "createdAt" = Some FServerTimestamp
       ∧ field (state_of x) mp "role" = Some (FString "gm")
       ∧ field (state_of x) mp "displayName" = Some (FString "GM")
       ∧ (∀ path, path ≠ rp → path ≠ mp → state_of x !! path = s !! path)).
Proof.
  intros x. subst x. rewrite rooms_createRoom_run. cbv zeta.
  destruct (api_getFirestore env) as [[]|who];
    [|split; [by repeat constructor|done]].
  destruct (api_getAuth env) as [[usr|]|who];
    [|split; [by repeat constructor|done]..].
  destruct (Rooms.room_path roomId) as [rp|who] eqn:Hrp;
    [|split; [by repeat constructor|done]].
  destruct (api_setDoc env rp) as [[]|who];
    [|split; [by repeat constructor|done]].
  destruct (Rooms.member_path roomId (uid usr)) as [mp|who] eqn:Hmp;
    [|split; [by repeat constructor|done]].
  destruct (api_setDoc env mp) as [[]|who];
    [|split; [by repeat constructor|done]].
  split; [by repeat constructor|].
  pose proof (room_member_paths_differ roomId (uid usr) rp mp Hrp Hmp) as Hne.
  intros _. exists usr, rp, mp. unfold state_of; simpl.
  split_and!; [done|done|done|field_set..|].
  intros path H1 H2. by rewrite !lookup_insert_ne.
Qed.

Lemma createRoom_resolved_witness :
  ∃ usr rp,
    api_getAuth (RoomsSample.firebase_ok (Some RoomsSample.gm)) = Returns (Some usr)
    ∧ Rooms.room_path "R1" = Returns rp
    ∧ field (state_of (Rooms.createRoom "R1"
                         (RoomsSample.firebase_ok (Some RoomsSample.gm))
                         RoomsSample.taken))
        rp "createdBy" = Some (FString (uid usr)).
Proof.
  destruct (createRoom_resolved "R1"
              (RoomsSample.firebase_ok (Some RoomsSample.gm)) RoomsSample.taken)
    as [_ H].
  destruct H as (usr & rp & mp & H1 & H2 & _ & _ & H4 & _).
  - vm_compute; reflexivity.
  - by exists usr, rp.
Defined.

(** X14. [createRoom] is not atomic: when the room document is written and
    the write of the member document is rejected, the call rejects and the
    room document stays written, with the caller as [createdBy], while the
    caller's member document is as it was before the call. *)
Theorem createRoom_partial_write (roomId : string) (env : ApiEnv) (usr : User)
    (who : string) (rp mp : list string) (s : Rooms.Store) :
  api_getFirestore env = Returns tt →
  api_getAuth env = Returns (Some usr) →
  Rooms.room_path roomId = Returns rp →
  Rooms.member_path roomId (uid usr) = Returns mp →
  api_setDoc env rp = Returns tt →
  api_setDoc env mp = Raises who →
  let x := Rooms.createRoom roomId env s in
  res_of x = Throw (Rejected who)
  ∧ field (state_of x) rp "createdBy" = Some (FString (uid usr))
  ∧ state_of x !! mp = s !! mp.
Proof.
  intros Hfs Hauth Hrp Hmp Hroom Hmember x. subst x.
  pose proof (room_member_paths_differ roomId (uid usr) rp mp Hrp Hmp) as Hne.
  rewrite rooms_createRoom_run. cbv zeta.
  rewrite Hfs, Hauth, Hrp, Hroom, Hmp, Hmember.
  unfold res_of, state_of; simpl. split_and!; [done|field_set|].
  by rewrite lookup_insert_ne.
Qed.

Lemma createRoom_partial_write_witness :
  res_of (Rooms.createRoom "R1" (RoomsSample.members_locked (Some RoomsSample.gm)) ∅)
  = Throw (Rejected "permission-denied")
  ∧ state_of (Rooms.createRoom "R1"
                (RoomsSample.members_locked (Some RoomsSample.gm)) ∅)
    !! ["rooms"; "R1"; "members"; "u1"] = None.
Proof.
  destruct (createRoom_partial_write "R1"
              (RoomsSample.members_locked (Some RoomsSample.gm)) RoomsSample.gm
              "permission-denied" ["rooms"; "R1"] ["rooms"; "R1"; "members"; "u1"] ∅)
    as (H1 & _ & H3); [reflexivity..|].
  split; [exact H1|exact H3].
Defined.

(** X15. The creator of a room who then joins it loses the "gm" role:
    after a resolved [createRoom], a [joinRoom] of the same room by the same
    user, with Firebase answering every call, resolves and leaves the member
    document with role "player". *)
Theorem creator_joining_becomes_player (roomId displayName : string)
    (env env' : ApiEnv) (usr : User) (s : Rooms.Store) :
  res_of (Rooms.createRoom roomId env s) = Ok tt →
  api_getAuth env = Returns (Some usr) →
  api_getFirestore env' = Returns tt →
  api_getAuth env' = Returns (Some usr) →
  (∀ rp, Rooms.room_path roomId = Returns rp → api_getDoc env' rp = Returns tt) →
  (∀ mp, Rooms.member_path roomId (uid usr) = Returns mp →
     api_setDoc env' mp = Returns tt) →
  let s1 := state_of (Rooms.createRoom roomId env s) in
  let y := Rooms.joinRoom roomId displayName env' s1 in
  ∃ rp mp,
    Rooms.room_path roomId = Returns rp
    ∧ Rooms.member_path roomId (uid usr) = Returns mp
    ∧ field s1 mp "role" = Some (FString "gm")
    ∧ res_of y = Ok tt
    ∧ field (state_of y) mp "role" = Some (FString "player")
    ∧ field (state_of y) rp "createdBy" = Some (FString (uid usr)).
Proof.
  intros Hres Hauth Hfs' Hauth' Hget' Hset' s1 y. subst y s1. revert Hres.
  rewrite rooms_createRoom_run. cbv zeta. rewrite Hauth.
  destruct (api_getFirestore env) as [[]|who]; [|done].
  destruct (Rooms.room_path roomId) as [rp|who] eqn:Hrp; [|done].
  destruct (api_setDoc env rp) as [[]|who]; [|done].
  destruct (Rooms.member_path roomId (uid usr)) as [mp|who] eqn:Hmp; [|done].
  destruct (api_setDoc env mp) as [[]|who]; [|done].
  pose proof (room_member_paths_differ roomId (uid usr) rp mp Hrp Hmp) as Hne.
  specialize (Hget' rp eq_refl). specialize (Hset' mp eq_refl).
  intros _. exists rp, mp. unfold state_of at 1 2 4 6; simpl.
  rewrite rooms_joinRoom_run. cbv zeta.
  rewrite Hfs', Hauth', Hrp, Hget', Hmp, Hset'.
  rewrite bool_decide_eq_true_2.
  2:{ rewrite lookup_insert_ne by done. rewrite lookup_insert_eq. by eexists. }
  unfold res_of, state_of; simpl.
  split_and!; [done|done|field_set|done|field_set..].
Qed.

Lemma creator_joining_becomes_player_witness :
  ∃ rp mp,
    Rooms.room_path "R1" = Returns rp
    ∧ Rooms.member_path "R1" "u1" = Returns mp
    ∧ field (state_of (Rooms.joinRoom "R1" "Ann"
                         (RoomsSample.firebase_ok (Some RoomsSample.gm))
                         (state_of (Rooms.createRoom "R1"
                                      (RoomsSample.firebase_ok (Some RoomsSample.gm))
                                      ∅))))
        mp "role" = Some (FString "player").
Proof.
  destruct (creator_joining_becomes_player "R1" "Ann"
              (RoomsSample.firebase_ok (Some RoomsSample.gm))
              (RoomsSample.firebase_ok (Some RoomsSample.gm)) RoomsSample.gm ∅)
    as (rp & mp & H1 & H2 & _ & _ & H & _); [reflexivity..|].
  by exists rp, mp.
Defined.

(** X16. Without a signed-in user both functions reject with the runtime's
    [TypeError] before any document is read or written. *)
Theorem rooms_api_needs_user (roomId displayName : string) (env : ApiEnv) (s : Rooms.Store) :
  api_getFirestore env = Returns tt →
  api_getAuth env = Returns None →
  Rooms.createRoom roomId env s
  = (Throw (Rejected "TypeError"), s, [FsGetFirestore; FsGetAuth])
  ∧ Rooms.joinRoom roomId displayName env s
    = (Throw (Rejected "TypeError"), s, [FsGetFirestore; FsGetAuth]).
Proof.
  intros Hfs Hauth.
  by rewrite rooms_createRoom_run, rooms_joinRoom_run, Hfs, Hauth.
Qed.

Lemma rooms_api_needs_user_witness :
  res_of (Rooms.createRoom "R1" (RoomsSample.firebase_ok None) ∅)
  = Throw (Rejected "TypeError").
Proof.
  destruct (rooms_api_needs_user "R1" "Ann" (RoomsSample.firebase_ok None) ∅)
    as [H _]; [reflexivity..|].
  by rewrite H.
Defined.

(** * The token endpoint *)

Lemma gtry_with_ok {E W A} (m : MG E W A) h (w : W) a w1 t1 :
  m w = (Ok a, w1, t1) → gtry_with m h w = (Ok a, w1, t1).
Proof. unfold gtry_with. by intros ->. Qed.

Lemma gtry_with_throw {E W A} (m : MG E W A) h (w : W) e w1 t1 :
  m w = (Throw e, w1, t1) → gtry_with m h w = gpre t1 (h e w1).
Proof. unfold gtry_with, gpre. intros ->. by destruct (h e w1) as [[??]?]. Qed.

(** Every path of the handler, one goal each, with the answers that select
    the path kept as equations. *)
Ltac token_paths req env :=
  unfold TokenEndpoint.livekitToken; cbv zeta;
  unfold TokenEndpoint.res_set;
  destruct (bool_decide (TokenEndpoint.or_empty (req_origin req)
                           ∈ TokenEndpoint.allowed)) eqn:Horigin;
  rewrite !gbind_modify;
  (destruct (String.eqb (req_method req) "OPTIONS") eqn:Hmethod;
   [|unfold gtry_with;
     destruct (TokenEndpoint.bearer_token
                 (TokenEndpoint.or_empty (req_authorization req)))
       as [idToken|] eqn:Hbearer; cbv beta iota;
     [destruct (te_verifyIdToken env idToken) as [uid|who] eqn:Hverify;
      [rewrite gbind_call_Returns;
       destruct (String.eqb (TokenEndpoint.room_of_query (req_room req)) "")
         eqn:Hroom; cbv beta iota;
       [|destruct (te_member env
                     (TokenEndpoint.member_doc_path
                        (TokenEndpoint.room_of_query (req_room req)) uid))
           as [[ex role]|who] eqn:Hmember;
         [rewrite gbind_call_Returns; cbv beta; cbn [md_exists md_role]; destruct ex;
          cbn [negb]; cbv beta iota;
          [destruct (TokenEndpoint.secret (te_apiKey env)) as [apiKey|] eqn:Hkey;
           cbv beta iota;
           [destruct (TokenEndpoint.secret (te_apiSecret env))
              as [apiSecret|] eqn:Hsecret; cbv beta iota;
            [destruct (te_toJwt env) as [jwt|who] eqn:Hjwt;
             [rewrite gbind_call_Returns|rewrite gbind_call_Raises]|]|]|]
         |rewrite gbind_call_Raises]]
      |rewrite gbind_call_Raises]|]]);
  unfold TokenEndpoint.respond, gpre, gbind, gemit, gmodify, res_of, state_of, calls_of;
  simpl.

(** X17. The handler answers every request exactly once and never throws:
    one response is sent, its status is one of 200, 204, 400, 401, 403 and
    500, and the three CORS headers are set on it, the allowed origin being
    the request's origin when that is http://localhost:5173 and "*"
    otherwise. *)
Theorem token_handler_always_answers req env r :
  let x := TokenEndpoint.livekitToken req env r in
  res_of x = Ok tt
  ∧ (∃ code body, res_sent (state_of x) = res_sent r ++ [(code, body)]
       ∧ code ∈ [200; 204; 400; 401; 403; 500])
  ∧ res_headers (state_of x) !! "Access-Control-Allow-Origin"
    = Some (if bool_decide (TokenEndpoint.or_empty (req_origin req)
                              ∈ TokenEndpoint.allowed)
            then TokenEndpoint.or_empty (req_origin req) else "*")
  ∧ res_headers (state_of x) !! "Access-Control-Allow-Methods"
    = Some "GET, OPTIONS"
  ∧ res_headers (state_of x) !! "Access-Control-Allow-Headers"
    = Some "Content-Type, Authorization".
Proof.
  intros x. subst x. token_paths req env.
  all: split_and!;
    [done
    |eexists _, _; split; [done|in_list]
    |by rewrite !lookup_insert_ne, lookup_insert_eq by done
    |by rewrite !lookup_insert_ne, lookup_insert_eq by done
    |by rewrite lookup_insert_eq].
Qed.


Lemma sent_inv (l : list (nat * Body)) c b c' b' :
  l ++ [(c, b)] = l ++ [(c', b')] → c = c' ∧ b = b'.
Proof. intros H%app_inv_head. by injection H. Qed.

(** X18. A token is handed out only to a verified member of the room: the
    response is 200 exactly when the request is not a preflight, carries a
    bearer token that [verifyIdToken] accepts, names a room, the member
    document of the verified uid in that room can be read and exists, both
    secrets are set and signing succeeds; the token is then signed for the
    verified uid and the requested room, and the body carries it with the
    stored role, "player" when none is stored. *)
Theorem token_granted_iff_verified_member req env r body :
  let x := TokenEndpoint.livekitToken req env r in
  let room := TokenEndpoint.room_of_query (req_room req) in
  res_sent (state_of x) = res_sent r ++ [(200, body)]
  ↔ ∃ idToken uid doc apiKey apiSecret jwt,
      req_method req ≠ "OPTIONS"
      ∧ TokenEndpoint.bearer_token (TokenEndpoint.or_empty (req_authorization req))
        = Some idToken
      ∧ te_verifyIdToken env idToken = Returns uid
      ∧ room ≠ ""
      ∧ te_member env (TokenEndpoint.member_doc_path room uid) = Returns doc
      ∧ md_exists doc = true
      ∧ TokenEndpoint.secret (te_apiKey env) = Some apiKey
      ∧ TokenEndpoint.secret (te_apiSecret env) = Some apiSecret
      ∧ te_toJwt env = Returns jwt
      ∧ body = BJson [("token", jwt);
                      ("role", TokenEndpoint.role_or_player (md_role doc))]
      ∧ calls_of x = [TVerifyIdToken idToken;
                      TGetMember (TokenEndpoint.member_doc_path room uid);
                      TToJwt apiKey apiSecret uid room].
Proof.
  intros x room. subst x room. split.
  - token_paths req env.
    all: intros [Hc Hb]%sent_inv; try discriminate Hc.
    all: subst body; apply String.eqb_neq in Hmethod, Hroom.
    all: by eexists idToken, uid, _, apiKey, apiSecret, jwt.
  - intros (idToken & uid & [ex role] & apiKey & apiSecret & jwt & Hm & Hb & Hv
            & Hr & Hd & Hex & Hk & Hs & Hj & -> & _).
    simpl in Hex. subst ex.
    apply String.eqb_neq in Hm, Hr.
    unfold TokenEndpoint.livekitToken; cbv zeta.
    unfold TokenEndpoint.res_set.
    destruct (bool_decide (TokenEndpoint.or_empty (req_origin req)
                             ∈ TokenEndpoint.allowed)).
    all: rewrite !gbind_modify, Hm; unfold gtry_with; rewrite Hb; cbv beta iota.
    all: rewrite Hv, gbind_call_Returns, Hr; cbv beta iota.
    all: rewrite Hd, gbind_call_Returns; cbv beta; cbn [md_exists md_role negb].
    all: cbv beta iota; rewrite Hk, Hs; cbv beta iota.
    all: rewrite Hj, gbind_call_Returns.
    all: by unfold TokenEndpoint.respond, gpre, gmodify, res_of, state_of.
Qed.

(** X19. A preflight is answered with 204 and an empty body, whatever else
    the request carries, without calling any collaborator. *)
Theorem token_preflight req env r :
  req_method req = "OPTIONS" →
  let x := TokenEndpoint.livekitToken req env r in
  res_sent (state_of x) = res_sent r ++ [(204, BSend "")]
  ∧ calls_of x = [].
Proof.
  intros Hm x. subst x. apply String.eqb_eq in Hm.
  unfold TokenEndpoint.livekitToken; cbv zeta. unfold TokenEndpoint.res_set.
  destruct (bool_decide (TokenEndpoint.or_empty (req_origin req)
                           ∈ TokenEndpoint.allowed)).
  all: by rewrite !gbind_modify, Hm.
Qed.

Lemma token_preflight_witness :
  res_sent (state_of (TokenEndpoint.livekitToken TokenSample.preflight
                        TokenSample.firestore_down TokenSample.fresh))
  = [(204, BSend "")].
Proof.
  destruct (token_preflight TokenSample.preflight TokenSample.firestore_down
              TokenSample.fresh) as [H _]; [reflexivity|].
  exact H.
Defined.

(** X20. Every exception of a collaborator is answered 401 "unauthorized"
    and logged: a rejected id token, and equally a member document that
    cannot be read or a token that cannot be signed.  The id token is
    verified before the room parameter is looked at. *)
Theorem token_failures_answer_unauthorized req env r tok :
  req_method req ≠ "OPTIONS" →
  TokenEndpoint.bearer_token (TokenEndpoint.or_empty (req_authorization req))
  = Some tok →
  let x := TokenEndpoint.livekitToken req env r in
  let unauthorized := (401, BJson [("error", "unauthorized")]) in
  head (calls_of x) = Some (TVerifyIdToken tok)
  ∧ (TLogError ∈ calls_of x ↔ res_sent (state_of x) = res_sent r ++ [unauthorized])
  ∧ (∀ who, te_verifyIdToken env tok = Raises who →
       res_sent (state_of x) = res_sent r ++ [unauthorized])
  ∧ (∀ uid who,
       te_verifyIdToken env tok = Returns uid →
       TokenEndpoint.room_of_query (req_room req) ≠ "" →
       te_member env (TokenEndpoint.member_doc_path
                        (TokenEndpoint.room_of_query (req_room req)) uid)
       = Raises who →
       res_sent (state_of x) = res_sent r ++ [unauthorized])
  ∧ (∀ who, te_toJwt env = Raises who →
       TToJwt_issued (calls_of x) = true →
       res_sent (state_of x) = res_sent r ++ [unauthorized]).
Proof.
  intros Hm Hb x unauthorized. subst x unauthorized.
  apply String.eqb_neq in Hm.
  token_paths req env; try congruence.
  all: assert (idToken = tok) as -> by congruence.
  all: split_and!; [done| | | |].
  all: try (intros; congruence).
  all: try (split; [intros Hin; repeat (apply elem_of_cons in Hin as [Hin|Hin];
                      try discriminate Hin); by apply elem_of_nil in Hin
                   |intros [Hc _]%sent_inv; discriminate Hc]).
  all: try (split; [done|intros _; in_list]).
  all: try (intros uid' who' Hv Hr; rewrite Hv in Hverify;
            injection Hverify as ->; apply String.eqb_neq in Hr; congruence).
  all: try (intros uid' who' Hv Hr; rewrite Hv in Hverify;
            injection Hverify as ->; congruence).
  all: try (intros who' _ [=]).
Qed.

Lemma token_failures_answer_unauthorized_witness :
  res_sent (state_of (TokenEndpoint.livekitToken TokenSample.get_token
                        TokenSample.firestore_down TokenSample.fresh))
  = [(401, BJson [("error", "unauthorized")])].
Proof.
  destruct (token_failures_answer_unauthorized TokenSample.get_token
              TokenSample.firestore_down TokenSample.fresh "abc")
    as (_ & _ & _ & H & _); [done|reflexivity|].
  apply (H "u1" "unavailable"); [reflexivity|done|reflexivity].
Defined.

Lemma substring_all (s : string) : String.substring 0 (String.length s) s = s.
Proof. induction s as [|c s IH]; [done|]. simpl. by rewrite IH. Qed.

Lemma prefix_split (p s : string) :
  String.prefix p s = true →
  s = p +:+ String.substring (String.length p) (String.length s - String.length p) s.
Proof.
  revert s. induction p as [|a p IH]; intros s.
  - intros _. simpl. by rewrite Nat.sub_0_r, substring_all.
  - destruct s as [|b s]; [done|]. simpl.
    destruct (ascii_dec a b) as [->|]; [|done].
    intros Hp. rewrite (IH s Hp) at 1. reflexivity.
Qed.

Lemma bearer_token_Some authz t :
  TokenEndpoint.bearer_token authz = Some t →
  authz = "Bearer " +:+ t ∧ t ≠ "" ∧ TokenEndpoint.on_one_line t = true.
Proof.
  unfold TokenEndpoint.bearer_token.
  destruct (String.prefix "Bearer " authz) eqn:Hp; [|done].
  apply prefix_split in Hp. cbv zeta.
  change (String.length "Bearer ") with 7 in Hp.
  destruct (String.eqb (String.substring 7 (String.length authz - 7) authz) "")
    eqn:He; [done|].
  destruct (TokenEndpoint.on_one_line
              (String.substring 7 (String.length authz - 7) authz)) eqn:Hl; [|done].
  simpl. intros [= <-]. apply String.eqb_neq in He. by rewrite <- Hp.
Qed.

(** X21. A request whose Authorization header is absent, or is anything but
    "Bearer " followed by a non-empty text on one line, is answered 401
    "missing_bearer_token" without any collaborator being called: no token is
    verified and no document is read. *)
Theorem token_requires_bearer req env r :
  req_method req ≠ "OPTIONS" →
  (∀ t, TokenEndpoint.or_empty (req_authorization req) = "Bearer " +:+ t →
        t = "" ∨ TokenEndpoint.on_one_line t = false) →
  let x := TokenEndpoint.livekitToken req env r in
  res_sent (state_of x)
  = res_sent r ++ [(401, BJson [("error", "missing_bearer_token")])]
  ∧ calls_of x = [].
Proof.
  intros Hm Hauthz x. subst x. apply String.eqb_neq in Hm.
  assert (Hb : TokenEndpoint.bearer_token
                 (TokenEndpoint.or_empty (req_authorization req)) = None).
  { destruct (TokenEndpoint.bearer_token
                (TokenEndpoint.or_empty (req_authorization req))) as [t|] eqn:Hb;
      [|done].
    apply bearer_token_Some in Hb as (Ha & Hne & Hl).
    destruct (Hauthz t Ha) as [->|Hl']; [done|congruence]. }
  unfold TokenEndpoint.livekitToken; cbv zeta. unfold TokenEndpoint.res_set.
  destruct (bool_decide (TokenEndpoint.or_empty (req_origin req)
                           ∈ TokenEndpoint.allowed)).
  all: rewrite !gbind_modify, Hm; unfold gtry_with; by rewrite Hb.
Qed.

Lemma token_requires_bearer_witness :
  calls_of (TokenEndpoint.livekitToken
              {| req_method := "GET"; req_origin := None;
                 req_authorization := Some "bearer abc";
                 req_room := QString "R1" |}
              (TokenSample.member None) TokenSample.fresh) = [].
Proof.
  destruct (token_requires_bearer
              {| req_method := "GET"; req_origin := None;
                 req_authorization := Some "bearer abc";
                 req_room := QString "R1" |}
              (TokenSample.member None) TokenSample.fresh) as [_ H];
    [done|intros t; discriminate|].
  exact H.
Defined.

(** * Configuration and Firebase start-up *)

(** The run of the fetching part of [loadConfig], by what the server answers. *)
Lemma config_fetch_run {V} (env : ConfigEnv V) (w : option V) :
  Config.fetchConfig env w
  = match cfg_fetch env with
    | Raises who =>
        (Throw (Rejected who), w, [CLog "[config] fetching"; CFetch (cfg_url env)])
    | Returns res =>
        if cr_ok res then
          match cr_json res with
          | Returns v =>
              (Ok v, Some v,
               [CLog "[config] fetching"; CFetch (cfg_url env);
                CLog "[config] status"; CJson])
          | Raises who =>
              (Throw (Rejected who), w,
               [CLog "[config] fetching"; CFetch (cfg_url env);
                CLog "[config] status"; CJson])
          end
        else
          (Throw (Error ("Missing config.json at " +:+ cfg_url env +:+ " (status "
                         +:+ pretty (cr_status res) +:+ ")")), w,
           [CLog "[config] fetching"; CFetch (cfg_url env); CLog "[config] status"])
    end.
Proof.
  unfold Config.fetchConfig, gbind, gemit, gcall, gthrow, gmodify, gret.
  destruct (cfg_fetch env) as [res|who]; [|done].
  destruct (cr_ok res); [|done].
  by destruct (cr_json res) as [v|who].
Qed.

Lemma config_load_cached {V} (truthy : V → bool) env (w : option V) v :
  w = Some v → truthy v = true →
  Config.loadConfig truthy env w = (Ok v, w, [CLog "[config] using cached cfg"]).
Proof.
  intros -> Hv. unfold Config.loadConfig, gbind, ggets, gemit, gret.
  by rewrite Hv.
Qed.

Lemma config_load_uncached {V} (truthy : V → bool) env (w : option V) :
  cached truthy w = false →
  Config.loadConfig truthy env w = Config.fetchConfig env w.
Proof.
  intros Hw. unfold Config.loadConfig, gbind at 1. unfold ggets.
  destruct w as [v|]; simpl in Hw; rewrite ?Hw;
    by destruct (Config.fetchConfig env _) as [[[?|?] ?] ?]; rewrite ?app_nil_l.
Qed.

(** After a load that resolved with a truthy value, the next load resolves
    with it. *)
Lemma loadConfig_state {V} (truthy : V → bool) (env env' : ConfigEnv V)
    (w : option V) v :
  res_of (Config.loadConfig truthy env w) = Ok v → truthy v = true →
  res_of (Config.loadConfig truthy env' (state_of (Config.loadConfig truthy env w)))
  = Ok v.
Proof.
  intros Hx Hv. revert Hx. destruct (cached truthy w) eqn:Hc.
  - destruct w as [v0|]; [|done]. simpl in Hc.
    rewrite (config_load_cached truthy env (Some v0) v0 eq_refl Hc).
    unfold res_of at 1, state_of; simpl. intros [= <-].
    by rewrite (config_load_cached truthy env' (Some v0) v0 eq_refl Hc).
  - rewrite (config_load_uncached truthy env w Hc), config_fetch_run.
    destruct (cfg_fetch env) as [res|who]; [|done].
    destruct (cr_ok res); [|done].
    destruct (cr_json res) as [v'|who]; [|done].
    unfold res_of at 1, state_of; simpl. intros [= ->].
    by rewrite (config_load_cached truthy env' (Some v) v eq_refl Hv).
Qed.

(** X22. Once a configuration is cached, [loadConfig] resolves with it
    without fetching, whatever the server would answer, and leaves the cache
    as it is. *)
Theorem loadConfig_uses_cache {V} (truthy : V → bool) (env : ConfigEnv V)
    (w : option V) v :
  w = Some v → truthy v = true →
  let x := Config.loadConfig truthy env w in
  res_of x = Ok v
  ∧ state_of x = w
  ∧ existsb is_config_fetch (calls_of x) = false.
Proof.
  intros Hw Hv x. subst x. by rewrite (config_load_cached truthy env w v Hw Hv).
Qed.

Lemma loadConfig_uses_cache_witness :
  res_of (Config.loadConfig ConfigSample.truthy ConfigSample.missing
            (Some (ConfigSample.JObject "rpg")))
  = Ok (ConfigSample.JObject "rpg").
Proof.
  destruct (loadConfig_uses_cache ConfigSample.truthy ConfigSample.missing
              (Some (ConfigSample.JObject "rpg")) (ConfigSample.JObject "rpg"))
    as [H _]; [reflexivity..|].
  exact H.
Defined.

(** X23. A [loadConfig] that resolves leaves its result in the cache; when
    that result is truthy, every later call resolves with the same value and
    does not fetch; when it is falsy (a body such as [null]), the next call
    fetches again. *)
Theorem loadConfig_fetches_once {V} (truthy : V → bool) (env env' : ConfigEnv V)
    (w : option V) v :
  let x := Config.loadConfig truthy env w in
  let y := Config.loadConfig truthy env' (state_of x) in
  res_of x = Ok v →
  state_of x = (if cached truthy w then w else Some v)
  ∧ (truthy v = true →
     res_of y = Ok v ∧ state_of y = state_of x
     ∧ existsb is_config_fetch (calls_of y) = false)
  ∧ (truthy v = false →
     head (calls_of y) = Some (CLog "[config] fetching")
     ∧ CFetch (cfg_url env') ∈ calls_of y).
Proof.
  intros x y Hx. subst x y.
  destruct (cached truthy w) eqn:Hc.
  - destruct w as [v0|]; [|done]. simpl in Hc. revert Hx.
    rewrite (config_load_cached truthy env (Some v0) v0 eq_refl Hc).
    unfold res_of, state_of; simpl. intros [= <-].
    split_and!; [done| |congruence].
    intros _. by rewrite (config_load_cached truthy env' (Some v0) v0 eq_refl Hc).
  - revert Hx. rewrite (config_load_uncached truthy env w Hc), config_fetch_run.
    destruct (cfg_fetch env) as [res|who]; [|done].
    destruct (cr_ok res); [|done].
    destruct (cr_json res) as [v'|who]; [|done].
    unfold res_of, state_of; simpl. intros [= ->].
    split_and!; [done| |].
    + intros Hv. by rewrite (config_load_cached truthy env' (Some v) v eq_refl Hv).
    + intros Hv. rewrite (config_load_uncached truthy env' (Some v) Hv).
      rewrite config_fetch_run.
      destruct (cfg_fetch env') as [res'|who]; [|split; [done|in_list]].
      destruct (cr_ok res'); [|split; [done|in_list]].
      destruct (cr_json res') as [v'|who]; split; first [done|in_list].
Qed.

Lemma loadConfig_fetches_once_witness :
  existsb is_config_fetch
    (calls_of (Config.loadConfig ConfigSample.truthy ConfigSample.missing
                 (state_of (Config.loadConfig ConfigSample.truthy
                              (ConfigSample.served (ConfigSample.JObject "rpg"))
                              None))))
  = false.
Proof.
  destruct (loadConfig_fetches_once ConfigSample.truthy
              (ConfigSample.served (ConfigSample.JObject "rpg"))
              ConfigSample.missing None (ConfigSample.JObject "rpg"))
    as (_ & H & _); [reflexivity|].
  destruct H as (_ & _ & H); [reflexivity|]. exact H.
Defined.

(** X24. A [loadConfig] that rejects leaves the cache as it was and has
    fetched exactly once: a failure is neither cached nor retried.  When the
    response is not ok, the body is not read and the error names the URL and
    the status. *)
Theorem loadConfig_failure_not_cached {V} (truthy : V → bool) (env : ConfigEnv V)
    (w : option V) e :
  let x := Config.loadConfig truthy env w in
  res_of x = Throw e →
  state_of x = w
  ∧ List.length (List.filter is_config_fetch (calls_of x)) = 1
  ∧ (∀ res, cfg_fetch env = Returns res → cr_ok res = false →
       e = Error ("Missing config.json at " +:+ cfg_url env +:+ " (status "
                  +:+ pretty (cr_status res) +:+ ")")
       ∧ CJson ∉ calls_of x).
Proof.
  intros x Hx. subst x. revert Hx.
  destruct (cached truthy w) eqn:Hc.
  { destruct w as [v0|]; [|done]. simpl in Hc.
    by rewrite (config_load_cached truthy env (Some v0) v0 eq_refl Hc). }
  rewrite (config_load_uncached truthy env w Hc), config_fetch_run.
  destruct (cfg_fetch env) as [res|who].
  2:{ intros _. split_and!; [done..|]. by intros ? [=]. }
  destruct (cr_ok res) eqn:Hok.
  - destruct (cr_json res) as [v'|who]; [done|].
    intros _. split_and!; [done..|]. intros ? [= <-]. congruence.
  - unfold res_of; simpl. intros [= <-]. split_and!; [done..|].
    intros ? [= <-] _. split; [done|].
    intros Hin. repeat (apply elem_of_cons in Hin as [Hin|Hin]; try discriminate Hin).
    by apply elem_of_nil in Hin.
Qed.

Lemma loadConfig_failure_not_cached_witness :
  state_of (Config.loadConfig ConfigSample.truthy ConfigSample.missing None) = None.
Proof.
  destruct (loadConfig_failure_not_cached ConfigSample.truthy ConfigSample.missing None
              (Error "Missing config.json at https://app.example/config.json (status 404)"))
    as [H _]; [reflexivity|].
  exact H.
Defined.

(** ** [ensureFirebase] *)

Lemma firebase_initialised_run {V F} (truthy : V → bool) (firebase_of : V → option F)
    (env : FirebaseEnv V) (w : Firebase.World V) :
  initialised w = true →
  ∃ a au d f,
    Firebase.app w = Some a ∧ Firebase.auth w = Some au
    ∧ Firebase.db w = Some d ∧ Firebase.fs w = Some f
    ∧ Firebase.ensureFirebase truthy firebase_of env w
      = (Ok {| h_app := a; h_auth := au; h_db := d; h_fs := f |}, w, []).
Proof.
  unfold initialised, Firebase.ensureFirebase, gbind, ggets, gret.
  destruct (Firebase.app w) as [a|]; [|done].
  destruct (Firebase.auth w) as [au|]; [|done].
  destruct (Firebase.db w) as [d|]; [|done].
  destruct (Firebase.fs w) as [f|]; [|done].
  intros _. by exists a, au, d, f.
Qed.

(** The run from a state in which some handle is missing. *)
Lemma firebase_start_run {V F} (truthy : V → bool) (firebase_of : V → option F)
    (env : FirebaseEnv V) (w : Firebase.World V) :
  initialised w = false →
  Firebase.ensureFirebase truthy firebase_of env w
  = gpre [FbLog "[firebase] calling loadConfig()"]
      (match Config.loadConfig truthy (fe_config env) (Firebase.cfg w) with
       | (Throw e, c, t) =>
           (Throw e,
            Firebase.mkWorld c (Firebase.app w) (Firebase.auth w) (Firebase.db w)
              (Firebase.fs w),
            FbConfig <$> t)
       | (Ok v, c, t) =>
         gpre (FbConfig <$> t)
           match firebase_of v with
           | None =>
               (Throw (Rejected "TypeError"),
                Firebase.mkWorld c (Firebase.app w) (Firebase.auth w)
                  (Firebase.db w) (Firebase.fs w), [])
           | Some o =>
             gpre [FbLog "[firebase] got config (projectId="; FbInitializeApp o]
               match fe_initializeApp env with
               | Raises who =>
                   (Throw (Rejected who),
                    Firebase.mkWorld c (Firebase.app w) (Firebase.auth w)
                      (Firebase.db w) (Firebase.fs w), [])
               | Returns a =>
                 gpre [FbGetAuth a]
                   match fe_getAuth env with
                   | Raises who =>
                       (Throw (Rejected who),
                        Firebase.mkWorld c (Some a) (Firebase.auth w)
                          (Firebase.db w) (Firebase.fs w), [])
                   | Returns au =>
                     gpre [FbSignInAnonymously au]
                       match fe_signInAnonymously env with
                       | Raises who =>
                           (Throw (Rejected who),
                            Firebase.mkWorld c (Some a) (Some au)
                              (Firebase.db w) (Firebase.fs w), [])
                       | Returns _ =>
                         gpre [FbGetDatabase a]
                           match fe_getDatabase env with
                           | Raises who =>
                               (Throw (Rejected who),
                                Firebase.mkWorld c (Some a) (Some au)
                                  (Firebase.db w) (Firebase.fs w), [])
                           | Returns d =>
                             gpre [FbGetFirestore a]
                               match fe_getFirestore env with
                               | Raises who =>
                                   (Throw (Rejected who),
                                    Firebase.mkWorld c (Some a) (Some au) (Some d)
                                      (Firebase.fs w), [])
                               | Returns f =>
                                   (Ok {| h_app := a; h_auth := au; h_db := d;
                                          h_fs := f |},
                                    Firebase.mkWorld c (Some a) (Some au) (Some d)
                                      (Some f), [])
                               end
                           end
                       end
                   end
               end
           end
       end).
Proof.
  intros Hw.
  assert (Hrest : ∀ k : MG (FirebaseCall F) (Firebase.World V) Handles,
    match Firebase.app w, Firebase.auth w, Firebase.db w, Firebase.fs w with
    | Some a, Some au, Some d, Some f =>
        gret {| h_app := a; h_auth := au; h_db := d; h_fs := f |}
    | _, _, _, _ => k
    end = k).
  { intros k. unfold initialised in Hw.
    destruct (Firebase.app w); [|done]. destruct (Firebase.auth w); [|done].
    destruct (Firebase.db w); [|done]. by destruct (Firebase.fs w). }
  unfold Firebase.ensureFirebase. unfold gbind at 1. unfold ggets.
  rewrite Hrest.
  unfold Firebase.call_loadConfig, gbind, gemit, gcall, gthrow, gmodify, gret, gpre,
    res_of, state_of, calls_of.
  destruct (Config.loadConfig truthy (fe_config env) (Firebase.cfg w))
    as [[[v|e] c] t]; simpl; [|done].
  destruct (firebase_of v) as [o|]; simpl; [|done].
  destruct (fe_initializeApp env) as [a|who]; simpl; [|done].
  destruct (fe_getAuth env) as [au|who]; simpl; [|done].
  destruct (fe_signInAnonymously env) as [[]|who]; simpl; [|done].
  destruct (fe_getDatabase env) as [d|who]; simpl; [|done].
  destruct (fe_getFirestore env) as [f|who]; simpl; [|done].
  done.
Qed.

(** X25. [ensureFirebase] resolves only with all four handles assigned, and
    from then on it is a pure read: every later call, whatever the
    collaborators would answer, resolves with the same handles, calls nothing
    (no config load, no second sign-in) and changes nothing. *)
Theorem ensureFirebase_idempotent {V F} (truthy : V → bool)
    (firebase_of : V → option F) (env env' : FirebaseEnv V)
    (w : Firebase.World V) h :
  let x := Firebase.ensureFirebase truthy firebase_of env w in
  res_of x = Ok h →
  Firebase.app (state_of x) = Some (h_app h)
  ∧ Firebase.auth (state_of x) = Some (h_auth h)
  ∧ Firebase.db (state_of x) = Some (h_db h)
  ∧ Firebase.fs (state_of x) = Some (h_fs h)
  ∧ Firebase.ensureFirebase truthy firebase_of env' (state_of x)
    = (Ok h, state_of x, []).
Proof.
  intros x Hx. subst x.
  assert (Hinit : initialised
            (state_of (Firebase.ensureFirebase truthy firebase_of env w)) = true
          ∧ ∀ a au d f,
              Firebase.app (state_of (Firebase.ensureFirebase truthy firebase_of env w))
              = Some a →
              Firebase.auth (state_of (Firebase.ensureFirebase truthy firebase_of env w))
              = Some au →
              Firebase.db (state_of (Firebase.ensureFirebase truthy firebase_of env w))
              = Some d →
              Firebase.fs (state_of (Firebase.ensureFirebase truthy firebase_of env w))
              = Some f →
              h = {| h_app := a; h_auth := au; h_db := d; h_fs := f |}).
  { revert Hx. destruct (initialised w) eqn:Hw.
    - destruct (firebase_initialised_run truthy firebase_of env w Hw)
        as (a & au & d & f & Ha & Hau & Hd & Hf & ->).
      unfold res_of, state_of; simpl. intros [= <-]. split; [done|].
      intros ???? ????. congruence.
    - rewrite (firebase_start_run truthy firebase_of env w Hw).
      destruct (Config.loadConfig truthy (fe_config env) (Firebase.cfg w))
        as [[[v|e] c] t]; [|done].
      destruct (firebase_of v) as [o|]; [|done].
      destruct (fe_initializeApp env) as [a|who]; [|done].
      destruct (fe_getAuth env) as [au|who]; [|done].
      destruct (fe_signInAnonymously env) as [[]|who]; [|done].
      destruct (fe_getDatabase env) as [d|who]; [|done].
      destruct (fe_getFirestore env) as [f|who]; [|done].
      unfold gpre, res_of, state_of; simpl. intros [= <-]. split; [done|].
      intros ???? ????. congruence. }
  destruct Hinit as [Hinit Hh].
  destruct (firebase_initialised_run truthy firebase_of env' _ Hinit)
    as (a & au & d & f & Ha & Hau & Hd & Hf & Hrun).
  rewrite Hrun, Ha, Hau, Hd, Hf. rewrite (Hh a au d f Ha Hau Hd Hf).
  by split_and!.
Qed.

Lemma ensureFirebase_idempotent_witness :
  Firebase.ensureFirebase ConfigSample.truthy ConfigSample.firebase_of
    ConfigSample.sign_in_refused
    (state_of (Firebase.ensureFirebase ConfigSample.truthy ConfigSample.firebase_of
                 ConfigSample.firebase_up Firebase.initial))
  = (Ok {| h_app := 1; h_auth := 2; h_db := 3; h_fs := 4 |},
     state_of (Firebase.ensureFirebase ConfigSample.truthy ConfigSample.firebase_of
                 ConfigSample.firebase_up Firebase.initial),
     []).
Proof.
  destruct (ensureFirebase_idempotent ConfigSample.truthy ConfigSample.firebase_of
              ConfigSample.firebase_up ConfigSample.sign_in_refused Firebase.initial
              {| h_app := 1; h_auth := 2; h_db := 3; h_fs := 4 |})
    as (_ & _ & _ & _ & H); [reflexivity|].
  exact H.
Defined.

(** X26. A sign-in that fails leaves [ensureFirebase] half done: the call
    rejects, the app and auth handles of this call stay assigned, the
    database and Firestore handles are untouched; and since not all four are
    set, the next call initialises the app a second time. *)
Theorem ensureFirebase_failed_sign_in {V F} (truthy : V → bool)
    (firebase_of : V → option F) (env env' : FirebaseEnv V)
    (w : Firebase.World V) v o a au who :
  initialised w = false →
  Firebase.db w = None →
  res_of (Config.loadConfig truthy (fe_config env) (Firebase.cfg w)) = Ok v →
  truthy v = true →
  firebase_of v = Some o →
  fe_initializeApp env = Returns a →
  fe_getAuth env = Returns au →
  fe_signInAnonymously env = Raises who →
  let x := Firebase.ensureFirebase truthy firebase_of env w in
  let y := Firebase.ensureFirebase truthy firebase_of env' (state_of x) in
  res_of x = Throw (Rejected who)
  ∧ Firebase.app (state_of x) = Some a
  ∧ Firebase.auth (state_of x) = Some au
  ∧ Firebase.db (state_of x) = None
  ∧ Firebase.fs (state_of x) = Firebase.fs w
  ∧ FbInitializeApp o ∈ calls_of y.
Proof.
  intros Hw Hdb Hcfg Hv Ho Ha Hau Hsign x y. subst y x.
  assert (Hstate : ∃ c,
    Firebase.ensureFirebase truthy firebase_of env w
    = (Throw (Rejected who), Firebase.mkWorld c (Some a) (Some au) None (Firebase.fs w),
       calls_of (Firebase.ensureFirebase truthy firebase_of env w))
    ∧ res_of (Config.loadConfig truthy (fe_config env') c) = Ok v).
  { rewrite (firebase_start_run truthy firebase_of env w Hw).
    pose proof (loadConfig_state truthy (fe_config env) (fe_config env')
                  (Firebase.cfg w) v Hcfg Hv) as Hnext.
    revert Hcfg Hnext.
    destruct (Config.loadConfig truthy (fe_config env) (Firebase.cfg w))
      as [[[v'|e] c] t]; [|done].
    unfold res_of at 1, state_of at 1; simpl. intros [= ->] Hnext.
    rewrite Ho, Ha, Hau, Hsign, Hdb. exists c. by split. }
  destruct Hstate as (c & -> & Hnext).
  unfold res_of at 1, state_of; simpl. split_and!; [done..|].
  rewrite firebase_start_run by done. simpl.
  destruct (Config.loadConfig truthy (fe_config env') c) as [[[v'|e] c'] t];
    [|done].
  unfold res_of in Hnext; simpl in Hnext. injection Hnext as ->.
  rewrite Ho. unfold gpre, calls_of; simpl.
  apply list_elem_of_further, elem_of_app. right.
  apply list_elem_of_further, list_elem_of_here.
Qed.

Lemma ensureFirebase_failed_sign_in_witness :
  res_of (Firebase.ensureFirebase ConfigSample.truthy ConfigSample.firebase_of
            ConfigSample.sign_in_refused Firebase.initial)
  = Throw (Rejected "auth/operation-not-allowed")
  ∧ FbInitializeApp "rpg"
    ∈ calls_of (Firebase.ensureFirebase ConfigSample.truthy ConfigSample.firebase_of
                  ConfigSample.firebase_up
                  (state_of (Firebase.ensureFirebase ConfigSample.truthy
                               ConfigSample.firebase_of ConfigSample.sign_in_refused
                               Firebase.initial))).
Proof.
  destruct (ensureFirebase_failed_sign_in ConfigSample.truthy ConfigSample.firebase_of
              ConfigSample.sign_in_refused ConfigSample.firebase_up Firebase.initial
              (ConfigSample.JObject "rpg") "rpg" 1 2 "auth/operation-not-allowed")
    as (H1 & _ & _ & _ & _ & H2); [reflexivity..|].
  split; [exact H1|exact H2].
Defined.

(** * Room codes *)

Lemma pick_in_range (m : N) :
  (m < 2 ^ 1074)%N →
  ∃ c, RoomCode.pick m = String c EmptyString
       ∧ c ∈ list_ascii_of_string RoomCode.alphabet
       ∧ c ∉ ambiguous.
Proof.
  intros Hm. unfold RoomCode.pick.
  assert (Hi : N.to_nat (N.shiftr m 1069) < 32).
  { rewrite N.shiftr_div_pow2.
    assert (m / 2 ^ 1069 < 32)%N; [|lia].
    apply N.Div0.div_lt_upper_bound.
    by replace (2 ^ 1069 * 32)%N with (2 ^ 1074)%N by (by vm_compute). }
  generalize dependent (N.to_nat (N.shiftr m 1069)). intros i Hi.
  do 32 (destruct i as [|i];
         [eexists; split; [reflexivity|];
          split; [vm_compute; in_list
                 |intros Hin; vm_compute in Hin;
                  repeat (apply elem_of_cons in Hin as [Hin|Hin];
                          try discriminate Hin);
                  by apply elem_of_nil in Hin]|]).
  lia.
Qed.

Lemma concat_chars (l : list string) :
  Forall (λ s, ∃ c, s = String c EmptyString
                    ∧ c ∈ list_ascii_of_string RoomCode.alphabet
                    ∧ c ∉ ambiguous) l →
  String.length (String.concat "" l) = List.length l
  ∧ Forall (λ c, c ∈ list_ascii_of_string RoomCode.alphabet ∧ c ∉ ambiguous)
      (list_ascii_of_string (String.concat "" l)).
Proof.
  induction 1 as [|s l (c & -> & Hc) Hl [IH1 IH2]]; [by split|].
  destruct l as [|s' l].
  - split; [done|]. change (String.concat "" [String c EmptyString]) with (String c EmptyString).
    constructor; [done|constructor].
  - change (String.concat "" (String c EmptyString :: s' :: l))
      with (String c (String.concat "" (s' :: l))).
    split; [simpl in *; by rewrite IH1|]. by constructor.
Qed.

(** X27. Whatever [Math.random()] returns within its range, a room code has
    exactly [len] characters, each taken from the alphabet, and contains none
    of 0, O, 1 and I. *)
Theorem randomRoomCode_well_formed (len : nat) (random : nat → N) :
  (∀ i, i < len → (random i < 2 ^ 1074)%N) →
  String.length (RoomCode.randomRoomCode len random) = len
  ∧ Forall (λ c, c ∈ list_ascii_of_string RoomCode.alphabet ∧ c ∉ ambiguous)
      (list_ascii_of_string (RoomCode.randomRoomCode len random)).
Proof.
  intros Hr. unfold RoomCode.randomRoomCode.
  destruct (concat_chars ((λ i, RoomCode.pick (random i)) <$> seq 0 len))
    as [H1 H2].
  - apply Forall_fmap, Forall_forall. intros i Hi%elem_of_seq. simpl.
    apply pick_in_range, Hr. lia.
  - split; [|done]. by rewrite H1, length_fmap, length_seq.
Qed.

Lemma randomRoomCode_well_formed_witness :
  String.length (RoomCode.randomRoomCode 6 (λ i, N.shiftl (N.of_nat (5 * i)) 1069)) = 6.
Proof.
  destruct (randomRoomCode_well_formed 6 (λ i, N.shiftl (N.of_nat (5 * i)) 1069))
    as [H _].
  - intros i Hi. do 6 (destruct i as [|i]; [by vm_compute|]). lia.
  - exact H.
Defined.

(** * What a join does not depend on *)

(** X28. [joinLiveKit] swallows whatever [room.startAudio()] answers: the
    result, the module state and the calls issued are the same whether it
    resolves or throws, in both controllers. *)
Theorem join_ignores_startAudio roomId mounts audioContainer opts env o :
  (∀ w, AV.joinLiveKit roomId mounts opts (with_startAudio o env) w
        = AV.joinLiveKit roomId mounts opts env w)
  ∧ (∀ w, AudioOnly.joinLiveKit roomId audioContainer (with_startAudio o env) w
          = AudioOnly.joinLiveKit roomId audioContainer env w).
Proof.
  unfold with_startAudio. destruct env as [l c u s g f cn sa cl p cam].
  cbn [je_leave je_loadConfig je_currentUser je_signInAnonymously je_getIdToken
       je_fetch je_connect je_startAudio je_createLocalTracks je_publishTrack
       je_camera].
  by destruct o as [[]|who], sa as [[]|who'].
Qed.
